(** * Email-MCP dashboard: classification, extraction and the email store

    A shallow embedding of the JavaScript sources of the repository:

    - the keyword classifiers and the filter/sort pipeline of the
      [EmailManagement] component ([getPriority], [getSentiment],
      [getCategory], [filterAndSortEmails]);
    - the contact extraction of [EmailCard] and [ResponseEditor]
      ([extractContactInfo]);
    - the [useEmails] hook (load, refresh, filter, sort, paginate,
      optimistic update and delete, bulk operations, statistics);
    - the [emailAPI] object of [services/api.js] and the counts of the
      sidebar of [App.js];
    - the list view of [EmailList], the data loading of [Dashboard], the
      requests of [ResponseEditor], the text utilities of
      [services/api.js], the initials of [EmailCard] and the array,
      retry and telephone helpers of the front end.

    Modelling choices.  JavaScript strings are [string]s of ASCII
    characters ([toLowerCase] and the character classes act on ASCII).
    Numbers that the code uses as identifiers, counters, indices or
    instants are integers in [Z].  A record is a typed [email]; its
    timestamp is the instant it denotes.  The [Map] cache is a [gmap].
    Asynchronous code is a state-and-exception monad over an explicit
    world: the hook state, the clock, the time zone of the host, the
    remote boundary and the log of the requests made.  Built-ins of the language
    ([Array.prototype.sort], [slice], [Set], [Date], regular
    expressions) are modelled by executable definitions of their own. *)

From Stdlib Require Import ZArith List String Ascii Bool Lia Permutation Sorted.
From Stdlib Require OrderedTypeEx DecimalString.
From stdpp Require Import base option gmap.

Import ListNotations.
Local Open Scope string_scope.
Local Open Scope Z_scope.

(* ===================================================================== *)
(** * Part I: the embedding                                               *)
(* ===================================================================== *)

(** ** JavaScript strings *)

Module JsString.

(** One code unit of [String.prototype.toLowerCase]: the letters [A]-[Z]
    (65..90) move to [a]-[z]; every other code unit is kept. *)
Definition lower_char (c : ascii) : ascii :=
  let n := nat_of_ascii c in
  if ((65 <=? n) && (n <=? 90))%nat then ascii_of_nat (n + 32) else c.

Fixpoint toLowerCase (s : string) : string :=
  match s with
  | EmptyString => EmptyString
  | String c s' => String (lower_char c) (toLowerCase s')
  end.

(** [s.includes(needle)]: [needle] starts at some position of [s]. *)
Fixpoint includes (s needle : string) : bool :=
  String.prefix needle s ||
  match s with
  | EmptyString => false
  | String _ s' => includes s' needle
  end.

(** Truthiness of a possibly absent string: [undefined], [null] and the
    empty string are falsy. *)
Definition truthy (o : option string) : bool :=
  match o with
  | None => false
  | Some s => negb (String.eqb s "")
  end.

End JsString.

(** ** The keyword classifiers of [EmailManagement] *)

Module Classifier.
Import JsString.

Definition getPriority (subject : option string) : string :=
  if negb (truthy subject) then "medium"
  else
    let lowerSubject := toLowerCase (default "" subject) in
    if includes lowerSubject "urgent" || includes lowerSubject "critical"
       || includes lowerSubject "immediate"
    then "high"
    else if includes lowerSubject "help" || includes lowerSubject "support"
    then "medium"
    else "low".

Definition getSentiment (body : option string) : string :=
  if negb (truthy body) then "neutral"
  else
    let lowerBody := toLowerCase (default "" body) in
    if includes lowerBody "error" || includes lowerBody "issue"
       || includes lowerBody "problem" || includes lowerBody "cannot"
       || includes lowerBody "failed"
    then "negative"
    else if includes lowerBody "thank" || includes lowerBody "appreciate"
            || includes lowerBody "great" || includes lowerBody "good"
    then "positive"
    else "neutral".

(** [subject + ' ' + body]: string concatenation renders an absent
    operand as the text [undefined]. *)
Definition to_text (o : option string) : string := default "undefined" o.

Definition getCategory (subject body : option string) : string :=
  if negb (truthy subject) && negb (truthy body) then "general"
  else
    let lowerText := toLowerCase (to_text subject ++ " " ++ to_text body) in
    if includes lowerText "login" || includes lowerText "password"
       || includes lowerText "account"
    then "account"
    else if includes lowerText "billing" || includes lowerText "payment"
            || includes lowerText "charged" || includes lowerText "refund"
            || includes lowerText "pricing"
    then "billing"
    else if includes lowerText "technical" || includes lowerText "error"
            || includes lowerText "bug" || includes lowerText "issue"
    then "technical"
    else if includes lowerText "feature" || includes lowerText "enhancement"
            || includes lowerText "suggestion"
    then "feature"
    else "general".

End Classifier.

(** ** JavaScript arrays, sets and comparisons *)

Module JsArray.

(** [Array.prototype.sort(comparefn)].  ECMAScript fixes the result only
    for a consistent comparator (the stable sort); the order of the
    comparator calls, and so the result for an inconsistent one, is left
    to the engine.  The model is an insertion sort with the calling
    convention of V8's insertion pass: elements are taken left to right,
    [comparefn] is called with the element being inserted first, and
    that element is put before the first element it compares negative
    to. *)
Fixpoint insert {A : Type} (comparefn : A -> A -> Z) (x : A) (sorted : list A) : list A :=
  match sorted with
  | [] => [x]
  | y :: rest =>
      if comparefn x y <? 0 then x :: sorted else y :: insert comparefn x rest
  end.

Definition sort {A : Type} (comparefn : A -> A -> Z) (l : list A) : list A :=
  fold_left (fun sorted x => insert comparefn x sorted) l [].

(** [Array.prototype.slice(start, end)] with its relative indices: a
    negative index counts from the end, and both are clipped to the
    array. *)
Definition relative_index (len k : Z) : Z :=
  if k <? 0 then Z.max (len + k) 0 else Z.min k len.

Definition slice {A : Type} (l : list A) (start end_ : Z) : list A :=
  let len := Z.of_nat (length l) in
  let k := relative_index len start in
  let final := relative_index len end_ in
  firstn (Z.to_nat (final - k)) (skipn (Z.to_nat k) l).

(** [[...new Set(xs)]]: the values of [xs] in the order of their first
    occurrence, each once. *)
Fixpoint set_values (seen : list string) (xs : list string) : list string :=
  match xs with
  | [] => []
  | x :: rest =>
      if existsb (String.eqb x) seen then set_values seen rest
      else x :: set_values (x :: seen) rest
  end.

Definition spread_new_Set (xs : list string) : list string := set_values [] xs.

End JsArray.

(** ** JavaScript dates

    A [Date] is its time value, the milliseconds since the epoch.  Local
    time is the time value shifted by the offset the time zone of the
    host has in force, which may change from one instant to another
    (daylight saving); the civil calendar is the proleptic Gregorian
    one, computed by era arithmetic. *)

Module JsDate.

Definition msPerDay : Z := 86400000.

Definition Day (t : Z) : Z := t / msPerDay.
Definition TimeWithinDay (t : Z) : Z := t mod msPerDay.

(** The time zone of the host, as the two readings of ECMAScript's
    implementation-defined [LocalTZA(t, isUTC)].  [offset_at t] is the
    offset of local time from UTC in force at the instant [t];
    [offset_of_local t] is the offset the host applies to the local time
    value [t] (where a change of offset skips a local time or lets it
    occur twice, the offset in force before the change). *)
Record zone : Type := mkZone {
  offset_at : Z -> Z;
  offset_of_local : Z -> Z
}.

(** A zone whose offset never changes. *)
Definition fixed (tza : Z) : zone := mkZone (fun _ => tza) (fun _ => tza).

Definition LocalTime (tz : zone) (t : Z) : Z := t + offset_at tz t.
Definition UTC (tz : zone) (t : Z) : Z := t - offset_of_local tz t.

(** Day number of the civil date [y]-[m]-[d], [m] in 1..12. *)
Definition days_from_civil (y m d : Z) : Z :=
  let y' := if m <=? 2 then y - 1 else y in
  let era := y' / 400 in
  let yoe := y' - era * 400 in
  let mp := if 2 <? m then m - 3 else m + 9 in
  let doy := (153 * mp + 2) / 5 + d - 1 in
  let doe := yoe * 365 + yoe / 4 - yoe / 100 + doy in
  era * 146097 + doe - 719468.

(** Civil date (year, month 1..12, day of month) of a day number. *)
Definition civil_from_days (z : Z) : Z * Z * Z :=
  let z' := z + 719468 in
  let era := z' / 146097 in
  let doe := z' - era * 146097 in
  let yoe := (doe - doe / 1460 + doe / 36524 - doe / 146096) / 365 in
  let doy := doe - (365 * yoe + yoe / 4 - yoe / 100) in
  let mp := (5 * doy + 2) / 153 in
  let d := doy - (153 * mp + 2) / 5 + 1 in
  let m := if mp <? 10 then mp + 3 else mp - 9 in
  let y := yoe + era * 400 in
  (if m <=? 2 then y + 1 else y, m, d).

Definition YearFromTime (t : Z) : Z := fst (fst (civil_from_days (Day t))).
Definition MonthFromTime (t : Z) : Z := snd (fst (civil_from_days (Day t))) - 1.
Definition DateFromTime (t : Z) : Z := snd (civil_from_days (Day t)).

(** [MakeDay(year, month, date)]: months outside 0..11 carry into the
    year, and the date counts on from the first of the month. *)
Definition MakeDay (year month date : Z) : Z :=
  let ym := year + month / 12 in
  let mn := month mod 12 in
  days_from_civil ym (mn + 1) 1 + date - 1.

Definition MakeDate (day time : Z) : Z := day * msPerDay + time.

Definition getFullYear (tz : zone) (t : Z) : Z := YearFromTime (LocalTime tz t).
Definition getMonth (tz : zone) (t : Z) : Z := MonthFromTime (LocalTime tz t).
Definition getDate (tz : zone) (t : Z) : Z := DateFromTime (LocalTime tz t).

(** [d.setHours(0, 0, 0, 0)] *)
Definition setHours0 (tz : zone) (t : Z) : Z :=
  UTC tz (MakeDate (Day (LocalTime tz t)) 0).

(** [d.setDate(date)] *)
Definition setDate (tz : zone) (t date : Z) : Z :=
  let lt := LocalTime tz t in
  UTC tz (MakeDate (MakeDay (YearFromTime lt) (MonthFromTime lt) date)
                   (TimeWithinDay lt)).

(** [new Date(year, month, date)]; a year 0..99 means 1900 + year. *)
Definition newDate (tz : zone) (year month date : Z) : Z :=
  let yr := if (0 <=? year) && (year <=? 99) then 1900 + year else year in
  UTC tz (MakeDate (MakeDay yr month date) 0).

(** [a.toDateString() === b.toDateString()]: the same local day. *)
Definition sameDateString (tz : zone) (a b : Z) : bool :=
  Day (LocalTime tz a) =? Day (LocalTime tz b).

End JsDate.

(** ** Records *)

Module Email.

(** An email record.  [received_at] is the instant the record was
    received (the [EmailManagement] component reads the same instant as
    [sent_date]); text fields may be absent. *)
Record email : Type := mkEmail {
  id : Z;
  sender : option string;
  subject : option string;
  body : option string;
  received_at : Z;
  priority : string;
  sentiment : string;
  status : string;
  category : string
}.

(** A partial record ([updates], [updateData]): the fields it sets. *)
Record updates : Type := mkUpdates {
  upd_id : option Z;
  upd_sender : option string;
  upd_subject : option string;
  upd_body : option string;
  upd_received_at : option Z;
  upd_priority : option string;
  upd_sentiment : option string;
  upd_status : option string;
  upd_category : option string
}.

Definition no_updates : updates :=
  mkUpdates None None None None None None None None None.

Definition override {A : Type} (old : A) (new : option A) : A :=
  match new with
  | Some v => v
  | None => old
  end.

Definition override_opt {A : Type} (old : option A) (new : option A) : option A :=
  match new with
  | Some v => Some v
  | None => old
  end.

(** [{ ...email, ...updates }] *)
Definition spread (e : email) (u : updates) : email :=
  {| id := override (id e) (upd_id u);
     sender := override_opt (sender e) (upd_sender u);
     subject := override_opt (subject e) (upd_subject u);
     body := override_opt (body e) (upd_body u);
     received_at := override (received_at e) (upd_received_at u);
     priority := override (priority e) (upd_priority u);
     sentiment := override (sentiment e) (upd_sentiment u);
     status := override (status e) (upd_status u);
     category := override (category e) (upd_category u) |}.

(** The value of a property read [a[key]]. *)
Inductive js_value : Type :=
  | VUndefined
  | VNum (n : Z)
  | VStr (s : string).

Definition of_text (o : option string) : js_value :=
  match o with
  | Some s => VStr s
  | None => VUndefined
  end.

(** [email[key]], with the timestamp stored under [stamp]. *)
Definition get (stamp : string) (e : email) (key : string) : js_value :=
  if String.eqb key "id" then VNum (id e)
  else if String.eqb key "sender" then of_text (sender e)
  else if String.eqb key "subject" then of_text (subject e)
  else if String.eqb key "body" then of_text (body e)
  else if String.eqb key stamp then VNum (received_at e)
  else if String.eqb key "priority" then VStr (priority e)
  else if String.eqb key "sentiment" then VStr (sentiment e)
  else if String.eqb key "status" then VStr (status e)
  else if String.eqb key "category" then VStr (category e)
  else VUndefined.

(** [new Date(v)] of a stored instant; a missing value gives an invalid
    date, which compares like [undefined]. *)
Definition new_Date (v : js_value) : js_value :=
  match v with
  | VNum n => VNum n
  | _ => VUndefined
  end.

(** [a < b] on property values: numbers and dates by value, strings by
    code units; a comparison with [undefined] is false.  The fields of a
    record have one type each, so a string never meets a number. *)
Definition lt (a b : js_value) : bool :=
  match a, b with
  | VNum x, VNum y => x <? y
  | VStr x, VStr y => String.ltb x y
  | _, _ => false
  end.

Definition gt (a b : js_value) : bool := lt b a.

(** [typeof v === 'string' ? v.toLowerCase() : v] *)
Definition lower_if_string (v : js_value) : js_value :=
  match v with
  | VStr s => VStr (JsString.toLowerCase s)
  | _ => v
  end.

End Email.

(** ** The [EmailManagement] component: filtering and sorting *)

Module EmailManagement.
Import JsString JsDate.

(** [selectedFilters] *)
Record selectedFilters : Type := mkSelected {
  category : string;
  priority : string;
  status : string;
  sentiment : string;
  date : string
}.

(** [field && field.toLowerCase().includes(searchLower)] *)
Definition field_matches (field : option string) (searchLower : string) : bool :=
  truthy field && includes (toLowerCase (default "" field)) searchLower.

(** The date filter of [filterAndSortEmails]: [now] is the instant
    [new Date()] reads, [emailDate] the record's [sent_date]. *)
Definition matchesDate (tz : zone) (now : Z) (dateFilter : string) (emailDate : Z)
    : bool :=
  if String.eqb dateFilter "all" then true
  else
    let today := setHours0 tz now in
    let yesterday := setDate tz today (getDate tz today - 1) in
    let last7Days := setDate tz today (getDate tz today - 7) in
    let last30Days := setDate tz today (getDate tz today - 30) in
    let thisMonthStart := newDate tz (getFullYear tz today) (getMonth tz today) 1 in
    let lastMonthStart := newDate tz (getFullYear tz today) (getMonth tz today - 1) 1 in
    let lastMonthEnd := newDate tz (getFullYear tz today) (getMonth tz today) 0 in
    if String.eqb dateFilter "today" then today <=? emailDate
    else if String.eqb dateFilter "yesterday" then
      (yesterday <=? emailDate) && (emailDate <? today)
    else if String.eqb dateFilter "last7days" then last7Days <=? emailDate
    else if String.eqb dateFilter "last30days" then last30Days <=? emailDate
    else if String.eqb dateFilter "thisMonth" then thisMonthStart <=? emailDate
    else if String.eqb dateFilter "lastMonth" then
      (lastMonthStart <=? emailDate) && (emailDate <=? lastMonthEnd)
    else true.

Definition matches (tz : zone) (now : Z) (searchQuery : string) (f : selectedFilters)
    (e : Email.email) : bool :=
  let searchLower := toLowerCase searchQuery in
  let matchesSearch :=
    String.eqb searchQuery ""
    || field_matches (Email.subject e) searchLower
    || field_matches (Email.body e) searchLower
    || field_matches (Email.sender e) searchLower in
  let matchesCategory :=
    String.eqb (category f) "all" || String.eqb (Email.category e) (category f) in
  let matchesPriority :=
    String.eqb (priority f) "all" || String.eqb (Email.priority e) (priority f) in
  let matchesStatus :=
    String.eqb (status f) "all" || String.eqb (Email.status e) (status f) in
  let matchesSentiment :=
    String.eqb (sentiment f) "all" || String.eqb (Email.sentiment e) (sentiment f) in
  let matchesDate := matchesDate tz now (date f) (Email.received_at e) in
  matchesSearch && matchesCategory && matchesPriority && matchesStatus
  && matchesSentiment && matchesDate.

(** The comparator handed to [filtered.sort]. *)
Definition compare (sortBy sortOrder : string) (a b : Email.email) : Z :=
  let valueA := Email.get "sent_date" a sortBy in
  let valueB := Email.get "sent_date" b sortBy in
  let valueA := if String.eqb sortBy "sent_date" then Email.new_Date valueA else valueA in
  let valueB := if String.eqb sortBy "sent_date" then Email.new_Date valueB else valueB in
  let valueA := Email.lower_if_string valueA in
  let valueB := Email.lower_if_string valueB in
  if Email.lt valueA valueB then (if String.eqb sortOrder "asc" then -1 else 1)
  else if Email.gt valueA valueB then (if String.eqb sortOrder "asc" then 1 else -1)
  else 0.

Definition filterAndSortEmails (tz : zone) (now : Z) (emails : list Email.email)
    (searchQuery : string) (f : selectedFilters) (sortBy sortOrder : string)
    : list Email.email :=
  let filtered := List.filter (matches tz now searchQuery f) emails in
  JsArray.sort (compare sortBy sortOrder) filtered.

(** [loadEmails] fills the labels the server left out. *)
Definition or_else (given : string) (computed : string) : string :=
  if String.eqb given "" then computed else given.

Definition processEmail (e : Email.email) (index : Z) : Email.email :=
  {| Email.id := if Email.id e =? 0 then index else Email.id e;
     Email.sender := Email.sender e;
     Email.subject := Email.subject e;
     Email.body := Email.body e;
     Email.received_at := Email.received_at e;
     Email.priority := or_else (Email.priority e) (Classifier.getPriority (Email.subject e));
     Email.sentiment := or_else (Email.sentiment e) (Classifier.getSentiment (Email.body e));
     Email.status := or_else (Email.status e) "pending";
     Email.category :=
       or_else (Email.category e)
               (Classifier.getCategory (Email.subject e) (Email.body e)) |}.

Fixpoint processEmails_from (index : Z) (emails : list Email.email) : list Email.email :=
  match emails with
  | [] => []
  | e :: rest => processEmail e index :: processEmails_from (index + 1) rest
  end.

(** [response.emails.map((email, index) => ...)] *)
Definition processEmails (emails : list Email.email) : list Email.email :=
  processEmails_from 0 emails.

End EmailManagement.

(** ** The remote boundary: [services/api.js] *)

Module Api.

Inductive http : Type := GET | POST | PUT.

(** The argument values the hook passes to a member of [emailAPI]. *)
Inductive arg : Type :=
  | AId (emailId : Z)
  | AUpdates (updateData : Email.updates).

Record request : Type := mkRequest {
  verb : http;
  path : string;
  args : list arg
}.

(** [response.data] of a resolved request; [emails] may be missing. *)
Record response : Type := mkResponse {
  data_emails : option (list Email.email)
}.

Inductive js_error : Type :=
  | TypeError (message : string)
  | RequestError (message : string).

Definition message (err : js_error) : string :=
  match err with
  | TypeError m => m
  | RequestError m => m
  end.

(** [err.message || fallback] *)
Definition message_or (err : js_error) (fallback : string) : string :=
  if String.eqb (message err) "" then fallback else message err.

Inductive api_result : Type :=
  | Resolved (data : response)
  | Rejected (err : js_error).

(** The members of the [emailAPI] object, each with the request it
    sends. *)
Definition emailAPI : list (string * (http * string)) :=
  [ ("getEmails", (GET, "/emails/"));
    ("getEmail", (GET, "/emails/"));
    ("getUrgentEmails", (GET, "/emails/"));
    ("getTodayEmails", (GET, "/emails/fetch/advanced"));
    ("getPriorityQueue", (GET, "/emails/"));
    ("sendResponse", (POST, "/emails/:id/generate-context-aware-response"));
    ("updateResponse", (PUT, "/emails/:id"));
    ("updateEmail", (PUT, "/emails/:id"));
    ("bulkUpdateEmails", (POST, "/emails/bulk-update"));
    ("refreshEmails", (GET, "/emails/fetch")) ].

(** Property lookup [emailAPI[name]]; [None] is [undefined]. *)
Fixpoint lookup_member (name : string) (members : list (string * (http * string)))
    : option (http * string) :=
  match members with
  | [] => None
  | (n, m) :: rest => if String.eqb n name then Some m else lookup_member name rest
  end.

End Api.

(** ** The [useEmails] hook *)

Module UseEmails.
Import JsString JsDate Api.

(** [filters] *)
Record filters_t : Type := mkFilters {
  search : string;
  priority : string;
  sentiment : string;
  status : string;
  category : string;
  dateRange : string
}.

(** A partial [filters] object, the argument of [updateFilters]. *)
Record newFilters_t : Type := mkNewFilters {
  new_search : option string;
  new_priority : option string;
  new_sentiment : option string;
  new_status : option string;
  new_category : option string;
  new_dateRange : option string
}.

(** [{ ...prev, ...newFilters }] *)
Definition merge_filters (prev : filters_t) (n : newFilters_t) : filters_t :=
  {| search := Email.override (search prev) (new_search n);
     priority := Email.override (priority prev) (new_priority n);
     sentiment := Email.override (sentiment prev) (new_sentiment n);
     status := Email.override (status prev) (new_status n);
     category := Email.override (category prev) (new_category n);
     dateRange := Email.override (dateRange prev) (new_dateRange n) |}.

(** The state cells of the hook, one field per [useState]. *)
Record state : Type := mkState {
  emails : list Email.email;
  filteredEmails : list Email.email;
  loading : bool;
  error : option string;
  refreshing : bool;
  filters : filters_t;
  sortBy : string;
  sortOrder : string;
  viewMode : string;
  currentPage : Z;
  pageSize : Z;
  totalEmails : Z;
  selectedEmails : list Z;
  selectAll : bool;
  emailCache : gmap Z Email.email;
  lastFetch : option Z
}.

Definition initial : state :=
  {| emails := [];
     filteredEmails := [];
     loading := true;
     error := None;
     refreshing := false;
     filters := mkFilters "" "all" "all" "all" "all" "all";
     sortBy := "received_at";
     sortOrder := "desc";
     viewMode := "list";
     currentPage := 1;
     pageSize := 20;
     totalEmails := 0;
     selectedEmails := [];
     selectAll := false;
     emailCache := ∅;
     lastFetch := None |}.

Definition CACHE_DURATION : Z := 5 * 60 * 1000.

(** *** The world of an asynchronous operation

    [clock] is what [Date.now()] and [new Date()] read, [tza] the time
    zone of the host, [remote] the answer of the remote boundary to a
    request given the requests made before it, and [log] the requests
    made so far, each with the hook state at the time of the call. *)
Record world : Type := mkWorld {
  hook : state;
  clock : Z;
  tza : zone;
  remote : list request -> request -> api_result;
  log : list (request * state)
}.

Inductive outcome (A : Type) : Type :=
  | Returned (a : A)
  | Thrown (err : js_error).
Arguments Returned {A} a.
Arguments Thrown {A} err.

Definition M (A : Type) : Type := world -> outcome A * world.

#[global] Instance M_ret : MRet M := fun A a w => (Returned a, w).

#[global] Instance M_bind : MBind M := fun A B f m w =>
  match m w with
  | (Returned a, w') => f a w'
  | (Thrown err, w') => (Thrown err, w')
  end.

Definition throw {A : Type} (err : js_error) : M A := fun w => (Thrown err, w).

(** [try { body } catch (err) { handler err }] *)
Definition try_catch {A : Type} (body : M A) (handler : js_error -> M A) : M A :=
  fun w =>
    match body w with
    | (Returned a, w') => (Returned a, w')
    | (Thrown err, w') => handler err w'
    end.

(** [try { body } finally { final }] *)
Definition try_finally {A : Type} (body : M A) (final : M unit) : M A :=
  fun w =>
    let '(r, w') := body w in
    match final w' with
    | (Returned _, w'') => (r, w'')
    | (Thrown err, w'') => (Thrown err, w'')
    end.

Definition get_state : M state := fun w => (Returned (hook w), w).

Definition modify (f : state -> state) : M unit :=
  fun w => (Returned tt, mkWorld (f (hook w)) (clock w) (tza w) (remote w) (log w)).

Definition Date_now : M Z := fun w => (Returned (clock w), w).
Definition timezone : M zone := fun w => (Returned (tza w), w).

(** Sending a request: it is logged with the state the hook has at that
    moment, and the remote boundary resolves or rejects it. *)
Definition send (r : request) : M response :=
  fun w =>
    let w' := mkWorld (hook w) (clock w) (tza w) (remote w) (log w ++ [(r, hook w)])%list in
    match remote w (List.map fst (log w)) r with
    | Resolved data => (Returned data, w')
    | Rejected err => (Thrown err, w')
    end.

(** [emailAPI[name](...args)]: calling a member the object does not
    have throws a [TypeError] before anything is sent. *)
Definition call_emailAPI (name : string) (args : list arg) : M response :=
  match lookup_member name emailAPI with
  | Some (verb, path) => send (mkRequest verb path args)
  | None => throw (TypeError ("emailAPI." ++ name ++ " is not a function"))
  end.

(** *** State setters *)

Definition setEmails_with (f : list Email.email -> list Email.email) : M unit :=
  modify (fun s => mkState (f (emails s)) (filteredEmails s) (loading s) (error s)
    (refreshing s) (filters s) (sortBy s) (sortOrder s) (viewMode s) (currentPage s)
    (pageSize s) (totalEmails s) (selectedEmails s) (selectAll s) (emailCache s) (lastFetch s)).
Definition setEmails (v : list Email.email) : M unit := setEmails_with (fun _ => v).

Definition setFilteredEmails_with (f : list Email.email -> list Email.email) : M unit :=
  modify (fun s => mkState (emails s) (f (filteredEmails s)) (loading s) (error s)
    (refreshing s) (filters s) (sortBy s) (sortOrder s) (viewMode s) (currentPage s)
    (pageSize s) (totalEmails s) (selectedEmails s) (selectAll s) (emailCache s) (lastFetch s)).
Definition setFilteredEmails (v : list Email.email) : M unit :=
  setFilteredEmails_with (fun _ => v).

Definition setLoading (v : bool) : M unit :=
  modify (fun s => mkState (emails s) (filteredEmails s) v (error s)
    (refreshing s) (filters s) (sortBy s) (sortOrder s) (viewMode s) (currentPage s)
    (pageSize s) (totalEmails s) (selectedEmails s) (selectAll s) (emailCache s) (lastFetch s)).

Definition setError (v : option string) : M unit :=
  modify (fun s => mkState (emails s) (filteredEmails s) (loading s) v
    (refreshing s) (filters s) (sortBy s) (sortOrder s) (viewMode s) (currentPage s)
    (pageSize s) (totalEmails s) (selectedEmails s) (selectAll s) (emailCache s) (lastFetch s)).

Definition setRefreshing (v : bool) : M unit :=
  modify (fun s => mkState (emails s) (filteredEmails s) (loading s) (error s)
    v (filters s) (sortBy s) (sortOrder s) (viewMode s) (currentPage s)
    (pageSize s) (totalEmails s) (selectedEmails s) (selectAll s) (emailCache s) (lastFetch s)).

Definition setFilters_with (f : filters_t -> filters_t) : M unit :=
  modify (fun s => mkState (emails s) (filteredEmails s) (loading s) (error s)
    (refreshing s) (f (filters s)) (sortBy s) (sortOrder s) (viewMode s) (currentPage s)
    (pageSize s) (totalEmails s) (selectedEmails s) (selectAll s) (emailCache s) (lastFetch s)).

Definition setSortBy (v : string) : M unit :=
  modify (fun s => mkState (emails s) (filteredEmails s) (loading s) (error s)
    (refreshing s) (filters s) v (sortOrder s) (viewMode s) (currentPage s)
    (pageSize s) (totalEmails s) (selectedEmails s) (selectAll s) (emailCache s) (lastFetch s)).

Definition setSortOrder (v : string) : M unit :=
  modify (fun s => mkState (emails s) (filteredEmails s) (loading s) (error s)
    (refreshing s) (filters s) (sortBy s) v (viewMode s) (currentPage s)
    (pageSize s) (totalEmails s) (selectedEmails s) (selectAll s) (emailCache s) (lastFetch s)).

Definition setCurrentPage (v : Z) : M unit :=
  modify (fun s => mkState (emails s) (filteredEmails s) (loading s) (error s)
    (refreshing s) (filters s) (sortBy s) (sortOrder s) (viewMode s) v
    (pageSize s) (totalEmails s) (selectedEmails s) (selectAll s) (emailCache s) (lastFetch s)).

Definition setPageSize (v : Z) : M unit :=
  modify (fun s => mkState (emails s) (filteredEmails s) (loading s) (error s)
    (refreshing s) (filters s) (sortBy s) (sortOrder s) (viewMode s) (currentPage s)
    v (totalEmails s) (selectedEmails s) (selectAll s) (emailCache s) (lastFetch s)).

Definition setTotalEmails (v : Z) : M unit :=
  modify (fun s => mkState (emails s) (filteredEmails s) (loading s) (error s)
    (refreshing s) (filters s) (sortBy s) (sortOrder s) (viewMode s) (currentPage s)
    (pageSize s) v (selectedEmails s) (selectAll s) (emailCache s) (lastFetch s)).

Definition setSelectedEmails_with (f : list Z -> list Z) : M unit :=
  modify (fun s => mkState (emails s) (filteredEmails s) (loading s) (error s)
    (refreshing s) (filters s) (sortBy s) (sortOrder s) (viewMode s) (currentPage s)
    (pageSize s) (totalEmails s) (f (selectedEmails s)) (selectAll s) (emailCache s) (lastFetch s)).
Definition setSelectedEmails (v : list Z) : M unit := setSelectedEmails_with (fun _ => v).

Definition setSelectAll (v : bool) : M unit :=
  modify (fun s => mkState (emails s) (filteredEmails s) (loading s) (error s)
    (refreshing s) (filters s) (sortBy s) (sortOrder s) (viewMode s) (currentPage s)
    (pageSize s) (totalEmails s) (selectedEmails s) v (emailCache s) (lastFetch s)).

Definition setEmailCache_with (f : gmap Z Email.email -> gmap Z Email.email) : M unit :=
  modify (fun s => mkState (emails s) (filteredEmails s) (loading s) (error s)
    (refreshing s) (filters s) (sortBy s) (sortOrder s) (viewMode s) (currentPage s)
    (pageSize s) (totalEmails s) (selectedEmails s) (selectAll s) (f (emailCache s)) (lastFetch s)).
Definition setEmailCache (v : gmap Z Email.email) : M unit := setEmailCache_with (fun _ => v).

Definition setLastFetch (v : option Z) : M unit :=
  modify (fun s => mkState (emails s) (filteredEmails s) (loading s) (error s)
    (refreshing s) (filters s) (sortBy s) (sortOrder s) (viewMode s) (currentPage s)
    (pageSize s) (totalEmails s) (selectedEmails s) (selectAll s) (emailCache s) v).

(** *** Loading *)

(** Truthiness of [lastFetch]: [null] and [0] are falsy. *)
Definition truthy_num (o : option Z) : bool :=
  match o with
  | Some n => negb (n =? 0)
  | None => false
  end.

(** [emailList.forEach(email => newCache.set(email.id, email))] *)
Definition cache_of (emailList : list Email.email) : gmap Z Email.email :=
  fold_left (fun newCache email => <[Email.id email := email]> newCache) emailList ∅.

Definition loadEmails (forceRefresh : bool) : M unit :=
  try_finally
    (try_catch
       (setError None;;
        now ← Date_now;
        st ← get_state;
        if negb forceRefresh && truthy_num (lastFetch st)
           && (now - default 0 (lastFetch st) <? CACHE_DURATION)
        then mret tt
        else
          setLoading true;;
          response ← call_emailAPI "getEmails" [];
          let emailList := default [] (data_emails response) in
          setEmails emailList;;
          setTotalEmails (Z.of_nat (length emailList));;
          setLastFetch (Some now);;
          setEmailCache (cache_of emailList))
       (fun err => setError (Some (message_or err "Failed to load emails"))))
    (setLoading false).

Definition refreshEmails : M unit :=
  setRefreshing true;;
  loadEmails true;;
  setRefreshing false.

(** *** Filtering and sorting *)

(** [field?.toLowerCase().includes(searchLower)] *)
Definition field_includes (field : option string) (searchLower : string) : bool :=
  match field with
  | Some s => includes (toLowerCase s) searchLower
  | None => false
  end.

Definition date_filter (tz : zone) (now : Z) (dateRange : string)
    (filtered : list Email.email) : list Email.email :=
  if String.eqb dateRange "today" then
    List.filter (fun email => sameDateString tz (Email.received_at email) now) filtered
  else if String.eqb dateRange "week" then
    let weekAgo := now - 7 * 24 * 60 * 60 * 1000 in
    List.filter (fun email => weekAgo <=? Email.received_at email) filtered
  else if String.eqb dateRange "month" then
    let monthAgo := now - 30 * 24 * 60 * 60 * 1000 in
    List.filter (fun email => monthAgo <=? Email.received_at email) filtered
  else filtered.

(** The comparator handed to [filtered.sort]. *)
Definition compare (sortBy sortOrder : string) (a b : Email.email) : Z :=
  let aValue := Email.get "received_at" a sortBy in
  let bValue := Email.get "received_at" b sortBy in
  let aValue := if String.eqb sortBy "received_at" then Email.new_Date aValue else aValue in
  let bValue := if String.eqb sortBy "received_at" then Email.new_Date bValue else bValue in
  if String.eqb sortOrder "asc" then
    (if Email.gt aValue bValue then 1 else -1)
  else
    (if Email.lt aValue bValue then 1 else -1).

Definition filtered_and_sorted (tz : zone) (now : Z) (st : state) : list Email.email :=
  let f := filters st in
  let filtered := emails st in
  let filtered :=
    if negb (String.eqb (search f) "") then
      let searchLower := toLowerCase (search f) in
      List.filter (fun email =>
        field_includes (Email.subject email) searchLower
        || field_includes (Email.sender email) searchLower
        || field_includes (Email.body email) searchLower) filtered
    else filtered in
  let filtered :=
    if negb (String.eqb (priority f) "all") then
      List.filter (fun email => String.eqb (Email.priority email) (priority f)) filtered
    else filtered in
  let filtered :=
    if negb (String.eqb (sentiment f) "all") then
      List.filter (fun email => String.eqb (Email.sentiment email) (sentiment f)) filtered
    else filtered in
  let filtered :=
    if negb (String.eqb (status f) "all") then
      List.filter (fun email => String.eqb (Email.status email) (status f)) filtered
    else filtered in
  let filtered :=
    if negb (String.eqb (category f) "all") then
      List.filter (fun email => String.eqb (Email.category email) (category f)) filtered
    else filtered in
  let filtered :=
    if negb (String.eqb (dateRange f) "all") then date_filter tz now (dateRange f) filtered
    else filtered in
  JsArray.sort (compare (sortBy st) (sortOrder st)) filtered.

Definition applyFiltersAndSorting : M unit :=
  st ← get_state;
  now ← Date_now;
  tz ← timezone;
  let filtered := filtered_and_sorted tz now st in
  setFilteredEmails filtered;;
  setTotalEmails (Z.of_nat (length filtered));;
  setCurrentPage 1.

(** The effect [useEffect(() => applyFiltersAndSorting(), ...)] runs
    after every render in which [emails], [filters], [sortBy] or
    [sortOrder] got a new value; [rendered op] is [op] followed by that
    effect. *)
Definition rendered (op : M unit) : M unit := op;; applyFiltersAndSorting.

Definition updateFilters (newFilters : newFilters_t) : M unit :=
  setFilters_with (fun prev => merge_filters prev newFilters).

Definition updateSorting (field : string) : M unit :=
  st ← get_state;
  if String.eqb (sortBy st) field then
    setSortOrder (if String.eqb (sortOrder st) "asc" then "desc" else "asc")
  else
    setSortBy field;;
    setSortOrder "desc".

(** *** Selection *)

Definition toggleEmailSelection (emailId : Z) : M unit :=
  setSelectedEmails_with (fun prev =>
    if existsb (Z.eqb emailId) prev
    then List.filter (fun id => negb (id =? emailId)) prev
    else (prev ++ [emailId])%list).

Definition selectAllEmails (checked : bool) : M unit :=
  st ← get_state;
  if checked then
    setSelectedEmails (List.map Email.id (filteredEmails st));;
    setSelectAll true
  else
    setSelectedEmails [];;
    setSelectAll false.

(** *** Bulk operations *)

Definition bulkUpdateStatus (status : string) : M unit :=
  st ← get_state;
  if (Z.of_nat (length (selectedEmails st)) =? 0) then mret tt
  else
    try_finally
      (try_catch
         (setLoading true;;
          (* Implement bulk status update: the source only logs a line *)
          setSelectedEmails [];;
          setSelectAll false;;
          refreshEmails)
         (fun err => setError (Some (message_or err "Failed to update emails"))))
      (setLoading false).

Definition bulkDelete : M unit :=
  st ← get_state;
  if (Z.of_nat (length (selectedEmails st)) =? 0) then mret tt
  else
    try_finally
      (try_catch
         (setLoading true;;
          (* Implement bulk delete: the source only logs a line *)
          setSelectedEmails [];;
          setSelectAll false;;
          refreshEmails)
         (fun err => setError (Some (message_or err "Failed to delete emails"))))
      (setLoading false).

(** *** Single-record operations *)

Definition updateEmail (emailId : Z) (updates : Email.updates) : M unit :=
  try_catch
    (setEmails_with (List.map (fun email =>
       if Email.id email =? emailId then Email.spread email updates else email));;
     setEmailCache_with (fun prev =>
       match prev !! emailId with
       | Some email => <[emailId := Email.spread email updates]> prev
       | None => prev
       end);;
     _ ← call_emailAPI "updateEmail" [AId emailId; AUpdates updates];
     mret tt)
    (fun err => refreshEmails;; throw err).

Definition deleteEmail (emailId : Z) : M unit :=
  try_catch
    (setEmails_with (List.filter (fun email => negb (Email.id email =? emailId)));;
     setFilteredEmails_with (List.filter (fun email => negb (Email.id email =? emailId)));;
     setEmailCache_with (fun prev => delete emailId prev);;
     _ ← call_emailAPI "deleteEmail" [AId emailId];
     mret tt)
    (fun err => refreshEmails;; throw err).

(** *** Pagination *)

Definition paginatedEmails (st : state) : list Email.email :=
  let startIndex := (currentPage st - 1) * pageSize st in
  let endIndex := startIndex + pageSize st in
  JsArray.slice (filteredEmails st) startIndex endIndex.

(** [Math.ceil(a / b)] for a divisor other than 0 (JavaScript yields
    [Infinity] or [NaN] for 0, which [Z] does not have). *)
Definition Math_ceil_div (a b : Z) : Z := - ((- a) / b).

Definition totalPages (st : state) : Z := Math_ceil_div (totalEmails st) (pageSize st).

Definition goToPage (page : Z) : M unit :=
  st ← get_state;
  setCurrentPage (Z.max 1 (Z.min page (totalPages st))).

(** *** Statistics *)

Record stats_t : Type := mkStats {
  total : Z;
  urgent : Z;
  pending : Z;
  resolved : Z;
  positive : Z;
  negative : Z;
  neutral : Z;
  (** [resolved / total * 100] as the fraction [100 * resolved / total],
      numerator and denominator; [(0, 1)] when [total] is 0. *)
  resolutionRate : Z * Z
}.

Definition count (p : Email.email -> bool) (l : list Email.email) : Z :=
  Z.of_nat (length (List.filter p l)).

Definition stats (st : state) : stats_t :=
  let total := Z.of_nat (length (emails st)) in
  let urgent := count (fun email => String.eqb (Email.priority email) "urgent") (emails st) in
  let pending := count (fun email => String.eqb (Email.status email) "pending") (emails st) in
  let resolved := count (fun email => String.eqb (Email.status email) "resolved") (emails st) in
  let positive := count (fun email => String.eqb (Email.sentiment email) "positive") (emails st) in
  let negative := count (fun email => String.eqb (Email.sentiment email) "negative") (emails st) in
  let neutral := count (fun email => String.eqb (Email.sentiment email) "neutral") (emails st) in
  {| total := total;
     urgent := urgent;
     pending := pending;
     resolved := resolved;
     positive := positive;
     negative := negative;
     neutral := neutral;
     resolutionRate := if 0 <? total then (resolved * 100, total) else (0, 1) |}.

(** [getEmailById] *)
Definition getEmailById (st : state) (id : Z) : option Email.email := emailCache st !! id.

End UseEmails.

(** ** Regular expressions

    The fragment of JavaScript regular expressions the extraction
    patterns use, with the backtracking semantics of ECMAScript: a
    matcher takes the rest of the input and a continuation, alternatives
    are tried left to right, and repetition is greedy. *)

Module Regex.

Inductive regex : Type :=
  | Eps
  | Chr (c : ascii)
  | Class (p : ascii -> bool)
  | Seq (r1 r2 : regex)
  | Alt (r1 r2 : regex)
  | Star (r : regex).

(** [r?], [r+], [r{n,}] and a literal word. *)
Definition Opt (r : regex) : regex := Alt r Eps.
Definition Plus (r : regex) : regex := Seq r (Star r).

Fixpoint AtLeast (n : nat) (r : regex) : regex :=
  match n with
  | O => Star r
  | S n' => Seq r (AtLeast n' r)
  end.

Fixpoint Lit (s : string) : regex :=
  match s with
  | EmptyString => Eps
  | String c s' => Seq (Chr c) (Lit s')
  end.

Definition between (lo hi : nat) (c : ascii) : bool :=
  let n := nat_of_ascii c in ((lo <=? n) && (n <=? hi))%nat.

Definition is_digit : ascii -> bool := between 48 57.
Definition is_upper : ascii -> bool := between 65 90.
Definition is_lower : ascii -> bool := between 97 122.
Definition is_alpha (c : ascii) : bool := is_lower c || is_upper c.
(** [\s] on ASCII: tab, line feed, vertical tab, form feed, carriage
    return and space. *)
Definition is_space (c : ascii) : bool := between 9 13 c || between 32 32 c.
Definition one_of (set : string) (c : ascii) : bool :=
  existsb (Ascii.eqb c) (list_ascii_of_string set).

Definition upper_char (c : ascii) : ascii :=
  if is_lower c then ascii_of_nat (nat_of_ascii c - 32) else c.

Section Exec.

(** The [i] flag. *)
Variable ignoreCase : bool.

Definition chr_matches (c x : ascii) : bool :=
  if ignoreCase then Ascii.eqb (upper_char c) (upper_char x) else Ascii.eqb c x.

(** Under [i] a class matches a character when it holds a character of
    the same canonical form. *)
Definition class_matches (p : ascii -> bool) (x : ascii) : bool :=
  if ignoreCase then p x || p (upper_char x) || p (JsString.lower_char x) else p x.

Fixpoint exec (r : regex) : string -> (string -> option string) -> option string :=
  match r with
  | Eps => fun s k => k s
  | Chr c => fun s k =>
      match s with
      | String x s' => if chr_matches c x then k s' else None
      | EmptyString => None
      end
  | Class p => fun s k =>
      match s with
      | String x s' => if class_matches p x then k s' else None
      | EmptyString => None
      end
  | Seq r1 r2 => fun s k => exec r1 s (fun s1 => exec r2 s1 k)
  | Alt r1 r2 => fun s k =>
      match exec r1 s k with
      | Some rest => Some rest
      | None => exec r2 s k
      end
  | Star r' => fun s k =>
      (fix star (fuel : nat) (s : string) {struct fuel} : option string :=
         match fuel with
         | O => k s
         | S fuel' =>
             match exec r' s (fun s' =>
                     if (String.length s' <? String.length s)%nat
                     then star fuel' s' else None) with
             | Some rest => Some rest
             | None => k s
             end
         end) (String.length s) s
  end.

(** A match of [r] at the start of [s]: the matched text and the rest. *)
Definition match_here (r : regex) (s : string) : option (string * string) :=
  match exec r s Some with
  | Some rest =>
      Some (String.substring 0 (String.length s - String.length rest) s, rest)
  | None => None
  end.

(** The matches of a global ([g]) pattern, left to right, each search
    resuming where the last match ended (one further on after an empty
    match); [skip] counts the characters of the last match still to be
    passed. *)
Fixpoint match_all_from (r : regex) (s : string) (skip : nat) : list string :=
  match s with
  | EmptyString =>
      match skip, match_here r s with
      | O, Some (m, _) => [m]
      | _, _ => []
      end
  | String _ s' =>
      match skip with
      | S n => match_all_from r s' n
      | O =>
          match match_here r s with
          | Some (m, _) => m :: match_all_from r s' (String.length m - 1)
          | None => match_all_from r s' 0
          end
      end
  end.

(** [s.match(r) || []] for a global pattern. *)
Definition match_global (r : regex) (s : string) : list string := match_all_from r s 0.

(** [s.replace(r, '')] for a pattern anchored at the start ([^]). *)
Definition remove_prefix (r : regex) (s : string) : string :=
  match match_here r s with
  | Some (_, rest) => rest
  | None => s
  end.

End Exec.

End Regex.

(** ** Contact extraction: [extractContactInfo] *)

Module Extractor.
Import Regex.

(** [/(\+?[\d\s\-\(\)]{10,})/g] *)
Definition phoneRegex : regex :=
  Seq (Opt (Chr "+"))
      (AtLeast 10 (Class (fun c => is_digit c || is_space c || one_of "-()" c))).

(** [/([a-zA-Z0-9._%+-]+@[a-zA-Z0-9.-]+\.[a-zA-Z]{2,})/g] *)
Definition emailRegex : regex :=
  Seq (Plus (Class (fun c => is_alpha c || is_digit c || one_of "._%+-" c)))
      (Seq (Chr "@")
           (Seq (Plus (Class (fun c => is_alpha c || is_digit c || one_of ".-" c)))
                (Seq (Chr ".") (AtLeast 2 (Class is_alpha))))).

(** [(?:from|by|sent by|regards|sincerely|best regards|yours truly)[:\s]+] *)
Definition markerRegex : regex :=
  Seq (Alt (Lit "from") (Alt (Lit "by") (Alt (Lit "sent by") (Alt (Lit "regards")
        (Alt (Lit "sincerely") (Alt (Lit "best regards") (Lit "yours truly")))))))
      (Plus (Class (fun c => one_of ":" c || is_space c))).

(** The pattern of [nameRegex] (flags [gi]): the marker, then a
    capitalised word [[A-Z][a-z]+] and any number of further ones
    [\s+[A-Z][a-z]+]. *)
Definition nameRegex : regex :=
  Seq markerRegex
      (Seq (Class is_upper)
           (Seq (Plus (Class is_lower))
                (Star (Seq (Plus (Class is_space))
                           (Seq (Class is_upper) (Plus (Class is_lower))))))).

Record contactInfo : Type := mkContactInfo {
  phones : list string;
  emails : list string;
  names : list string
}.

(** [EmailCard]: phones and emails only ([names] stays empty). *)
Definition extractContactInfo_card (body : string) : contactInfo :=
  let phones := match_global false phoneRegex body in
  let emails := match_global false emailRegex body in
  {| phones := JsArray.spread_new_Set phones;
     emails := JsArray.spread_new_Set emails;
     names := [] |}.

(** [ResponseEditor] *)
Definition extractContactInfo (body : string) : contactInfo :=
  let phones := match_global false phoneRegex body in
  let emails := match_global false emailRegex body in
  let names := match_global true nameRegex body in
  {| phones := JsArray.spread_new_Set phones;
     emails := JsArray.spread_new_Set emails;
     names := List.map (remove_prefix true markerRegex) (JsArray.spread_new_Set names) |}.

End Extractor.

(** ** The sidebar of [App.js]: counts over the fetched emails *)

Module Sidebar.

Record counts : Type := mkCounts {
  totalCount : Z;
  pending : Z;
  inProgress : Z;
  resolved : Z;
  urgentCount : Z
}.

(** [e.status || 'pending'] *)
Definition status_or_pending (e : Email.email) : string :=
  if String.eqb (Email.status e) "" then "pending" else Email.status e.

Definition load (emails : list Email.email) : counts :=
  {| totalCount := Z.of_nat (length emails);
     pending := UseEmails.count (fun e => String.eqb (status_or_pending e) "pending") emails;
     inProgress := UseEmails.count (fun e => String.eqb (Email.status e) "in_progress") emails;
     resolved := UseEmails.count (fun e => String.eqb (Email.status e) "resolved") emails;
     urgentCount := UseEmails.count (fun e => String.eqb (Email.priority e) "urgent") emails |}.

End Sidebar.

(** ** A remote boundary and records for the examples *)

Module Demo.
Import Api.

(** A remote boundary that stores records: an update request puts its
    data on the record it names, and a fetch answers with the records as
    the requests before it left them. *)
Definition apply_request (stored : list Email.email) (r : request) : list Email.email :=
  match verb r, args r with
  | PUT, [AId emailId; AUpdates updateData] =>
      List.map (fun e => if Email.id e =? emailId then Email.spread e updateData else e)
        stored
  | _, _ => stored
  end.

Definition server (initial : list Email.email) (history : list request) (r : request)
    : api_result :=
  match verb r with
  | GET => Resolved (mkResponse (Some (fold_left apply_request history initial)))
  | _ => Resolved (mkResponse None)
  end.

(** A remote boundary that rejects every request. *)
Definition offline (history : list request) (r : request) : api_result :=
  Rejected (RequestError "Network Error").

(** Two time zones.  [utc] has the offset 0.  [new_york] has the offsets
    of America/New_York around 2024: five hours behind UTC, and four
    hours behind from 2024-03-10T07:00:00Z (02:00 local time, which
    becomes 03:00) to 2024-11-03T06:00:00Z (02:00 local time, which
    becomes 01:00). *)
Definition utc : JsDate.zone := JsDate.fixed 0.

Definition hour : Z := 3600000.
Definition spring_forward : Z := 1710054000000.
Definition fall_back : Z := 1730613600000.

Definition new_york : JsDate.zone :=
  JsDate.mkZone
    (fun t =>
       if (spring_forward <=? t) && (t <? fall_back) then -4 * hour else -5 * hour)
    (fun t =>
       if (spring_forward - 4 * hour <=? t) && (t <? fall_back - 4 * hour)
       then -4 * hour else -5 * hour).

(** 2024-03-15T10:00:00Z, 2024-03-15T00:00:01Z and 2024-03-14T23:59:59Z. *)
Definition now : Z := 1710496800000.
Definition just_after_midnight : Z := 1710460801000.
Definition just_before_midnight : Z := 1710460799000.

Definition email1 : Email.email :=
  Email.mkEmail 1 (Some "ann@example.com") (Some "Invoice question")
    (Some "I was charged twice, please refund") just_after_midnight
    "medium" "neutral" "pending" "billing".

Definition email2 : Email.email :=
  Email.mkEmail 2 (Some "bob@example.com") (Some "URGENT: system access blocked")
    (Some "I cannot log in") just_after_midnight
    "high" "negative" "pending" "account".

Definition set_status (status : string) : Email.updates :=
  Email.mkUpdates None None None None None None None (Some status) None.

(** The hook holding [emails], with the ids [selected] ticked. *)
Definition state_with (emails : list Email.email) (selected : list Z) : UseEmails.state :=
  UseEmails.mkState emails emails false None false
    (UseEmails.mkFilters "" "all" "all" "all" "all" "all") "received_at" "desc" "list"
    1 20 (Z.of_nat (length emails)) selected false (UseEmails.cache_of emails) (Some now).

Definition world_with (st : UseEmails.state)
    (remote : list request -> request -> api_result) : UseEmails.world :=
  UseEmails.mkWorld st now utc remote [].

End Demo.

(** ** Vocabulary of the specification *)

Module Spec.

(** [needle] occurs in [s] as a substring. *)
Definition substring_of (needle s : string) : Prop :=
  exists pre post : string, s = pre ++ needle ++ post.

(** The capital and the small letters, position by position. *)
Definition capitals : string := "ABCDEFGHIJKLMNOPQRSTUVWXYZ".
Definition smalls : string := "abcdefghijklmnopqrstuvwxyz".

(** [u] and [l] stand at the same position of two alphabets. *)
Fixpoint letter_pair (upper lower : string) (u l : ascii) : bool :=
  match upper, lower with
  | String a upper', String b lower' =>
      (Ascii.eqb u a && Ascii.eqb l b) || letter_pair upper' lower' u l
  | _, _ => false
  end.

(** Two characters are the same up to letter case: they are equal, or
    one is the capital and the other the small form of one letter. *)
Definition same_letter (a b : ascii) : bool :=
  Ascii.eqb a b || letter_pair capitals smalls a b || letter_pair capitals smalls b a.

(** Two texts are the same up to letter case: they have the same length
    and, position by position, the same characters up to letter case. *)
Fixpoint same_text (s t : string) : bool :=
  match s, t with
  | EmptyString, EmptyString => true
  | String a s', String b t' => same_letter a b && same_text s' t'
  | _, _ => false
  end.

(** A character that is no capital letter, and a word without one. *)
Definition no_capital (c : ascii) : bool :=
  negb (existsb (Ascii.eqb c) (list_ascii_of_string capitals)).

Definition small_word (keyword : string) : bool :=
  forallb no_capital (list_ascii_of_string keyword).

(** [keyword] occurs in [text] up to letter case: some substring of
    [text] is the keyword up to letter case. *)
Definition contains_ci (text keyword : string) : Prop :=
  exists pre mid post : string,
    text = pre ++ mid ++ post /\ same_text mid keyword = true.

Definition contains_any (text : string) (lexicon : list string) : Prop :=
  exists keyword, In keyword lexicon /\ contains_ci text keyword.

Definition negative_lexicon : list string :=
  ["error"; "issue"; "problem"; "cannot"; "failed"].

Definition positive_lexicon : list string :=
  ["thank"; "appreciate"; "great"; "good"].

(** The text of a possibly absent body. *)
Definition text_of (body : option string) : string := default "" body.

(** The request [emailAPI.getEmails()] sends, and the one
    [emailAPI.updateEmail(emailId, updates)] sends. *)
Definition getEmails_request : Api.request := Api.mkRequest Api.GET "/emails/" [].

Definition updateEmail_request (emailId : Z) (updates : Email.updates) : Api.request :=
  Api.mkRequest Api.PUT "/emails/:id" [Api.AId emailId; Api.AUpdates updates].

(** The answer of the remote boundary to the next request of a world. *)
Definition answer (w : UseEmails.world) (r : Api.request) : Api.api_result :=
  UseEmails.remote w (List.map fst (UseEmails.log w)) r.

(** A load reaches the remote fetch: it is forced, or nothing was ever
    fetched, or the last fetch is at least the cache duration old. *)
Definition load_fetches (forceRefresh : bool) (w : UseEmails.world) : Prop :=
  forceRefresh = true
  \/ UseEmails.lastFetch (UseEmails.hook w) = None
  \/ UseEmails.lastFetch (UseEmails.hook w) = Some 0
  \/ exists t, UseEmails.lastFetch (UseEmails.hook w) = Some t
               /\ UseEmails.CACHE_DURATION <= UseEmails.clock w - t.

(** The hook state with the snapshot, the filtered view and the cache
    replaced. *)
Definition with_store (st : UseEmails.state) (emails filtered : list Email.email)
    (cache : gmap Z Email.email) : UseEmails.state :=
  UseEmails.mkState emails filtered (UseEmails.loading st)
    (UseEmails.error st) (UseEmails.refreshing st) (UseEmails.filters st)
    (UseEmails.sortBy st) (UseEmails.sortOrder st) (UseEmails.viewMode st)
    (UseEmails.currentPage st) (UseEmails.pageSize st) (UseEmails.totalEmails st)
    (UseEmails.selectedEmails st) (UseEmails.selectAll st) cache (UseEmails.lastFetch st).

(** The world with another hook state, and with one more logged request. *)
Definition with_hook (w : UseEmails.world) (st : UseEmails.state) : UseEmails.world :=
  UseEmails.mkWorld st (UseEmails.clock w) (UseEmails.tza w) (UseEmails.remote w)
    (UseEmails.log w).

Definition logged (w : UseEmails.world) (r : Api.request) : UseEmails.world :=
  UseEmails.mkWorld (UseEmails.hook w) (UseEmails.clock w) (UseEmails.tza w)
    (UseEmails.remote w) (UseEmails.log w ++ [(r, UseEmails.hook w)])%list.

(** The store with [updates] put on the record [emailId]: on its entry
    of the snapshot and on its cache entry. *)
Definition patch_store (emailId : Z) (updates : Email.updates) (st : UseEmails.state)
    : UseEmails.state :=
  with_store st
    (List.map (fun email =>
       if Email.id email =? emailId then Email.spread email updates else email)
       (UseEmails.emails st))
    (UseEmails.filteredEmails st)
    (match UseEmails.emailCache st !! emailId with
     | Some email => <[emailId := Email.spread email updates]> (UseEmails.emailCache st)
     | None => UseEmails.emailCache st
     end).

(** A field after a patch: the value of the patch when the patch sets
    the field, and the value it had otherwise. *)
Definition field_patched {A : Type} (before : A) (patch : option A) (after : A) : Prop :=
  (forall v, patch = Some v -> after = v) /\ (patch = None -> after = before).

Definition text_patched (before patch after : option string) : Prop :=
  (forall v, patch = Some v -> after = Some v) /\ (patch = None -> after = before).

(** [after] is the record [before] with the patch [u] on it, field by
    field. *)
Definition patched_record (before : Email.email) (u : Email.updates)
    (after : Email.email) : Prop :=
  field_patched (Email.id before) (Email.upd_id u) (Email.id after)
  /\ text_patched (Email.sender before) (Email.upd_sender u) (Email.sender after)
  /\ text_patched (Email.subject before) (Email.upd_subject u) (Email.subject after)
  /\ text_patched (Email.body before) (Email.upd_body u) (Email.body after)
  /\ field_patched (Email.received_at before) (Email.upd_received_at u)
       (Email.received_at after)
  /\ field_patched (Email.priority before) (Email.upd_priority u) (Email.priority after)
  /\ field_patched (Email.sentiment before) (Email.upd_sentiment u) (Email.sentiment after)
  /\ field_patched (Email.status before) (Email.upd_status u) (Email.status after)
  /\ field_patched (Email.category before) (Email.upd_category u) (Email.category after).

(** The store without the record [emailId]: gone from the snapshot, the
    filtered view and the cache. *)
Definition remove_from_store (emailId : Z) (st : UseEmails.state) : UseEmails.state :=
  with_store st
    (List.filter (fun email => negb (Email.id email =? emailId)) (UseEmails.emails st))
    (List.filter (fun email => negb (Email.id email =? emailId))
       (UseEmails.filteredEmails st))
    (delete emailId (UseEmails.emailCache st)).

(** The sort key the hook compares: the property named by [sortBy],
    turned into a date for [received_at]. *)
Definition hook_key (sortBy : string) (e : Email.email) : Email.js_value :=
  let v := Email.get "received_at" e sortBy in
  if String.eqb sortBy "received_at" then Email.new_Date v else v.

(** *** Comparators and stable sorting *)

Section Comparators.
Context {A : Type}.

(** A consistent comparator for the values [S], as ECMAScript defines it
    for [Array.prototype.sort]: ties are reflexive, symmetric and
    transitive, and so are "before" and "after" transitive. *)
Record consistent (comparefn : A -> A -> Z) (S : A -> Prop) : Prop := mkConsistent {
  tie_refl : forall a, S a -> comparefn a a = 0;
  tie_sym : forall a b, S a -> S b -> comparefn a b = 0 -> comparefn b a = 0;
  tie_trans : forall a b c, S a -> S b -> S c ->
    comparefn a b = 0 -> comparefn b c = 0 -> comparefn a c = 0;
  before_trans : forall a b c, S a -> S b -> S c ->
    comparefn a b < 0 -> comparefn b c < 0 -> comparefn a c < 0;
  after_trans : forall a b c, S a -> S b -> S c ->
    comparefn a b > 0 -> comparefn b c > 0 -> comparefn a c > 0
}.

(** The values of [l] that compare equal to [x], in the order of [l]. *)
Definition ties (comparefn : A -> A -> Z) (x : A) (l : list A) : list A :=
  List.filter (fun y => comparefn x y =? 0) l.

(** [sorted] is [l] sorted stably: the same values, in the comparator's
    order, each group of ties in the order it has in [l]. *)
Definition stable_sort_of (comparefn : A -> A -> Z) (l sorted : list A) : Prop :=
  Permutation l sorted
  /\ StronglySorted (fun a b => comparefn a b <= 0) sorted
  /\ forall x, In x l -> ties comparefn x sorted = ties comparefn x l.

End Comparators.

(** The sort key [EmailManagement] compares: the property named by
    [sortBy], turned into a date for [sent_date] and lower-cased when it
    is a string. *)
Definition management_key (sortBy : string) (e : Email.email) : Email.js_value :=
  let v := Email.get "sent_date" e sortBy in
  Email.lower_if_string (if String.eqb sortBy "sent_date" then Email.new_Date v else v).

(** The record has the property the sort reads. *)
Definition has_key (stamp sortBy : string) (e : Email.email) : Prop :=
  Email.get stamp e sortBy <> Email.VUndefined.

(** *** Instants of the date buckets *)

(** The number of the local day an instant lies in (the days of local
    time, counted from the epoch), and its local civil date (year,
    month 1..12, day). *)
Definition local_day (tz : JsDate.zone) (t : Z) : Z :=
  (t + JsDate.offset_at tz t) / JsDate.msPerDay.

Definition local_date (tz : JsDate.zone) (t : Z) : Z * Z * Z :=
  JsDate.civil_from_days (local_day tz t).

(** The instant at which the local day number [day] starts: the instant
    the host gives to the local time 00:00 of that day. *)
Definition start_of_day (tz : JsDate.zone) (day : Z) : Z :=
  day * JsDate.msPerDay - JsDate.offset_of_local tz (day * JsDate.msPerDay).

(** The start of the local day [now] lies in. *)
Definition start_of_local_day (tz : JsDate.zone) (now : Z) : Z :=
  start_of_day tz (local_day tz now).

(** The instant at which a local civil date starts. *)
Definition local_midnight (tz : JsDate.zone) (y m d : Z) : Z :=
  start_of_day tz (JsDate.days_from_civil y m d).

(** The start of the first day of the month [now] lies in, and of the
    month before it. *)
Definition first_of_month (tz : JsDate.zone) (now : Z) : Z :=
  let '(y, m, _) := local_date tz now in local_midnight tz y m 1.

Definition first_of_previous_month (tz : JsDate.zone) (now : Z) : Z :=
  let '(y, m, _) := local_date tz now in
  if m =? 1 then local_midnight tz (y - 1) 12 1 else local_midnight tz y (m - 1) 1.

(** The start of the last day of the month before the one [now] lies
    in: the day before the first of the current month. *)
Definition last_day_of_previous_month (tz : JsDate.zone) (now : Z) : Z :=
  let '(y, m, _) := local_date tz now in
  start_of_day tz (JsDate.days_from_civil y m 1 - 1).

(** The local year of [now] is not one of the years 0..99, which
    [new Date(year, month, date)] reads as 1900 + year. *)
Definition year_as_written (tz : JsDate.zone) (now : Z) : Prop :=
  let '(y, _, _) := local_date tz now in ~ (0 <= y <= 99).

(** The current local day starts at midnight: at the instant it starts,
    the local clock reads 00:00 of that day (no change of offset skips
    this midnight). *)
Definition starts_at_midnight (tz : JsDate.zone) (now : Z) : Prop :=
  let start := start_of_local_day tz now in
  start + JsDate.offset_at tz start = local_day tz now * JsDate.msPerDay.

Section Reload.
Import UseEmails Api.

(** The hook state a refresh leaves, by the answer to its fetch. *)
Definition refreshed (st : state) (now : Z) (answer : api_result) : state :=
  match answer with
  | Resolved data =>
      let emailList := default [] (data_emails data) in
      mkState emailList (filteredEmails st) false None false (filters st) (sortBy st)
        (sortOrder st) (viewMode st) (currentPage st) (pageSize st)
        (Z.of_nat (length emailList)) (selectedEmails st) (selectAll st)
        (cache_of emailList) (Some now)
  | Rejected err =>
      mkState (emails st) (filteredEmails st) false
        (Some (message_or err "Failed to load emails")) false (filters st) (sortBy st)
        (sortOrder st) (viewMode st) (currentPage st) (pageSize st)
        (totalEmails st) (selectedEmails st) (selectAll st) (emailCache st) (lastFetch st)
  end.

(** The hook state at the moment a refresh sends its fetch. *)
Definition refreshing_state (st : state) : state :=
  mkState (emails st) (filteredEmails st) true None true (filters st) (sortBy st)
    (sortOrder st) (viewMode st) (currentPage st) (pageSize st)
    (totalEmails st) (selectedEmails st) (selectAll st) (emailCache st) (lastFetch st).

(** The hook state of a bulk operation once it has emptied the
    selection. *)
Definition deselected (st : state) : state :=
  mkState (emails st) (filteredEmails st) true (error st) (refreshing st) (filters st)
    (sortBy st) (sortOrder st) (viewMode st) (currentPage st) (pageSize st)
    (totalEmails st) [] false (emailCache st) (lastFetch st).

End Reload.

End Spec.

(** ** Further string built-ins *)

Module JsText.

(** [String.prototype.toUpperCase] on ASCII. *)
Fixpoint toUpperCase (s : string) : string :=
  match s with
  | EmptyString => EmptyString
  | String c s' => String (Regex.upper_char c) (toUpperCase s')
  end.

(** [s.split(sep)] for a separator of one character: the pieces between
    the separators, at least one piece. *)
Fixpoint split (sep : ascii) (s : string) : list string :=
  match s with
  | EmptyString => [EmptyString]
  | String c s' =>
      if Ascii.eqb c sep then EmptyString :: split sep s'
      else
        match split sep s' with
        | word :: words => String c word :: words
        | [] => [String c EmptyString]
        end
  end.

(** [word.charAt(0)]: the first character as a string, or the empty
    string. *)
Definition charAt0 (word : string) : string :=
  match word with
  | EmptyString => EmptyString
  | String c _ => String c EmptyString
  end.

(** [words.join(sep)] *)
Definition join (sep : string) (words : list string) : string := String.concat sep words.

(** [s.substring(0, n)] and [s.slice(0, n)] for a number [n]: a negative
    [n] gives the empty string. *)
Definition substring0 (s : string) (n : Z) : string := String.substring 0 (Z.to_nat n) s.

(** [s.slice(from, to)] and [s.slice(from)] for indices within the
    string. *)
Definition slice (s : string) (from to : nat) : string := String.substring from (to - from) s.
Definition slice_from (s : string) (from : nat) : string :=
  String.substring from (String.length s - from) s.

(** [s.replace(/\D/g, '')] and [s.replace(/\s+/g, '')]: the characters
    of [s] that are digits, and those that are not white space. *)
Fixpoint keep (p : ascii -> bool) (s : string) : string :=
  match s with
  | EmptyString => EmptyString
  | String c s' => if p c then String c (keep p s') else keep p s'
  end.

Definition remove_non_digits (s : string) : string := keep Regex.is_digit s.
Definition remove_spaces (s : string) : string := keep (fun c => negb (Regex.is_space c)) s.

(** [/^\d+$/.test(s)] *)
Fixpoint all_chars (p : ascii -> bool) (s : string) : bool :=
  match s with
  | EmptyString => true
  | String c s' => p c && all_chars p s'
  end.

Definition only_digits (s : string) : bool :=
  negb (String.eqb s "") && all_chars Regex.is_digit s.

(** The decimal text of an integer, as a template literal prints it. *)
Definition Number_toString (n : Z) : string :=
  DecimalString.NilZero.string_of_int (Z.to_int n).

End JsText.

(** ** The effect that keeps [selectAll] in step with the selection *)

Module SelectionEffect.
Import UseEmails.

(** [useEffect(() => { ... }, [selectedEmails, filteredEmails])] *)
Definition updateSelectAll : M unit :=
  st ← get_state;
  if Z.of_nat (length (selectedEmails st)) =? 0 then setSelectAll false
  else if Z.of_nat (length (selectedEmails st)) =? Z.of_nat (length (filteredEmails st))
  then setSelectAll true
  else mret tt.

(** The effect runs after every render in which the selection or the
    filtered view got a new value; [selection_rendered op] is [op]
    followed by the effect. *)
Definition selection_rendered (op : M unit) : M unit := op;; updateSelectAll.

End SelectionEffect.

(** ** The [EmailList] component: its own filter and sort *)

Module EmailList.
Import JsString.

(** [selectedFilters] *)
Record selectedFilters : Type := mkSelected {
  priority : string;
  sentiment : string;
  status : string;
  category : string
}.

(** The comparator handed to [filtered.sort]. *)
Definition compare (sortBy sortOrder : string) (a b : Email.email) : Z :=
  let aValue := Email.get "received_at" a sortBy in
  let bValue := Email.get "received_at" b sortBy in
  let aValue := if String.eqb sortBy "received_at" then Email.new_Date aValue else aValue in
  let bValue := if String.eqb sortBy "received_at" then Email.new_Date bValue else bValue in
  if String.eqb sortOrder "asc" then
    (if Email.gt aValue bValue then 1 else -1)
  else
    (if Email.lt aValue bValue then 1 else -1).

Definition filterAndSortEmails (emails : list Email.email) (searchQuery : string)
    (f : selectedFilters) (sortBy sortOrder : string) : list Email.email :=
  let filtered := emails in
  let filtered :=
    if negb (String.eqb searchQuery "") then
      List.filter (fun email =>
        UseEmails.field_includes (Email.subject email) (toLowerCase searchQuery)
        || UseEmails.field_includes (Email.sender email) (toLowerCase searchQuery)
        || UseEmails.field_includes (Email.body email) (toLowerCase searchQuery)) filtered
    else filtered in
  let filtered :=
    if negb (String.eqb (priority f) "all") then
      List.filter (fun email => String.eqb (Email.priority email) (priority f)) filtered
    else filtered in
  let filtered :=
    if negb (String.eqb (sentiment f) "all") then
      List.filter (fun email => String.eqb (Email.sentiment email) (sentiment f)) filtered
    else filtered in
  let filtered :=
    if negb (String.eqb (status f) "all") then
      List.filter (fun email => String.eqb (Email.status email) (status f)) filtered
    else filtered in
  let filtered :=
    if negb (String.eqb (category f) "all") then
      List.filter (fun email => String.eqb (Email.category email) (category f)) filtered
    else filtered in
  JsArray.sort (compare sortBy sortOrder) filtered.

End EmailList.

(** ** The [Dashboard] component: loading its data *)

Module Dashboard.
Import Api.

(** [response.data] of the dashboard endpoint: an object whose
    [email_stats] (a table of numbers) and [recent_emails] may be
    missing. *)
Record dashboardData : Type := mkDashboardData {
  email_stats : option (list (string * Z));
  recent_emails : option (list Email.email)
}.

Inductive api_result : Type :=
  | Resolved (data : dashboardData)
  | Rejected (err : js_error).

(** The members of the [analyticsAPI] object, each with the request it
    sends. *)
Definition analyticsAPI : list (string * (http * string)) :=
  [ ("getDashboardStats", (GET, "/analytics/dashboard"));
    ("getSentimentAnalysis", (GET, "/analytics/sentiment-analysis"));
    ("getPriorityAnalysis", (GET, "/analytics/priority-analysis"));
    ("getCategoryBreakdown", (GET, "/analytics/dashboard"));
    ("getPerformanceMetrics", (GET, "/analytics/dashboard"));
    ("getHistoricalAnalytics", (GET, "/analytics/dashboard"));
    ("getCategoryAnalysis", (GET, "/analytics/dashboard"));
    ("getTimeSeriesData", (GET, "/analytics/dashboard"));
    ("getResponseTimeMetrics", (GET, "/analytics/dashboard"));
    ("getEmailVolume", (GET, "/analytics/dashboard"));
    ("getTopKeywords", (GET, "/analytics/dashboard"));
    ("getEmailDistribution", (GET, "/analytics/dashboard")) ].

(** The state cells of the component that loading touches. *)
Record state : Type := mkState {
  stats : option (list (string * Z));
  recentEmails : list Email.email;
  loading : bool
}.

Definition initial : state :=
  {| stats := None; recentEmails := []; loading := true |}.

(** The world of an asynchronous operation of the component: its state,
    the remote boundary and the requests made so far. *)
Record world : Type := mkWorld {
  view : state;
  remote : list request -> request -> api_result;
  log : list request
}.

Definition M (A : Type) : Type := world -> UseEmails.outcome A * world.

#[global] Instance M_ret : MRet M := fun A a w => (UseEmails.Returned a, w).

#[global] Instance M_bind : MBind M := fun A B f m w =>
  match m w with
  | (UseEmails.Returned a, w') => f a w'
  | (UseEmails.Thrown err, w') => (UseEmails.Thrown err, w')
  end.

Definition throw {A : Type} (err : js_error) : M A := fun w => (UseEmails.Thrown err, w).

(** [try { body } catch (err) { handler err }] *)
Definition try_catch {A : Type} (body : M A) (handler : js_error -> M A) : M A :=
  fun w =>
    match body w with
    | (UseEmails.Returned a, w') => (UseEmails.Returned a, w')
    | (UseEmails.Thrown err, w') => handler err w'
    end.

(** [try { body } finally { final }] *)
Definition try_finally {A : Type} (body : M A) (final : M unit) : M A :=
  fun w =>
    let '(r, w') := body w in
    match final w' with
    | (UseEmails.Returned _, w'') => (r, w'')
    | (UseEmails.Thrown err, w'') => (UseEmails.Thrown err, w'')
    end.

Definition modify (f : state -> state) : M unit :=
  fun w => (UseEmails.Returned tt, mkWorld (f (view w)) (remote w) (log w)).

Definition setStats (v : option (list (string * Z))) : M unit :=
  modify (fun s => mkState v (recentEmails s) (loading s)).
Definition setRecentEmails (v : list Email.email) : M unit :=
  modify (fun s => mkState (stats s) v (loading s)).
Definition setLoading (v : bool) : M unit :=
  modify (fun s => mkState (stats s) (recentEmails s) v).

Definition send (r : request) : M dashboardData :=
  fun w =>
    let w' := mkWorld (view w) (remote w) (log w ++ [r])%list in
    match remote w (log w) r with
    | Resolved data => (UseEmails.Returned data, w')
    | Rejected err => (UseEmails.Thrown err, w')
    end.

(** [analyticsAPI[name]()]: calling a member the object does not have
    throws a [TypeError] before anything is sent. *)
Definition call_analyticsAPI (name : string) : M dashboardData :=
  match lookup_member name analyticsAPI with
  | Some (verb, path) => send (mkRequest verb path [])
  | None => throw (TypeError ("analyticsAPI." ++ name ++ " is not a function"))
  end.

Definition loadDashboardData : M unit :=
  try_finally
    (try_catch
       (setLoading true;;
        try_catch
          (dashboardData ← call_analyticsAPI "getDashboardDataFromJSON";
           setStats (email_stats dashboardData);;
           setRecentEmails (default [] (recent_emails dashboardData)))
          (fun jsonError =>
             dashboardData ← call_analyticsAPI "getDashboardStats";
             setStats (email_stats dashboardData);;
             setRecentEmails (default [] (recent_emails dashboardData))))
       (fun error => mret tt))
    (setLoading false).

(** [emailAPI.systemAPI.generateDashboardData()]: reading a property of
    the missing [emailAPI.systemAPI] throws a [TypeError]; so would
    calling the missing property of a member that is a function. *)
Definition call_emailAPI_systemAPI (name : string) : M unit :=
  match lookup_member "systemAPI" emailAPI with
  | Some _ => throw (TypeError ("emailAPI.systemAPI." ++ name ++ " is not a function"))
  | None =>
      throw (TypeError ("Cannot read properties of undefined (reading '" ++ name ++ "')"))
  end.

Definition regenerateDashboardData : M unit :=
  try_finally
    (try_catch
       (setLoading true;;
        call_emailAPI_systemAPI "generateDashboardData";;
        loadDashboardData)
       (fun error => mret tt))
    (setLoading false).

End Dashboard.

(** ** The [ResponseEditor] component: saving and sending a response *)

Module ResponseEditor.
Import Api JsText.

(** A request of [services/api.js] with the data it carries: the body
    [{ response, status }] of an update, or nothing. *)
Record call : Type := mkCall {
  verb : http;
  url : string;
  data : option (string * string)
}.

(** [emailAPI.sendResponse(emailId, responseText)] *)
Definition sendResponse (emailId : Z) (responseText : string) : call :=
  mkCall POST ("/emails/" ++ Number_toString emailId ++ "/generate-context-aware-response")
    None.

(** [emailAPI.updateResponse(emailId, responseText)] *)
Definition updateResponse (emailId : Z) (responseText : string) : call :=
  mkCall PUT ("/emails/" ++ Number_toString emailId) (Some (responseText, "responded")).

(** [extractionAPI.generateContextAwareResponse(emailId)] *)
Definition generateContextAwareResponse (emailId : Z) : call :=
  mkCall POST ("/emails/" ++ Number_toString emailId ++ "/generate-context-aware-response")
    None.

(** The state of the editor: the text being edited, the [saving] flag,
    and whether [onClose] has been called. *)
Record state : Type := mkState {
  responseText : string;
  saving : bool;
  closed : bool
}.

Definition setSaving (v : bool) (st : state) : state :=
  mkState (responseText st) v (closed st).

Definition onClose (st : state) : state := mkState (responseText st) (saving st) true.

(** A handler run: the calls made and the state left.  [resolves] tells
    whether the remote boundary resolves a call; a rejected call throws,
    and the handler catches and logs the error. *)
Definition handleSave (emailId : Z) (resolves : call -> bool) (st : state)
    : list call * state :=
  let st := setSaving true st in
  let request := updateResponse emailId (responseText st) in
  let st := if resolves request then onClose st else st in
  ([request], setSaving false st).

Definition handleSend (emailId : Z) (resolves : call -> bool) (st : state)
    : list call * state :=
  let st := setSaving true st in
  let request := sendResponse emailId (responseText st) in
  let st := if resolves request then onClose st else st in
  ([request], setSaving false st).

End ResponseEditor.

(** ** The utilities of [services/api.js] *)

Module ApiUtils.
Import JsString JsText.

(** [truncateText(text, maxLength)] *)
Definition truncateText (text : option string) (maxLength : Z) : option string :=
  match text with
  | None => None
  | Some s =>
      if String.eqb s "" || (Z.of_nat (String.length s) <=? maxLength) then Some s
      else Some (substring0 s maxLength ++ "...")
  end.

(** [formatRelativeTime(dateString)], read at the instant [now]. *)
Definition formatRelativeTime (now date : Z) : string :=
  let diffTime := Z.abs (now - date) in
  let diffDays := UseEmails.Math_ceil_div diffTime (1000 * 60 * 60 * 24) in
  if diffDays =? 1 then "Yesterday"
  else if diffDays <? 7 then Number_toString diffDays ++ " days ago"
  else if diffDays <? 30 then
    Number_toString (UseEmails.Math_ceil_div diffDays 7) ++ " weeks ago"
  else Number_toString (UseEmails.Math_ceil_div diffDays 30) ++ " months ago".

End ApiUtils.

(** ** [EmailCard]: the initials of a sender *)

Module EmailCard.
Import JsString JsText.

Definition getInitials (name : option string) : string :=
  if negb (truthy name) then "?"
  else
    substring0
      (toUpperCase (join "" (List.map charAt0 (split " " (default "" name)))))
      2.

End EmailCard.

(** ** The helper library of the front end *)

Module Helpers.
Import JsString JsText.

(** [truncateText(text, maxLength, suffix)] *)
Definition truncateText (text : option string) (maxLength : Z) (suffix : string)
    : option string :=
  match text with
  | None => None
  | Some s =>
      if String.eqb s "" || (Z.of_nat (String.length s) <=? maxLength) then Some s
      else Some (substring0 s maxLength ++ suffix)
  end.

(** [validatePhone(phone)] *)
Definition validatePhone (phone : option string) : bool :=
  if negb (truthy phone) then false
  else
    let cleanPhone := remove_spaces (default "" phone) in
    (10 <=? Z.of_nat (String.length cleanPhone)) && only_digits cleanPhone.

(** [formatPhone(phone)] *)
Definition formatPhone (phone : option string) : string :=
  if negb (truthy phone) then ""
  else
    let cleanPhone := remove_non_digits (default "" phone) in
    if Z.of_nat (String.length cleanPhone) =? 10 then
      "(" ++ slice cleanPhone 0 3 ++ ") " ++ slice cleanPhone 3 6 ++ "-"
      ++ slice_from cleanPhone 6
    else if (Z.of_nat (String.length cleanPhone) =? 11)
            && String.eqb (charAt0 cleanPhone) "1" then
      "+1 (" ++ slice cleanPhone 1 4 ++ ") " ++ slice cleanPhone 4 7 ++ "-"
      ++ slice_from cleanPhone 7
    else default "" phone.

Section Arrays.
Context {A : Type}.

(** [chunk(array, size)]: the loop [for (i = 0; i < array.length; i +=
    size)]; [fuel] bounds the number of rounds, and [None] means that
    the rounds allowed did not end the loop. *)
Fixpoint chunk_from (fuel : nat) (array : list A) (size i : Z) : option (list (list A)) :=
  if i <? Z.of_nat (length array) then
    match fuel with
    | O => None
    | S fuel' =>
        match chunk_from fuel' array size (i + size) with
        | Some chunks => Some (JsArray.slice array i (i + size) :: chunks)
        | None => None
        end
    end
  else Some [].

Definition chunk (fuel : nat) (array : list A) (size : Z) : option (list (list A)) :=
  chunk_from fuel array size 0.

(** [seen.has(value)] compares with SameValueZero. *)
Definition same_value (a b : Email.js_value) : bool :=
  match a, b with
  | Email.VUndefined, Email.VUndefined => true
  | Email.VNum x, Email.VNum y => x =? y
  | Email.VStr x, Email.VStr y => String.eqb x y
  | _, _ => false
  end.

(** [unique(array, key)] for a key that is given, that is, for a [key]
    other than the empty text (without a key the source compares the
    records themselves); [read item key] is [item[key]]. *)
Fixpoint unique_from (read : A -> string -> Email.js_value) (key : string)
    (seen : list Email.js_value) (array : list A) : list A :=
  match array with
  | [] => []
  | item :: rest =>
      let value := read item key in
      if existsb (same_value value) seen then unique_from read key seen rest
      else item :: unique_from read key (value :: seen) rest
  end.

Definition unique (read : A -> string -> Email.js_value) (array : list A) (key : string)
    : list A :=
  unique_from read key [] array.

(** [retry(fn, retries, delay)].  [fn n] is what the call number [n] of
    [fn] does (it returns or throws).  The result is what [retry] does,
    with the number of the next call of [fn] and the delays slept, in
    order; [fuel] bounds the depth of the recursion, and [None] means
    that the depth allowed did not end it. *)
Fixpoint retry (fuel : nat) (fn : nat -> UseEmails.outcome A) (n : nat) (retries delay : Z)
    : option (UseEmails.outcome A * nat * list Z) :=
  match fn n with
  | UseEmails.Returned a => Some (UseEmails.Returned a, S n, [])
  | UseEmails.Thrown error =>
      if retries =? 0 then Some (UseEmails.Thrown error, S n, [])
      else
        match fuel with
        | O => None
        | S fuel' =>
            match retry fuel' fn (S n) (retries - 1) (delay * 2) with
            | Some (result, calls, slept) => Some (result, calls, delay :: slept)
            | None => None
            end
        end
  end.

End Arrays.

End Helpers.

(** ** Vocabulary of the further properties *)

Module Terms.
Import UseEmails.

Definition high_lexicon : list string := ["urgent"; "critical"; "immediate"].
Definition medium_lexicon : list string := ["help"; "support"].

Definition account_lexicon : list string := ["login"; "password"; "account"].
Definition billing_lexicon : list string :=
  ["billing"; "payment"; "charged"; "refund"; "pricing"].
Definition technical_lexicon : list string := ["technical"; "error"; "bug"; "issue"].
Definition feature_lexicon : list string := ["feature"; "enhancement"; "suggestion"].

Definition category_keywords : list string :=
  (account_lexicon ++ billing_lexicon ++ technical_lexicon ++ feature_lexicon)%list.

(** The subject or the body holds a keyword of the lexicon. *)
Definition mentions (subject body : option string) (lexicon : list string) : Prop :=
  Spec.contains_any (Spec.text_of subject) lexicon
  \/ Spec.contains_any (Spec.text_of body) lexicon.

(** A record has all four labels. *)
Definition labelled (e : Email.email) : Prop :=
  Email.priority e <> "" /\ Email.sentiment e <> "" /\ Email.status e <> ""
  /\ Email.category e <> "".

(** The record passes the search text of the hook: the text is empty,
    or the subject, the sender or the body holds it up to letter case. *)
Definition passes_search (f : filters_t) (e : Email.email) : bool :=
  String.eqb (search f) ""
  || (let searchLower := JsString.toLowerCase (search f) in
      field_includes (Email.subject e) searchLower
      || field_includes (Email.sender e) searchLower
      || field_includes (Email.body e) searchLower).

(** The record passes a facet: the facet is [all], or the label of the
    record is the one asked for. *)
Definition passes_facet (wanted label : string) : bool :=
  String.eqb wanted "all" || String.eqb label wanted.

(** The record passes the date range of the hook. *)
Definition passes_dateRange (tz : JsDate.zone) (now : Z) (f : filters_t)
    (e : Email.email) : bool :=
  if String.eqb (dateRange f) "today" then
    JsDate.sameDateString tz (Email.received_at e) now
  else if String.eqb (dateRange f) "week" then
    now - 7 * 24 * 60 * 60 * 1000 <=? Email.received_at e
  else if String.eqb (dateRange f) "month" then
    now - 30 * 24 * 60 * 60 * 1000 <=? Email.received_at e
  else true.

(** The record passes every filter of the hook. *)
Definition passes (tz : JsDate.zone) (now : Z) (f : filters_t) (e : Email.email) : bool :=
  passes_search f e
  && passes_facet (priority f) (Email.priority e)
  && passes_facet (sentiment f) (Email.sentiment e)
  && passes_facet (status f) (Email.status e)
  && passes_facet (category f) (Email.category e)
  && passes_dateRange tz now f e.

(** The page numbers [1 .. n]. *)
Definition pages (n : Z) : list Z := List.map Z.of_nat (seq 1 (Z.to_nat n)).

(** The hook state once a load has installed the fetched list. *)
Definition loaded (st : state) (now : Z) (emailList : list Email.email) : state :=
  mkState emailList (filteredEmails st) false None (refreshing st) (filters st) (sortBy st)
    (sortOrder st) (viewMode st) (currentPage st) (pageSize st)
    (Z.of_nat (length emailList)) (selectedEmails st) (selectAll st)
    (cache_of emailList) (Some now).

(** The hook state with the error flag cleared and [loading] off. *)
Definition settled (st : state) : state :=
  mkState (emails st) (filteredEmails st) false None (refreshing st) (filters st)
    (sortBy st) (sortOrder st) (viewMode st) (currentPage st) (pageSize st)
    (totalEmails st) (selectedEmails st) (selectAll st) (emailCache st) (lastFetch st).

(** The cache holds the records of the snapshot: it is the cache a load
    would build from the snapshot. *)
Definition cache_in_step (st : state) : Prop := emailCache st = cache_of (emails st).

(** The last record of a list with the identifier [id]. *)
Definition last_with_id (id : Z) (l : list Email.email) : option Email.email :=
  List.find (fun e => Email.id e =? id) (List.rev l).

(** The geometric delays [delay], [2 delay], [4 delay], ... *)
Fixpoint backoff (n : nat) (delay : Z) : list Z :=
  match n with
  | O => []
  | S n' => delay :: backoff n' (delay * 2)
  end.

(** A keyword without a blank. *)
Definition no_blank (keyword : string) : Prop :=
  JsText.all_chars (fun c => negb (Ascii.eqb c " ")) keyword = true.

(** The characters of a text. *)
Definition chars (s : string) : list ascii := list_ascii_of_string s.

End Terms.

(* ===================================================================== *)
(** * Part II: properties                                                 *)
(* ===================================================================== *)

(** ** Strings *)

Section StringFacts.
Import JsString.
#[local] Arguments String.append !_ _ / : simpl nomatch.

Lemma prefix_spec (needle s : string) :
  String.prefix needle s = true <-> exists post, s = needle ++ post.
Proof.
  revert s. induction needle as [|c needle IH]; intros s; simpl.
  - destruct s; simpl; split; eauto.
  - destruct s as [|x s]; simpl.
    + split; [discriminate | intros [post H]; discriminate].
    + destruct (ascii_dec c x) as [->|Hne].
      * rewrite IH. split; intros [post H]; exists post; congruence.
      * split; [discriminate | intros [post H]; congruence].
Qed.

Lemma includes_spec (s needle : string) :
  includes s needle = true <-> Spec.substring_of needle s.
Proof.
  unfold Spec.substring_of. induction s as [|x s IH].
  - cbn [includes]. rewrite orb_false_r, prefix_spec. split.
    + intros [post H]. exists "", post. exact H.
    + intros [pre [post H]]. destruct pre; simpl in H.
      * eauto.
      * discriminate.
  - cbn [includes]. rewrite orb_true_iff, prefix_spec, IH. split.
    + intros [[post H] | [pre [post H]]].
      * exists "", post. exact H.
      * exists (String x pre), post. simpl. now rewrite H.
    + intros [pre [post H]]. destruct pre as [|y pre]; simpl in H.
      * left. eauto.
      * right. exists pre, post. congruence.
Qed.

Lemma toLowerCase_app (a b : string) :
  toLowerCase (a ++ b) = toLowerCase a ++ toLowerCase b.
Proof. induction a as [|x a IH]; simpl; [reflexivity | f_equal; exact IH]. Qed.

(** A split of the lower-cased text is the lower-casing of a split. *)
Lemma toLowerCase_split (s a b : string) :
  toLowerCase s = a ++ b ->
  exists s1 s2, s = s1 ++ s2 /\ toLowerCase s1 = a /\ toLowerCase s2 = b.
Proof.
  revert s. induction a as [|x a IH]; intros s H; simpl in H.
  - exists "", s. auto.
  - destruct s as [|y s]; simpl in H; [discriminate|].
    injection H as Hx Hs. destruct (IH _ Hs) as (s1 & s2 & -> & H1 & H2).
    exists (String y s1), s2. simpl. rewrite H1, Hx. auto.
Qed.

(** [toLowerCase] against the alphabets: a character and its lower-case
    form are the same up to letter case, a character that is no capital
    is its own lower-case form, and a capital has the small letter of
    its position as lower-case form. *)
Lemma same_letter_lower_char (a : ascii) : Spec.same_letter a (lower_char a) = true.
Proof. destruct a as [[] [] [] [] [] [] [] []]; reflexivity. Qed.

Lemma lower_char_no_capital (b : ascii) : Spec.no_capital b = true -> lower_char b = b.
Proof.
  destruct b as [[] [] [] [] [] [] [] []]; intros H; try reflexivity; discriminate H.
Qed.

Lemma letter_pair_lower (u l : ascii) :
  Spec.letter_pair Spec.capitals Spec.smalls u l = true ->
  lower_char u = l /\ Spec.no_capital u = false.
Proof.
  unfold Spec.capitals, Spec.smalls. cbn [Spec.letter_pair]. intros H.
  repeat (apply orb_true_iff in H; destruct H as [H|H];
          [apply andb_true_iff in H; destruct H as [Hu Hl];
           apply Ascii.eqb_eq in Hu, Hl; subst u l; split; reflexivity|]).
  discriminate H.
Qed.

(** Against a character that is no capital, being the same up to letter
    case is having it as lower-case form. *)
Lemma same_letter_spec (a b : ascii) :
  Spec.no_capital b = true -> Spec.same_letter a b = true <-> lower_char a = b.
Proof.
  intros Hb. split.
  - unfold Spec.same_letter. rewrite !orb_true_iff. intros [[H|H]|H].
    + apply Ascii.eqb_eq in H. subst a. now apply lower_char_no_capital.
    + now apply letter_pair_lower in H.
    + apply letter_pair_lower in H. destruct H as [_ H]. congruence.
  - intros <-. apply same_letter_lower_char.
Qed.

Lemma same_text_spec (mid keyword : string) :
  Spec.small_word keyword = true ->
  Spec.same_text mid keyword = true <-> toLowerCase mid = keyword.
Proof.
  revert keyword. induction mid as [|a mid IH]; intros [|b keyword] Hk; simpl.
  - tauto.
  - split; discriminate.
  - split; discriminate.
  - unfold Spec.small_word in Hk. simpl in Hk. apply andb_true_iff in Hk.
    destruct Hk as [Hb Hk].
    rewrite andb_true_iff, (same_letter_spec a b Hb), (IH keyword Hk).
    split; [intros [-> ->]; reflexivity | intros H; injection H; auto].
Qed.

(** The test the classifiers run is containment up to letter case, for
    a keyword written in small letters. *)
Lemma includes_toLowerCase (text keyword : string) :
  Spec.small_word keyword = true ->
  includes (toLowerCase text) keyword = true <-> Spec.contains_ci text keyword.
Proof.
  intros Hk. rewrite includes_spec. unfold Spec.substring_of, Spec.contains_ci. split.
  - intros (pre & post & H).
    destruct (toLowerCase_split _ _ _ H) as (s1 & s2 & -> & H1 & H2).
    destruct (toLowerCase_split _ _ _ H2) as (m & s3 & -> & H3 & H4).
    exists s1, m, s3. split; [reflexivity|]. now apply same_text_spec.
  - intros (pre & mid & post & -> & H). apply (same_text_spec _ _ Hk) in H.
    exists (toLowerCase pre), (toLowerCase post).
    now rewrite !toLowerCase_app, H.
Qed.

End StringFacts.

(** ** The sentiment classifier *)

Section SentimentFacts.
Import JsString Classifier.

Lemma contains_ci_empty (keyword : string) :
  Spec.contains_ci "" keyword -> keyword = "".
Proof.
  intros (pre & mid & post & H & Hk).
  destruct pre; [|discriminate]. destruct mid; [|discriminate].
  destruct keyword; [reflexivity | discriminate Hk].
Qed.

Lemma no_keyword_in_empty (lexicon : list string) :
  ~ In "" lexicon -> ~ Spec.contains_any "" lexicon.
Proof.
  intros Hne (keyword & Hin & Hc). apply contains_ci_empty in Hc. congruence.
Qed.

Lemma negative_test (b : string) :
  let lowerBody := toLowerCase b in
  includes lowerBody "error" || includes lowerBody "issue"
  || includes lowerBody "problem" || includes lowerBody "cannot"
  || includes lowerBody "failed" = true
  <-> Spec.contains_any b Spec.negative_lexicon.
Proof.
  cbv zeta. rewrite !orb_true_iff, !includes_toLowerCase by reflexivity.
  unfold Spec.contains_any, Spec.negative_lexicon. simpl In. split.
  - intros [[[[H|H]|H]|H]|H]; eauto 10.
  - intros (keyword & Hin & Hc).
    destruct Hin as [<-|[<-|[<-|[<-|[<-|[]]]]]]; auto.
Qed.

Lemma positive_test (b : string) :
  let lowerBody := toLowerCase b in
  includes lowerBody "thank" || includes lowerBody "appreciate"
  || includes lowerBody "great" || includes lowerBody "good" = true
  <-> Spec.contains_any b Spec.positive_lexicon.
Proof.
  cbv zeta. rewrite !orb_true_iff, !includes_toLowerCase by reflexivity.
  unfold Spec.contains_any, Spec.positive_lexicon. simpl In. split.
  - intros [[[H|H]|H]|H]; eauto 10.
  - intros (keyword & Hin & Hc).
    destruct Hin as [<-|[<-|[<-|[<-|[]]]]]; auto.
Qed.

Lemma getSentiment_absent (body : option string) :
  truthy body = false -> Spec.text_of body = "".
Proof.
  destruct body as [b|]; simpl; [|reflexivity].
  destruct (String.eqb_spec b ""); simpl; [auto | discriminate].
Qed.

Lemma getSentiment_cases (body : option string) :
  getSentiment body =
    if truthy body then
      let lowerBody := toLowerCase (Spec.text_of body) in
      if includes lowerBody "error" || includes lowerBody "issue"
         || includes lowerBody "problem" || includes lowerBody "cannot"
         || includes lowerBody "failed"
      then "negative"
      else if includes lowerBody "thank" || includes lowerBody "appreciate"
              || includes lowerBody "great" || includes lowerBody "good"
      then "positive"
      else "neutral"
    else "neutral".
Proof. unfold getSentiment. destruct (truthy body); reflexivity. Qed.

(** C3: the sentiment classifier is total and checks the negative
    lexicon first.  A body that contains a negative keyword (up to
    letter case) is [negative], whatever else it contains; otherwise a
    body that contains a positive keyword is [positive]; otherwise the
    body is [neutral], and so is an empty or absent body.  The result is
    always one of the three labels. *)
Theorem getSentiment_negative_lexicon_first (body : option string) :
  let text := Spec.text_of body in
  (Spec.contains_any text Spec.negative_lexicon ->
     getSentiment body = "negative") /\
  (~ Spec.contains_any text Spec.negative_lexicon ->
   Spec.contains_any text Spec.positive_lexicon ->
     getSentiment body = "positive") /\
  (~ Spec.contains_any text Spec.negative_lexicon ->
   ~ Spec.contains_any text Spec.positive_lexicon ->
     getSentiment body = "neutral") /\
  (body = None \/ body = Some "" -> getSentiment body = "neutral") /\
  In (getSentiment body) ["negative"; "positive"; "neutral"].
Proof.
  cbv zeta. rewrite getSentiment_cases.
  assert (Hneg : ~ In "" Spec.negative_lexicon)
    by (simpl; intuition discriminate).
  assert (Hpos : ~ In "" Spec.positive_lexicon)
    by (simpl; intuition discriminate).
  destruct (truthy body) eqn:Ht.
  - cbv zeta.
    pose proof (negative_test (Spec.text_of body)) as Tn.
    pose proof (positive_test (Spec.text_of body)) as Tp.
    cbv zeta in Tn, Tp.
    destruct (_ || includes _ "failed") eqn:En.
    + repeat split; auto.
      * intros Hn. exfalso. apply Hn, Tn. reflexivity.
      * intros Hn. exfalso. apply Hn, Tn. reflexivity.
      * intros [->| ->]; discriminate.
      * simpl; auto.
    + destruct (_ || includes _ "good") eqn:Ep.
      * repeat split; auto.
        -- intros Hn. apply Tn in Hn. discriminate.
        -- intros _ Hp. exfalso. apply Hp, Tp. reflexivity.
        -- intros [->| ->]; discriminate.
        -- simpl; auto.
      * repeat split; auto.
        -- intros Hn. apply Tn in Hn. discriminate.
        -- intros _ Hp. apply Tp in Hp. discriminate.
        -- simpl; auto.
  - rewrite (getSentiment_absent body Ht). repeat split; auto.
    + intros Hn. exfalso. exact (no_keyword_in_empty _ Hneg Hn).
    + intros _ Hp. exfalso. exact (no_keyword_in_empty _ Hpos Hp).
    + simpl; auto.
Qed.

Example getSentiment_thank_you :
  getSentiment (Some "I am extremely happy, thank you so much") = "positive".
Proof. reflexivity. Qed.

Example getSentiment_payment_failed :
  getSentiment (Some "the payment failed and I cannot access my account") = "negative".
Proof. reflexivity. Qed.

Example getSentiment_mixed_is_negative :
  getSentiment (Some "Thank you, but the ERROR is still there") = "negative".
Proof. reflexivity. Qed.

(** The classifier on bodies in mixed letter case: [ERROR] in capitals
    makes a body negative although it thanks; [GREAT] in capitals makes
    one positive; a body with no keyword is neutral. *)
Lemma getSentiment_negative_lexicon_first_mixed_case :
  Spec.contains_ci "Thank you, but the ERROR is still there" "error"
  /\ Spec.contains_ci "Thank you, but the ERROR is still there" "thank"
  /\ getSentiment (Some "Thank you, but the ERROR is still there") = "negative"
  /\ getSentiment (Some "GREAT, that was quick") = "positive"
  /\ getSentiment (Some "See you on Monday") = "neutral".
Proof.
  assert (He : Spec.contains_ci "Thank you, but the ERROR is still there" "error").
  { exists "Thank you, but the ", "ERROR", " is still there". split; reflexivity. }
  split; [exact He|]. split.
  { exists "", "Thank", " you, but the ERROR is still there". split; reflexivity. }
  split.
  { apply (proj1 (getSentiment_negative_lexicon_first
                    (Some "Thank you, but the ERROR is still there"))).
    exists "error". split; [simpl; auto | exact He]. }
  split.
  { apply (proj1 (proj2 (getSentiment_negative_lexicon_first
                           (Some "GREAT, that was quick")))).
    - intros H. apply (proj2 (negative_test _)) in H. discriminate H.
    - exists "great". split; [simpl; auto|].
      exists "", "GREAT", ", that was quick". split; reflexivity. }
  apply (proj1 (proj2 (proj2 (getSentiment_negative_lexicon_first
                                (Some "See you on Monday"))))).
  - intros H. apply (proj2 (negative_test _)) in H. discriminate H.
  - intros H. apply (proj2 (positive_test _)) in H. discriminate H.
Defined.

End SentimentFacts.

(** ** The priority classifier and the urgent count *)

Section UrgentFacts.
Import JsString Classifier.

Lemma getPriority_range (subject : option string) :
  In (getPriority subject) ["high"; "medium"; "low"].
Proof.
  unfold getPriority. simpl.
  destruct (negb (truthy subject)); auto.
  destruct (_ || includes _ "immediate"); auto.
  destruct (_ || includes _ "support"); auto.
Qed.

Lemma getPriority_not_urgent (subject : option string) :
  String.eqb (getPriority subject) "urgent" = false.
Proof.
  destruct (getPriority_range subject) as [<-|[<-|[<-|[]]]]; reflexivity.
Qed.

Lemma count_none (p : Email.email -> bool) (l : list Email.email) :
  Forall (fun e => p e = false) l -> UseEmails.count p l = 0.
Proof.
  unfold UseEmails.count. induction 1 as [|e l He Hl IH]; simpl.
  - reflexivity.
  - rewrite He. exact IH.
Qed.

(** [processEmails] gives a record that came without a priority the
    classifier's label for its subject. *)
Lemma processEmails_classifies (emails : list Email.email) :
  Forall (fun e => Email.priority e = "") emails ->
  Forall (fun e => Email.priority e = getPriority (Email.subject e))
         (EmailManagement.processEmails emails).
Proof.
  unfold EmailManagement.processEmails. generalize 0.
  induction emails as [|e l IH]; intros index H; simpl; constructor.
  - simpl. inversion H as [|? ? He Hl]; subst. rewrite He. reflexivity.
  - apply IH. inversion H; assumption.
Qed.

(** C10: when every priority of the snapshot is the keyword classifier's
    label for the record's subject, the hook's statistics and the
    sidebar both count 0 urgent records: they count the records whose
    priority is the literal [urgent], and the classifier returns only
    [high], [medium] or [low]. *)
Theorem urgent_count_of_classified_snapshot (st : UseEmails.state) :
  Forall (fun e => Email.priority e = getPriority (Email.subject e))
         (UseEmails.emails st) ->
  UseEmails.urgent (UseEmails.stats st) = 0
  /\ Sidebar.urgentCount (Sidebar.load (UseEmails.emails st)) = 0.
Proof.
  intros H.
  assert (Hc : UseEmails.count
                 (fun e => String.eqb (Email.priority e) "urgent")
                 (UseEmails.emails st) = 0).
  { apply count_none. eapply List.Forall_impl; [|exact H].
    intros e ->. apply getPriority_not_urgent. }
  split; simpl; exact Hc.
Qed.

(** The scenarios of the specification. *)
Example getPriority_urgent_subject :
  getPriority (Some "URGENT: system access blocked") = "high".
Proof. reflexivity. Qed.

Example getPriority_help_subject :
  getPriority (Some "need help logging in") = "medium".
Proof. reflexivity. Qed.

Example getPriority_absent_subject : getPriority None = "medium".
Proof. reflexivity. Qed.

Example getCategory_payment_issue :
  getCategory (Some "payment issue") (Some "I was charged twice, please refund")
  = "billing".
Proof. reflexivity. Qed.

End UrgentFacts.

(** ** Contact extraction *)

Section ExtractionFacts.
Import JsArray Extractor.

Lemma seen_spec (x : string) (seen : list string) :
  existsb (String.eqb x) seen = true <-> In x seen.
Proof.
  rewrite existsb_exists. split.
  - intros (y & Hin & Heq). apply String.eqb_eq in Heq. now subst.
  - intros Hin. exists x. split; [exact Hin | apply String.eqb_refl].
Qed.

Lemma set_values_In (seen xs : list string) (x : string) :
  In x (set_values seen xs) <-> In x xs /\ ~ In x seen.
Proof.
  revert seen. induction xs as [|y xs IH]; intros seen; simpl.
  - tauto.
  - destruct (existsb (String.eqb y) seen) eqn:E.
    + apply seen_spec in E. rewrite IH. split.
      * intros [H1 H2]. auto.
      * intros [[->|H1] H2]; [contradiction | auto].
    + assert (Hy : ~ In y seen) by (rewrite <- seen_spec, E; discriminate).
      simpl. rewrite IH. simpl. split.
      * intros [->|[H1 H2]]; auto.
      * intros [[->|H1] H2]; auto.
        destruct (string_dec y x) as [->|Hne]; auto.
        right. split; [exact H1 | intros [Heq|Hs]; auto].
Qed.

Lemma set_values_NoDup (seen xs : list string) : List.NoDup (set_values seen xs).
Proof.
  revert seen. induction xs as [|y xs IH]; intros seen; simpl.
  - constructor.
  - destruct (existsb (String.eqb y) seen) eqn:E; [apply IH|].
    constructor; [|apply IH].
    rewrite set_values_In. simpl. tauto.
Qed.

Lemma set_values_fixed (seen l : list string) :
  List.NoDup l -> (forall x, In x l -> ~ In x seen) -> set_values seen l = l.
Proof.
  intros Hnd. revert seen. induction Hnd as [|y l Hy Hnd IH]; intros seen Hdis; simpl.
  - reflexivity.
  - destruct (existsb (String.eqb y) seen) eqn:E.
    + apply seen_spec in E. exfalso. apply (Hdis y); simpl; auto.
    + f_equal. apply IH. intros x Hx [<-|Hs]; [contradiction|].
      apply (Hdis x); simpl; auto.
Qed.

(** A set holds every value of the array once, and spreading a set of
    an already duplicate-free array gives the array back. *)
Lemma spread_new_Set_In (xs : list string) (x : string) :
  In x (spread_new_Set xs) <-> In x xs.
Proof. unfold spread_new_Set. rewrite set_values_In. simpl. tauto. Qed.

Lemma spread_new_Set_NoDup (xs : list string) : List.NoDup (spread_new_Set xs).
Proof. apply set_values_NoDup. Qed.

Lemma spread_new_Set_idempotent (xs : list string) :
  spread_new_Set (spread_new_Set xs) = spread_new_Set xs.
Proof.
  unfold spread_new_Set at 1. apply set_values_fixed.
  - apply spread_new_Set_NoDup.
  - intros x _ [].
Qed.

(** C8: extraction is a function of the text alone, so two runs on the
    same text give the same result; the phone and email collections it
    returns hold no value twice, hold exactly the values the patterns
    matched, and deduplicating them again changes nothing.  This holds
    for the extraction of [EmailCard] and for that of [ResponseEditor]. *)
Theorem extractContactInfo_repeatable_and_deduplicated (body : string) :
  let first := extractContactInfo body in
  let second := extractContactInfo body in
  first = second
  /\ List.NoDup (phones first) /\ List.NoDup (emails first)
  /\ (forall x, In x (phones first) <-> In x (Regex.match_global false phoneRegex body))
  /\ (forall x, In x (emails first) <-> In x (Regex.match_global false emailRegex body))
  /\ spread_new_Set (phones first) = phones first
  /\ spread_new_Set (emails first) = emails first
  /\ phones (extractContactInfo_card body) = phones first
  /\ emails (extractContactInfo_card body) = emails first.
Proof.
  cbv zeta. unfold extractContactInfo, extractContactInfo_card. simpl.
  repeat split.
  - apply spread_new_Set_NoDup.
  - apply spread_new_Set_NoDup.
  - apply spread_new_Set_In.
  - apply spread_new_Set_In.
  - apply spread_new_Set_In.
  - apply spread_new_Set_In.
  - apply spread_new_Set_idempotent.
  - apply spread_new_Set_idempotent.
Qed.

Example extractContactInfo_repeated_address :
  let info := extractContactInfo
    "Write to ann@example.com or ann@example.com, call 555-123-4567 or 555-123-4567." in
  emails info = ["ann@example.com"]
  /\ phones info = [" 555-123-4567 "; " 555-123-4567"].
Proof. vm_compute. split; reflexivity. Qed.

End ExtractionFacts.

(** ** Loading: failure keeps the snapshot *)

Section LoadFacts.
Import UseEmails Api.

Lemma getEmails_is_member :
  lookup_member "getEmails" emailAPI = Some (GET, "/emails/").
Proof. reflexivity. Qed.

Lemma load_fetches_test (forceRefresh : bool) (w : world) :
  Spec.load_fetches forceRefresh w ->
  negb forceRefresh && truthy_num (lastFetch (hook w))
  && (clock w - default 0 (lastFetch (hook w)) <? CACHE_DURATION) = false.
Proof.
  intros [->|[->|[->|(t & -> & Ht)]]]; simpl; try reflexivity.
  - now rewrite andb_false_r.
  - now rewrite andb_false_r.
  - apply andb_false_iff. right. apply Z.ltb_ge. exact Ht.
Qed.

(** What a load that reaches the fetch does when the fetch is rejected:
    only [error] and [loading] change, and the request is logged. *)
Lemma loadEmails_rejected (forceRefresh : bool) (w : world) (err : js_error) :
  Spec.load_fetches forceRefresh w ->
  Spec.answer w Spec.getEmails_request = Rejected err ->
  loadEmails forceRefresh w =
    (Returned tt,
     mkWorld
       (mkState (emails (hook w)) (filteredEmails (hook w)) false
          (Some (message_or err "Failed to load emails"))
          (refreshing (hook w)) (filters (hook w)) (sortBy (hook w))
          (sortOrder (hook w)) (viewMode (hook w)) (currentPage (hook w))
          (pageSize (hook w)) (totalEmails (hook w)) (selectedEmails (hook w))
          (selectAll (hook w)) (emailCache (hook w)) (lastFetch (hook w)))
       (clock w) (tza w) (remote w)
       (log w ++ [(Spec.getEmails_request,
                   mkState (emails (hook w)) (filteredEmails (hook w)) true None
                     (refreshing (hook w)) (filters (hook w)) (sortBy (hook w))
                     (sortOrder (hook w)) (viewMode (hook w)) (currentPage (hook w))
                     (pageSize (hook w)) (totalEmails (hook w)) (selectedEmails (hook w))
                     (selectAll (hook w)) (emailCache (hook w)) (lastFetch (hook w)))])%list).
Proof.
  intros Hf Hr. apply load_fetches_test in Hf.
  unfold Spec.answer, Spec.getEmails_request in Hr.
  unfold loadEmails, try_finally, try_catch, mbind, M_bind, mret, M_ret,
    setError, setLoading, modify, Date_now, get_state, call_emailAPI. simpl.
  rewrite Hf. unfold send. simpl. rewrite Hr. reflexivity.
Qed.

(** C4: when the remote fetch of a load fails, the load returns normally
    (nothing is thrown to the caller), the failure is recorded in the
    [error] flag, and the snapshot, the filtered view, the cache and the
    time of the last fetch are what they were; the statistics and the
    queries (the current page, and a fresh run of the filters and the
    sort) read the same stale snapshot afterwards. *)
Theorem loadEmails_failure_keeps_snapshot
    (forceRefresh : bool) (w : world) (err : js_error) :
  Spec.load_fetches forceRefresh w ->
  Spec.answer w Spec.getEmails_request = Rejected err ->
  let result := fst (loadEmails forceRefresh w) in
  let after := hook (snd (loadEmails forceRefresh w)) in
  result = Returned tt
  /\ error after = Some (message_or err "Failed to load emails")
  /\ error after <> None
  /\ emails after = emails (hook w)
  /\ filteredEmails after = filteredEmails (hook w)
  /\ emailCache after = emailCache (hook w)
  /\ lastFetch after = lastFetch (hook w)
  /\ loading after = false
  /\ stats after = stats (hook w)
  /\ paginatedEmails after = paginatedEmails (hook w)
  /\ (forall tz now, filtered_and_sorted tz now after = filtered_and_sorted tz now (hook w))
  /\ (forall id, getEmailById after id = getEmailById (hook w) id).
Proof.
  intros Hf Hr. cbv zeta. rewrite (loadEmails_rejected _ _ _ Hf Hr). simpl.
  repeat split; try reflexivity. discriminate.
Qed.

End LoadFacts.

(** ** Refreshing: a forced reload *)

Section RefreshFacts.
Import UseEmails Api.

(** A refresh always sends the fetch, whatever the age of the cache,
    and always returns normally. *)
Lemma refreshEmails_run (w : world) :
  refreshEmails w =
    (Returned tt,
     mkWorld (Spec.refreshed (hook w) (clock w) (Spec.answer w Spec.getEmails_request))
       (clock w) (tza w) (remote w)
       (log w ++ [(Spec.getEmails_request, Spec.refreshing_state (hook w))])%list).
Proof.
  unfold refreshEmails, loadEmails, try_finally, try_catch, mbind, M_bind, mret, M_ret,
    setError, setLoading, setRefreshing, setEmails, setEmails_with, setTotalEmails,
    setLastFetch, setEmailCache, setEmailCache_with, modify, Date_now, get_state,
    call_emailAPI, send, Spec.answer, Spec.getEmails_request, Spec.refreshed,
    Spec.refreshing_state.
  simpl.
  destruct (remote w (List.map fst (log w)) _) as [data|err]; reflexivity.
Qed.

Lemma refreshEmails_requests (w : world) :
  List.map fst (log (snd (refreshEmails w)))
  = (List.map fst (log w) ++ [Spec.getEmails_request])%list.
Proof. rewrite refreshEmails_run. simpl. now rewrite List.map_app. Qed.

End RefreshFacts.

(** ** Optimistic update *)

Section UpdateFacts.
Import UseEmails Api.

Lemma updateEmail_is_member :
  lookup_member "updateEmail" emailAPI = Some (PUT, "/emails/:id").
Proof. reflexivity. Qed.

(** The result and the world of a run, from its equation. *)
Lemma result_of_run {A : Type} (m : M A) (w : world) (r : outcome A) (w' : world) :
  m w = (r, w') -> fst (m w) = r.
Proof. intros ->. reflexivity. Qed.

Lemma world_of_run {A : Type} (m : M A) (w : world) (r : outcome A) (w' : world) :
  m w = (r, w') -> snd (m w) = w'.
Proof. intros ->. reflexivity. Qed.

(** The spread of a patch over a record puts the patch on it, field by
    field. *)
Lemma spread_patched (e : Email.email) (u : Email.updates) :
  Spec.patched_record e u (Email.spread e u).
Proof.
  unfold Spec.patched_record, Spec.field_patched, Spec.text_patched, Email.spread,
    Email.override, Email.override_opt.
  destruct u as [i sd sj bd r p sn st c]. simpl.
  destruct i, sd, sj, bd, r, p, sn, st, c;
    repeat split; intros; congruence.
Qed.

(** The snapshot after the patch, position by position. *)
Lemma patched_snapshot (emailId : Z) (updates : Email.updates) (st : state)
    (i : nat) (e : Email.email) :
  nth_error (emails st) i = Some e ->
  exists e', nth_error (emails (Spec.patch_store emailId updates st)) i = Some e'
    /\ (Email.id e = emailId -> Spec.patched_record e updates e')
    /\ (Email.id e <> emailId -> e' = e).
Proof.
  intros Hi. unfold Spec.patch_store, Spec.with_store. cbn [emails].
  rewrite List.nth_error_map, Hi. cbn [option_map].
  destruct (Z.eqb_spec (Email.id e) emailId) as [Heq|Hne].
  - exists (Email.spread e updates). split; [reflexivity|].
    split; [intros _; apply spread_patched | contradiction].
  - exists e. split; [reflexivity|]. split; [contradiction | reflexivity].
Qed.

(** The cache after the patch, identifier by identifier. *)
Lemma patched_cache (emailId : Z) (updates : Email.updates) (st : state) :
  (forall e, getEmailById st emailId = Some e ->
     exists e', getEmailById (Spec.patch_store emailId updates st) emailId = Some e'
       /\ Spec.patched_record e updates e')
  /\ (getEmailById st emailId = None ->
      getEmailById (Spec.patch_store emailId updates st) emailId = None)
  /\ (forall id, id <> emailId ->
      getEmailById (Spec.patch_store emailId updates st) id = getEmailById st id).
Proof.
  unfold getEmailById, Spec.patch_store, Spec.with_store. cbn [emailCache].
  split; [|split].
  - intros e He. rewrite He. exists (Email.spread e updates).
    split; [apply lookup_insert_eq | apply spread_patched].
  - intros Hn. rewrite Hn. exact Hn.
  - intros id Hne. destruct (emailCache st !! emailId); [|reflexivity].
    apply lookup_insert_ne. congruence.
Qed.

(** C5: [updateEmail] first puts the patch on the store and only then
    sends the update.  The patched store holds, position by position,
    the records of the snapshot, each record with the identifier
    [emailId] carrying the patch (a field the patch sets has the value
    of the patch, every other field its old value) and every other
    record as it was; the cache entry of [emailId], when there is one,
    carries the patch too; the filtered view is not touched.  The
    request is logged with this patched state.  When the remote update
    resolves, the world is exactly that one (the patched store, one
    request).  When it is rejected, the error is rethrown after a
    refresh, which sends the full fetch whatever the age of the cache;
    nothing is rolled back field by field: the snapshot afterwards is
    the fetched one when the fetch resolves, and still the patched one
    when the fetch fails too. *)
Theorem updateEmail_optimistic_then_resync
    (emailId : Z) (updates : Email.updates) (w : world) :
  let patched := Spec.patch_store emailId updates (hook w) in
  let request := Spec.updateEmail_request emailId updates in
  let called := Spec.logged (Spec.with_hook w patched) request in
  length (emails patched) = length (emails (hook w))
  /\ (forall i e, nth_error (emails (hook w)) i = Some e ->
        exists e', nth_error (emails patched) i = Some e'
          /\ (Email.id e = emailId -> Spec.patched_record e updates e')
          /\ (Email.id e <> emailId -> e' = e))
  /\ (forall e, getEmailById (hook w) emailId = Some e ->
        exists e', getEmailById patched emailId = Some e'
          /\ Spec.patched_record e updates e')
  /\ (getEmailById (hook w) emailId = None -> getEmailById patched emailId = None)
  /\ (forall id, id <> emailId -> getEmailById patched id = getEmailById (hook w) id)
  /\ filteredEmails patched = filteredEmails (hook w)
  /\ hook called = patched
  /\ log called = (log w ++ [(request, patched)])%list
  /\ match Spec.answer w request with
     | Resolved _ => updateEmail emailId updates w = (Returned tt, called)
     | Rejected err =>
         let final := snd (refreshEmails called) in
         updateEmail emailId updates w = (Thrown err, final)
         /\ List.map fst (log final)
            = (List.map fst (log w) ++ [request; Spec.getEmails_request])%list
         /\ match Spec.answer called Spec.getEmails_request with
            | Resolved data => emails (hook final) = default [] (data_emails data)
            | Rejected _ => emails (hook final) = emails patched
            end
     end.
Proof.
  cbv zeta.
  split.
  { unfold Spec.patch_store, Spec.with_store. cbn [emails]. apply List.length_map. }
  split; [intros i e; apply patched_snapshot|].
  destruct (patched_cache emailId updates (hook w)) as (Hc1 & Hc2 & Hc3).
  split; [exact Hc1|]. split; [exact Hc2|]. split; [exact Hc3|].
  split; [reflexivity|]. split; [reflexivity|]. split; [reflexivity|].
  set (called := Spec.logged _ _).
  assert (Hrun : updateEmail emailId updates w =
            match Spec.answer w (Spec.updateEmail_request emailId updates) with
            | Resolved _ => (Returned tt, called)
            | Rejected err => (Thrown err, snd (refreshEmails called))
            end).
  { unfold updateEmail, try_catch, mbind, M_bind, mret, M_ret, setEmails_with,
      setEmailCache_with, modify, call_emailAPI, send, throw, Spec.answer. simpl.
    destruct (remote w _ _) as [data|err]; [reflexivity|].
    rewrite !refreshEmails_run. reflexivity. }
  rewrite Hrun.
  destruct (Spec.answer w (Spec.updateEmail_request emailId updates)) as [data|err];
    [reflexivity|].
  split; [reflexivity|]. split.
  - rewrite refreshEmails_requests. subst called. simpl. rewrite List.map_app. simpl.
    now rewrite <- List.app_assoc.
  - rewrite refreshEmails_run.
    destruct (Spec.answer called Spec.getEmails_request); reflexivity.
Qed.

(** The update of C5 on a hook that holds two pending records.  With a
    remote boundary that stores what it is sent, marking record 1
    resolved returns normally and leaves the first record resolved, with
    its other fields as they were, and the second record untouched.
    With a remote boundary that rejects every request, the same call
    throws the error of the update after the update and the fetch have
    been sent, and the first record is still resolved in the snapshot:
    nothing was rolled back. *)
Lemma updateEmail_optimistic_then_resync_two_records :
  let st := Demo.state_with [Demo.email1; Demo.email2] [] in
  let patch := Demo.set_status "resolved" in
  let stored := snd (updateEmail 1 patch
                       (Demo.world_with st (Demo.server [Demo.email1; Demo.email2]))) in
  let refused := updateEmail 1 patch (Demo.world_with st Demo.offline) in
  (exists e', nth_error (emails (hook stored)) 0 = Some e'
     /\ Email.status e' = "resolved"
     /\ Email.subject e' = Email.subject Demo.email1
     /\ Email.priority e' = Email.priority Demo.email1)
  /\ nth_error (emails (hook stored)) 1 = Some Demo.email2
  /\ (exists e', getEmailById (hook stored) 1 = Some e' /\ Email.status e' = "resolved")
  /\ List.map fst (log stored) = [Spec.updateEmail_request 1 patch]
  /\ fst refused = Thrown (RequestError "Network Error")
  /\ List.map fst (log (snd refused))
     = [Spec.updateEmail_request 1 patch; Spec.getEmails_request]
  /\ (exists e', nth_error (emails (hook (snd refused))) 0 = Some e'
        /\ Email.status e' = "resolved").
Proof.
  cbv zeta.
  set (st := Demo.state_with [Demo.email1; Demo.email2] []).
  set (patch := Demo.set_status "resolved").
  pose proof (updateEmail_optimistic_then_resync 1 patch
                (Demo.world_with st (Demo.server [Demo.email1; Demo.email2]))) as Hs.
  pose proof (updateEmail_optimistic_then_resync 1 patch
                (Demo.world_with st Demo.offline)) as Hr.
  cbv zeta in Hs, Hr.
  destruct Hs as (_ & Hrec & Hcache & _ & _ & _ & Hhook & Hsent & Hrun).
  destruct Hr as (_ & Hrec' & _ & _ & _ & _ & _ & _ & Hrun').
  assert (Ha : Spec.answer (Demo.world_with st (Demo.server [Demo.email1; Demo.email2]))
                 (Spec.updateEmail_request 1 patch) = Resolved (mkResponse None))
    by reflexivity.
  assert (Ha' : forall w r, remote w = Demo.offline ->
                  Spec.answer w r = Rejected (RequestError "Network Error")).
  { intros w r Hw. unfold Spec.answer. rewrite Hw. reflexivity. }
  rewrite Ha in Hrun. rewrite Ha' in Hrun' by reflexivity.
  destruct Hrun' as (Hthrown & Hlog & Hkept).
  rewrite Ha' in Hkept by reflexivity.
  rewrite (world_of_run _ _ _ _ Hrun), (world_of_run _ _ _ _ Hthrown),
    (result_of_run _ _ _ _ Hthrown), Hhook, Hsent, Hlog, Hkept.
  destruct (Hrec 0%nat Demo.email1 eq_refl) as (e1 & Hn1 & Hp1 & _).
  destruct (Hrec 1%nat Demo.email2 eq_refl) as (e2 & Hn2 & _ & Hsame).
  destruct (Hcache Demo.email1 eq_refl) as (c1 & Hc1 & Hpc).
  destruct (Hrec' 0%nat Demo.email1 eq_refl) as (e1' & Hn1' & Hp1' & _).
  specialize (Hp1 eq_refl). specialize (Hp1' eq_refl).
  split.
  { exists e1. split; [exact Hn1|].
    destruct Hp1 as (_ & _ & Hsj & _ & _ & Hpr & _ & Hst & _).
    split; [exact (proj1 Hst _ eq_refl)|].
    split; [exact (proj2 Hsj eq_refl) | exact (proj2 Hpr eq_refl)]. }
  split.
  { rewrite Hn2. f_equal. apply Hsame. discriminate. }
  split.
  { exists c1. split; [exact Hc1|].
    destruct Hpc as (_ & _ & _ & _ & _ & _ & _ & Hst & _).
    exact (proj1 Hst _ eq_refl). }
  split; [reflexivity|].
  split; [reflexivity|].
  split; [reflexivity|].
  exists e1'. split; [exact Hn1'|].
  destruct Hp1' as (_ & _ & _ & _ & _ & _ & _ & Hst & _).
  exact (proj1 Hst _ eq_refl).
Defined.

End UpdateFacts.

(** ** Delete *)

Section DeleteFacts.
Import UseEmails Api.

(** [emailAPI] has no member [deleteEmail]. *)
Lemma deleteEmail_not_a_member : lookup_member "deleteEmail" emailAPI = None.
Proof. reflexivity. Qed.

(** C9: [deleteEmail] always ends in its error path.  It takes the
    record out of the snapshot, the filtered view and the cache; the
    call through [emailAPI.deleteEmail], which [emailAPI] does not
    define, throws a [TypeError] before any request is sent; the catch
    block forces a refresh, whose fetch is the only request made, and
    rethrows the error.  The operation never returns normally. *)
Theorem deleteEmail_always_throws (emailId : Z) (w : world) :
  let removed := Spec.with_hook w (Spec.remove_from_store emailId (hook w)) in
  let final := snd (refreshEmails removed) in
  lookup_member "deleteEmail" emailAPI = None
  /\ deleteEmail emailId w
     = (Thrown (TypeError "emailAPI.deleteEmail is not a function"), final)
  /\ fst (deleteEmail emailId w) <> Returned tt
  /\ List.map fst (log final) = (List.map fst (log w) ++ [Spec.getEmails_request])%list
  /\ match Spec.answer w Spec.getEmails_request with
     | Resolved data => emails (hook final) = default [] (data_emails data)
     | Rejected _ =>
         emails (hook final)
         = List.filter (fun email => negb (Email.id email =? emailId)) (emails (hook w))
     end.
Proof.
  cbv zeta.
  set (removed := Spec.with_hook w _).
  assert (Hrun : deleteEmail emailId w
            = (Thrown (TypeError "emailAPI.deleteEmail is not a function"),
               snd (refreshEmails removed))).
  { unfold deleteEmail, try_catch, mbind, M_bind, mret, M_ret, setEmails_with,
      setFilteredEmails_with, setEmailCache_with, modify, call_emailAPI, throw. simpl.
    rewrite !refreshEmails_run. reflexivity. }
  split; [reflexivity|]. split; [exact Hrun|]. split; [now rewrite Hrun|]. split.
  - rewrite refreshEmails_requests. reflexivity.
  - rewrite refreshEmails_run. change (Spec.answer removed) with (Spec.answer w).
    destruct (Spec.answer w Spec.getEmails_request); reflexivity.
Qed.

End DeleteFacts.

(** ** Bulk operations *)

Section BulkFacts.
Import UseEmails Api.

(** With a selection, either bulk operation clears the selection and
    refreshes; the fetch of the refresh is the only request it sends. *)
Lemma bulkUpdateStatus_run (status : string) (w : world) :
  selectedEmails (hook w) <> [] ->
  bulkUpdateStatus status w
  = (Returned tt, snd (refreshEmails (Spec.with_hook w (Spec.deselected (hook w))))).
Proof.
  intros Hsel.
  unfold bulkUpdateStatus, try_finally, try_catch, mbind, M_bind, mret, M_ret, get_state.
  destruct (selectedEmails (hook w)) as [|i sel] eqn:Es; [contradiction|].
  change (Z.of_nat (length (i :: sel)) =? 0) with (Z.pos (Pos.of_succ_nat (length sel)) =? 0).
  cbn [Z.eqb].
  unfold setLoading, setSelectedEmails, setSelectedEmails_with, setSelectAll, modify.
  simpl. rewrite !refreshEmails_run. unfold Spec.answer, Spec.refreshed. simpl.
  destruct (remote w _ _); reflexivity.
Qed.

Lemma bulkDelete_run (w : world) :
  selectedEmails (hook w) <> [] ->
  bulkDelete w
  = (Returned tt, snd (refreshEmails (Spec.with_hook w (Spec.deselected (hook w))))).
Proof.
  intros Hsel.
  unfold bulkDelete, try_finally, try_catch, mbind, M_bind, mret, M_ret, get_state.
  destruct (selectedEmails (hook w)) as [|i sel] eqn:Es; [contradiction|].
  change (Z.of_nat (length (i :: sel)) =? 0) with (Z.pos (Pos.of_succ_nat (length sel)) =? 0).
  cbn [Z.eqb].
  unfold setLoading, setSelectedEmails, setSelectedEmails_with, setSelectAll, modify.
  simpl. rewrite !refreshEmails_run. unfold Spec.answer, Spec.refreshed. simpl.
  destruct (remote w _ _); reflexivity.
Qed.

End BulkFacts.

Section BulkExample.
Import UseEmails Api.

(** C7 (the code does not do this): two pending records are selected
    and the remote boundary stores what it is sent.  [bulkUpdateStatus]
    empties the selection and refreshes, but the only request it sends
    is the fetch, so both records are still pending afterwards;
    [bulkDelete] likewise leaves both records in place.  The single
    update of the same hook does reach the remote boundary. *)
Theorem bulk_operations_apply_nothing :
  let st := Demo.state_with [Demo.email1; Demo.email2] [1; 2] in
  let w := Demo.world_with st (Demo.server [Demo.email1; Demo.email2]) in
  let updated := snd (bulkUpdateStatus "resolved" w) in
  let deleted := snd (bulkDelete w) in
  let single := snd (refreshEmails (snd (updateEmail 1 (Demo.set_status "resolved") w))) in
  List.map fst (log updated) = [Spec.getEmails_request]
  /\ List.map Email.status (emails (hook updated)) = ["pending"; "pending"]
  /\ selectedEmails (hook updated) = []
  /\ List.map fst (log deleted) = [Spec.getEmails_request]
  /\ List.map Email.id (emails (hook deleted)) = [1; 2]
  /\ selectedEmails (hook deleted) = []
  /\ List.map Email.status (emails (hook single)) = ["resolved"; "pending"].
Proof. vm_compute. repeat split; reflexivity. Qed.

End BulkExample.

(** ** Pagination *)

Section PaginationFacts.
Import UseEmails Api.

Lemma Math_ceil_div_spec (a b : Z) :
  0 < b -> b * (Math_ceil_div a b - 1) < a <= b * Math_ceil_div a b.
Proof.
  intros Hb. unfold Math_ceil_div.
  pose proof (Z.div_mod (- a) b ltac:(lia)) as Hd.
  pose proof (Z.mod_pos_bound (- a) b Hb) as Hm.
  nia.
Qed.

(** The slice of a page, index by index. *)
Lemma slice_page_nth {A : Type} (l : list A) (start size : Z) (i : nat) :
  0 <= start -> 0 < size ->
  nth_error (JsArray.slice l start (start + size)) i
  = if Z.of_nat i <? size then nth_error l (Z.to_nat start + i) else None.
Proof.
  intros Hs Hz. unfold JsArray.slice, JsArray.relative_index.
  destruct (start <? 0) eqn:E1; [lia|].
  destruct (start + size <? 0) eqn:E2; [lia|].
  rewrite nth_error_firstn, nth_error_skipn.
  destruct (Z.of_nat i <? size) eqn:Ei.
  - apply Z.ltb_lt in Ei. destruct (Nat.ltb_spec i
      (Z.to_nat (Z.min (start + size) (Z.of_nat (length l)) - Z.min start (Z.of_nat (length l))))) as [Hlt|Hge].
    + f_equal. lia.
    + symmetry. apply nth_error_None. lia.
  - apply Z.ltb_ge in Ei.
    destruct (Nat.ltb_spec i
      (Z.to_nat (Z.min (start + size) (Z.of_nat (length l)) - Z.min start (Z.of_nat (length l))))) as [Hlt|Hge];
      [lia | reflexivity].
Qed.

(** Applying the filters and the sort never throws; it replaces the
    filtered view, counts it, and goes back to the first page. *)
Lemma applyFiltersAndSorting_run (w : world) :
  applyFiltersAndSorting w =
    (Returned tt,
     Spec.with_hook w
       (let filtered := filtered_and_sorted (tza w) (clock w) (hook w) in
        let st := hook w in
        mkState (emails st) filtered (loading st) (error st) (refreshing st) (filters st)
          (sortBy st) (sortOrder st) (viewMode st) 1 (pageSize st)
          (Z.of_nat (length filtered)) (selectedEmails st) (selectAll st)
          (emailCache st) (lastFetch st))).
Proof. reflexivity. Qed.

Lemma rendered_resets_page (op : M unit) (w : world) :
  fst (op w) = Returned tt ->
  currentPage (hook (snd (rendered op w))) = 1.
Proof.
  intros Hop. unfold rendered, mbind, M_bind.
  destruct (op w) as [[[]|err] w']; simpl in Hop; [|discriminate].
  rewrite applyFiltersAndSorting_run. reflexivity.
Qed.

(** C6 (amended): for a positive page size and a current page of at
    least 1, the page shown is the slice of the filtered list from index
    [(page - 1) * pageSize] up to [page * pageSize], element by element;
    applying the filters and the sort, and so every change of a filter
    or of the sort, puts the current page back to 1 (and the count to
    the length of the filtered list); and [goToPage] clamps the
    requested page to [1 .. max 1 (ceil (count / pageSize))]: the lower
    bound 1 wins when the list is empty. *)
Theorem pagination_slice_reset_clamp (w : world) (page : Z) :
  0 < pageSize (hook w) ->
  1 <= currentPage (hook w) ->
  let st := hook w in
  (forall i : nat,
      nth_error (paginatedEmails st) i
      = if Z.of_nat i <? pageSize st
        then nth_error (filteredEmails st)
               (Z.to_nat ((currentPage st - 1) * pageSize st) + i)
        else None)
  /\ (let st' := hook (snd (applyFiltersAndSorting w)) in
      currentPage st' = 1
      /\ totalEmails st' = Z.of_nat (length (filteredEmails st')))
  /\ (forall newFilters,
        currentPage (hook (snd (rendered (updateFilters newFilters) w))) = 1)
  /\ (forall field,
        currentPage (hook (snd (rendered (updateSorting field) w))) = 1)
  /\ (let p := currentPage (hook (snd (goToPage page w))) in
      1 <= p <= Z.max 1 (totalPages st)
      /\ (1 <= page <= totalPages st -> p = page)
      /\ (page < 1 -> p = 1)
      /\ (totalPages st < page -> p = Z.max 1 (totalPages st)))
  /\ pageSize st * (totalPages st - 1) < totalEmails st <= pageSize st * totalPages st.
Proof.
  intros Hsize Hpage. cbv zeta. repeat apply conj.
  - intros i. unfold paginatedEmails. apply slice_page_nth; nia.
  - reflexivity.
  - reflexivity.
  - intros newFilters. apply rendered_resets_page. reflexivity.
  - intros field. apply rendered_resets_page.
    unfold updateSorting, mbind, M_bind, get_state.
    destruct (String.eqb (sortBy (hook w)) field); reflexivity.
  - simpl. lia.
  - simpl. lia.
  - simpl. lia.
  - simpl. lia.
  - simpl. lia.
  - apply Math_ceil_div_spec. exact Hsize.
  - apply Math_ceil_div_spec. exact Hsize.
Qed.

(** C6, as first stated, fails on an empty list: no page number lies in
    [1 .. ceil (0 / pageSize)], and [goToPage] answers 1. *)
Lemma goToPage_on_empty_list :
  let w := Demo.world_with initial Demo.offline in
  filteredEmails (hook w) = []
  /\ totalPages (hook w) = 0
  /\ currentPage (hook (snd (goToPage 1 w))) = 1
  /\ totalPages (hook w) < currentPage (hook (snd (goToPage 1 w))).
Proof. vm_compute. repeat split; reflexivity. Qed.

(** With at least one record the clamped page lies in
    [1 .. ceil (count / pageSize)], as first stated. *)
Lemma goToPage_in_range (w : world) (page : Z) :
  0 < pageSize (hook w) -> 0 < totalEmails (hook w) ->
  1 <= currentPage (hook (snd (goToPage page w))) <= totalPages (hook w).
Proof.
  intros Hsize Hcount. simpl.
  pose proof (Math_ceil_div_spec (totalEmails (hook w)) (pageSize (hook w)) Hsize) as H.
  unfold totalPages. nia.
Qed.

End PaginationFacts.

(** ** Sorting *)

(** *** The sort with a consistent comparator *)

Section StableSort.
Context {A : Type} (comparefn : A -> A -> Z) (S : A -> Prop).
Hypothesis Hcons : Spec.consistent comparefn S.

Lemma before_after (a b : A) : S a -> S b -> comparefn a b < 0 -> comparefn b a > 0.
Proof.
  intros Ha Hb Hab.
  destruct (Z.lt_trichotomy (comparefn b a) 0) as [Hlt|[Heq|Hgt]]; [| |lia].
  - pose proof (Spec.before_trans _ _ Hcons a b a Ha Hb Ha Hab Hlt) as H.
    rewrite (Spec.tie_refl _ _ Hcons a Ha) in H. lia.
  - pose proof (Spec.tie_sym _ _ Hcons b a Hb Ha Heq). lia.
Qed.

Lemma after_before (a b : A) : S a -> S b -> comparefn a b > 0 -> comparefn b a < 0.
Proof.
  intros Ha Hb Hab.
  destruct (Z.lt_trichotomy (comparefn b a) 0) as [Hlt|[Heq|Hgt]]; [lia| |].
  - pose proof (Spec.tie_sym _ _ Hcons b a Hb Ha Heq). lia.
  - pose proof (Spec.after_trans _ _ Hcons a b a Ha Hb Ha Hab ltac:(lia)) as H.
    rewrite (Spec.tie_refl _ _ Hcons a Ha) in H. lia.
Qed.

Lemma tie_before (a b c : A) :
  S a -> S b -> S c -> comparefn a b = 0 -> comparefn b c < 0 -> comparefn a c < 0.
Proof.
  intros Ha Hb Hc Hab Hbc.
  destruct (Z.lt_trichotomy (comparefn a c) 0) as [Hlt|[Heq|Hgt]]; [exact Hlt| |].
  - pose proof (Spec.tie_sym _ _ Hcons a b Ha Hb Hab) as Hba.
    pose proof (Spec.tie_trans _ _ Hcons b a c Hb Ha Hc Hba Heq). lia.
  - pose proof (after_before a c Ha Hc ltac:(lia)) as Hca.
    pose proof (Spec.tie_sym _ _ Hcons a b Ha Hb Hab) as Hba.
    pose proof (Spec.before_trans _ _ Hcons b c a Hb Hc Ha Hbc Hca). lia.
Qed.

Lemma before_tie (a b c : A) :
  S a -> S b -> S c -> comparefn a b < 0 -> comparefn b c = 0 -> comparefn a c < 0.
Proof.
  intros Ha Hb Hc Hab Hbc.
  destruct (Z.lt_trichotomy (comparefn a c) 0) as [Hlt|[Heq|Hgt]]; [exact Hlt| |].
  - pose proof (Spec.tie_sym _ _ Hcons b c Hb Hc Hbc) as Hcb.
    pose proof (Spec.tie_trans _ _ Hcons a c b Ha Hc Hb Heq Hcb). lia.
  - pose proof (after_before a c Ha Hc ltac:(lia)) as Hca.
    pose proof (Spec.before_trans _ _ Hcons c a b Hc Ha Hb Hca Hab) as Hcb'.
    pose proof (before_after c b Hc Hb Hcb') as Hbc'. lia.
Qed.

(** "Not after" is transitive. *)
Lemma not_after_trans (a b c : A) :
  S a -> S b -> S c -> comparefn a b <= 0 -> comparefn b c <= 0 -> comparefn a c <= 0.
Proof.
  intros Ha Hb Hc Hab Hbc.
  destruct (Z.eq_dec (comparefn a b) 0) as [E1|N1];
    destruct (Z.eq_dec (comparefn b c) 0) as [E2|N2].
  - rewrite (Spec.tie_trans _ _ Hcons a b c Ha Hb Hc E1 E2). lia.
  - pose proof (tie_before a b c Ha Hb Hc E1 ltac:(lia)). lia.
  - pose proof (before_tie a b c Ha Hb Hc ltac:(lia) E2). lia.
  - pose proof (Spec.before_trans _ _ Hcons a b c Ha Hb Hc ltac:(lia) ltac:(lia)). lia.
Qed.

Lemma insert_In (x y : A) (l : list A) :
  In y (JsArray.insert comparefn x l) <-> y = x \/ In y l.
Proof.
  induction l as [|z l IH]; simpl.
  - intuition.
  - destruct (comparefn x z <? 0); simpl; rewrite ?IH; intuition.
Qed.

Lemma insert_Permutation (x : A) (l : list A) :
  Permutation (x :: l) (JsArray.insert comparefn x l).
Proof.
  induction l as [|z l IH]; simpl.
  - apply Permutation_refl.
  - destruct (comparefn x z <? 0).
    + apply Permutation_refl.
    + eapply perm_trans; [apply perm_swap|]. apply perm_skip. exact IH.
Qed.

Lemma insert_Forall (x : A) (l : list A) :
  S x -> Forall S l -> Forall S (JsArray.insert comparefn x l).
Proof.
  intros Hx Hl. apply List.Forall_forall. intros y Hy. apply insert_In in Hy.
  destruct Hy as [->|Hy]; [exact Hx|]. rewrite List.Forall_forall in Hl. auto.
Qed.

Lemma insert_sorted (x : A) (l : list A) :
  S x -> Forall S l ->
  StronglySorted (fun a b => comparefn a b <= 0) l ->
  StronglySorted (fun a b => comparefn a b <= 0) (JsArray.insert comparefn x l).
Proof.
  intros Hx Hl Hs. induction Hs as [|z l Hs IH Hz]; simpl.
  - constructor; [constructor | constructor].
  - inversion Hl as [|? ? HSz HSl]; subst.
    destruct (comparefn x z <? 0) eqn:E.
    + apply Z.ltb_lt in E. constructor; [constructor; assumption|].
      constructor; [lia|].
      rewrite List.Forall_forall in Hz, HSl |- *. intros y Hy.
      apply (not_after_trans x z y); auto. lia.
    + apply Z.ltb_ge in E. constructor; [apply IH; assumption|].
      apply List.Forall_forall. intros y Hy. apply insert_In in Hy.
      destruct Hy as [->|Hy].
      * destruct (Z.eq_dec (comparefn x z) 0) as [E0|N0].
        -- rewrite (Spec.tie_sym _ _ Hcons x z Hx HSz E0). lia.
        -- pose proof (after_before x z Hx HSz ltac:(lia)). lia.
      * rewrite List.Forall_forall in Hz. auto.
Qed.

(** Inserting [x] leaves every group of ties in place and puts [x]
    behind the values it ties with. *)
Lemma insert_ties (z x : A) (l : list A) :
  S z -> S x -> Forall S l ->
  StronglySorted (fun a b => comparefn a b <= 0) l ->
  Spec.ties comparefn z (JsArray.insert comparefn x l)
  = (Spec.ties comparefn z l ++ Spec.ties comparefn z [x])%list.
Proof.
  intros Hz Hx Hl Hs. unfold Spec.ties.
  induction Hs as [|y l Hs IH Hy]; simpl.
  - reflexivity.
  - inversion Hl as [|? ? HSy HSl]; subst.
    destruct (comparefn x y <? 0) eqn:E.
    + apply Z.ltb_lt in E. simpl.
      destruct (comparefn z x =? 0) eqn:Ezx; simpl; [|now rewrite List.app_nil_r].
      apply Z.eqb_eq in Ezx.
      assert (Hzy : comparefn z y < 0) by (apply (tie_before z x y); assumption).
      assert (Hnone : forall l', Forall S l' -> Forall (fun w => comparefn y w <= 0) l' ->
                List.filter (fun w => comparefn z w =? 0) l' = []).
      { intros l' HS' Hle. induction l' as [|w l' IHl]; simpl; [reflexivity|].
        inversion HS'; inversion Hle; subst.
        assert (Hzw : comparefn z w < 0).
        { destruct (Z.eq_dec (comparefn y w) 0) as [E0|N0].
          - apply (before_tie z y w); assumption.
          - apply (Spec.before_trans _ _ Hcons z y w); auto. lia. }
        destruct (Z.eqb_spec (comparefn z w) 0); [lia|]. apply IHl; assumption. }
      destruct (Z.eqb_spec (comparefn z y) 0) as [E0|_]; [lia|].
      rewrite (Hnone l HSl Hy). reflexivity.
    + simpl. simpl in IH. rewrite (IH HSl).
      destruct (comparefn z y =? 0); reflexivity.
Qed.

Lemma sort_from_spec (l acc : list A) :
  Forall S l -> Forall S acc ->
  StronglySorted (fun a b => comparefn a b <= 0) acc ->
  let sorted := fold_left (fun sorted x => JsArray.insert comparefn x sorted) l acc in
  Permutation (acc ++ l) sorted
  /\ Forall S sorted
  /\ StronglySorted (fun a b => comparefn a b <= 0) sorted
  /\ forall z, S z ->
       Spec.ties comparefn z sorted
       = (Spec.ties comparefn z acc ++ Spec.ties comparefn z l)%list.
Proof.
  cbv zeta. revert acc. induction l as [|x l IH]; intros acc Hl Hacc Hs; simpl.
  - rewrite List.app_nil_r. repeat split; auto.
    intros z _. now rewrite List.app_nil_r.
  - inversion Hl as [|? ? Hx Hl']; subst.
    destruct (IH (JsArray.insert comparefn x acc) Hl'
                (insert_Forall x acc Hx Hacc) (insert_sorted x acc Hx Hacc Hs))
      as (Hp & Hf & Hso & Ht).
    repeat split; auto.
    + eapply perm_trans; [|exact Hp].
      eapply perm_trans; [apply Permutation_sym, Permutation_middle|].
      apply (Permutation_app_tail l (insert_Permutation x acc)).
    + intros z Hz. rewrite (Ht z Hz), (insert_ties z x acc Hz Hx Hacc Hs).
      rewrite <- List.app_assoc. unfold Spec.ties. simpl.
      destruct (comparefn z x =? 0); reflexivity.
Qed.

(** For a consistent comparator the sort is a stable sort. *)
Lemma sort_stable (l : list A) :
  Forall S l -> Spec.stable_sort_of comparefn l (JsArray.sort comparefn l).
Proof.
  intros Hl. unfold Spec.stable_sort_of, JsArray.sort.
  destruct (sort_from_spec l [] Hl (List.Forall_nil S) (SSorted_nil _)) as (Hp & _ & Hs & Ht).
  repeat split; auto.
  intros x Hx. rewrite List.Forall_forall in Hl. apply (Ht x (Hl x Hx)).
Qed.

End StableSort.

(** *** The comparator of [EmailManagement] is consistent *)

Section KeyComparator.
Context {A K : Type} (ltb : K -> K -> bool) (key : A -> K) (S : A -> Prop).
Hypothesis ltb_irrefl : forall a, S a -> ltb (key a) (key a) = false.
Hypothesis ltb_trans : forall a b c, S a -> S b -> S c ->
  ltb (key a) (key b) = true -> ltb (key b) (key c) = true -> ltb (key a) (key c) = true.
Hypothesis ltb_total : forall a b, S a -> S b ->
  ltb (key a) (key b) = false -> ltb (key b) (key a) = false -> key a = key b.

(** A comparator that answers [less] when the first key is smaller,
    [-less] when it is greater, and 0 otherwise. *)
Lemma ltb_asym (a b : A) :
  S a -> S b -> ltb (key a) (key b) = true -> ltb (key b) (key a) = false.
Proof.
  intros Ha Hb Hab. destruct (ltb (key b) (key a)) eqn:Hba; [|reflexivity].
  pose proof (ltb_trans a b a Ha Hb Ha Hab Hba) as H.
  rewrite (ltb_irrefl a Ha) in H. discriminate.
Qed.

Lemma key_comparator_consistent (less : Z) :
  less <> 0 ->
  Spec.consistent
    (fun a b => if ltb (key a) (key b) then less
                else if ltb (key b) (key a) then - less else 0) S.
Proof.
  intros Hless. constructor.
  - intros a Ha. now rewrite (ltb_irrefl a Ha).
  - intros a b Ha Hb.
    destruct (ltb (key a) (key b)) eqn:Hab; [lia|].
    destruct (ltb (key b) (key a)) eqn:Hba; [lia|]. reflexivity.
  - intros a b c Ha Hb Hc.
    destruct (ltb (key a) (key b)) eqn:Hab; [lia|].
    destruct (ltb (key b) (key a)) eqn:Hba; [lia|].
    destruct (ltb (key b) (key c)) eqn:Hbc; [lia|].
    destruct (ltb (key c) (key b)) eqn:Hcb; [lia|]. intros _ _.
    rewrite (ltb_total a b Ha Hb Hab Hba), (ltb_total b c Hb Hc Hbc Hcb).
    now rewrite (ltb_irrefl c Hc).
  - intros a b c Ha Hb Hc.
    destruct (ltb (key a) (key b)) eqn:Hab;
      [|destruct (ltb (key b) (key a)) eqn:Hba; [|lia]];
      (destruct (ltb (key b) (key c)) eqn:Hbc;
        [|destruct (ltb (key c) (key b)) eqn:Hcb; [|lia]]); try lia.
    + intros H1 _. now rewrite (ltb_trans a b c Ha Hb Hc Hab Hbc).
    + intros H1 _. pose proof (ltb_trans c b a Hc Hb Ha Hcb Hba) as Hca.
      now rewrite (ltb_asym c a Hc Ha Hca), Hca.
  - intros a b c Ha Hb Hc.
    destruct (ltb (key a) (key b)) eqn:Hab;
      [|destruct (ltb (key b) (key a)) eqn:Hba; [|lia]];
      (destruct (ltb (key b) (key c)) eqn:Hbc;
        [|destruct (ltb (key c) (key b)) eqn:Hcb; [|lia]]); try lia.
    + intros H1 _. now rewrite (ltb_trans a b c Ha Hb Hc Hab Hbc).
    + intros H1 _. pose proof (ltb_trans c b a Hc Hb Ha Hcb Hba) as Hca.
      now rewrite (ltb_asym c a Hc Ha Hca), Hca.
Qed.

End KeyComparator.

Section ValueOrder.

Lemma string_ltb_irrefl (s : string) : String.ltb s s = false.
Proof.
  unfold String.ltb.
  pose proof (proj2 (OrderedTypeEx.String_as_OT.cmp_eq s s) eq_refl) as H.
  unfold OrderedTypeEx.String_as_OT.cmp in H. now rewrite H.
Qed.

Lemma string_ltb_trans (a b c : string) :
  String.ltb a b = true -> String.ltb b c = true -> String.ltb a c = true.
Proof.
  unfold String.ltb. intros Hab Hbc.
  destruct (String.compare a b) eqn:Eab; try discriminate.
  destruct (String.compare b c) eqn:Ebc; try discriminate.
  apply OrderedTypeEx.String_as_OT.cmp_lt in Eab, Ebc.
  pose proof (OrderedTypeEx.String_as_OT.lt_trans _ _ _ Eab Ebc) as Hac.
  apply OrderedTypeEx.String_as_OT.cmp_lt in Hac.
  unfold OrderedTypeEx.String_as_OT.cmp in Hac. now rewrite Hac.
Qed.

Lemma string_ltb_total (a b : string) :
  String.ltb a b = false -> String.ltb b a = false -> a = b.
Proof.
  unfold String.ltb. rewrite (String.compare_antisym b a).
  destruct (String.compare a b) eqn:E; simpl; try discriminate.
  intros _ _. now apply String.compare_eq_iff.
Qed.

Lemma lt_irrefl (v : Email.js_value) : Email.lt v v = false.
Proof.
  destruct v; simpl; [reflexivity | apply Z.ltb_irrefl | apply string_ltb_irrefl].
Qed.

Lemma lt_trans (a b c : Email.js_value) :
  Email.lt a b = true -> Email.lt b c = true -> Email.lt a c = true.
Proof.
  destruct a, b, c; simpl; try discriminate.
  - rewrite !Z.ltb_lt. lia.
  - apply string_ltb_trans.
Qed.

(** A property is a number in every record, or a string or missing in
    every record: the comparison never meets a string and a number. *)
Lemma get_kinds (stamp key : string) :
  (forall e, exists n, Email.get stamp e key = Email.VNum n)
  \/ (forall e, Email.get stamp e key = Email.VUndefined
                \/ exists s, Email.get stamp e key = Email.VStr s).
Proof.
  unfold Email.get.
  destruct (String.eqb key "id"); [left; eauto|].
  destruct (String.eqb key "sender");
    [right; intros e; destruct (Email.sender e); simpl; eauto|].
  destruct (String.eqb key "subject");
    [right; intros e; destruct (Email.subject e); simpl; eauto|].
  destruct (String.eqb key "body");
    [right; intros e; destruct (Email.body e); simpl; eauto|].
  destruct (String.eqb key stamp); [left; eauto|].
  destruct (String.eqb key "priority"); [right; eauto|].
  destruct (String.eqb key "sentiment"); [right; eauto|].
  destruct (String.eqb key "status"); [right; eauto|].
  destruct (String.eqb key "category"); [right; eauto|].
  right; eauto.
Qed.

Lemma get_never_mixes (stamp key : string) (a b : Email.email) (n : Z) (s : string) :
  Email.get stamp a key = Email.VNum n -> Email.get stamp b key = Email.VStr s -> False.
Proof.
  intros Ha Hb. destruct (get_kinds stamp key) as [Hn|Hs].
  - destruct (Hn b) as [m Hm]. congruence.
  - destruct (Hs a) as [Hu|[t Ht]]; congruence.
Qed.

(** For one [sortBy], the keys are numbers in every record, or strings
    in every record that has the property, or missing in every record. *)
Lemma management_key_kinds (sortBy : string) :
  (forall e, exists n, Spec.management_key sortBy e = Email.VNum n)
  \/ (forall e, Spec.has_key "sent_date" sortBy e ->
               exists s, Spec.management_key sortBy e = Email.VStr s)
  \/ (forall e, ~ Spec.has_key "sent_date" sortBy e).
Proof.
  unfold Spec.management_key, Spec.has_key, Email.get.
  destruct (String.eqb_spec sortBy "id") as [->|_];
    [left; intros e; eexists; reflexivity|].
  destruct (String.eqb_spec sortBy "sender") as [->|_].
  { right; left. intros e. simpl. destruct (Email.sender e); simpl; [eauto | congruence]. }
  destruct (String.eqb_spec sortBy "subject") as [->|_].
  { right; left. intros e. simpl. destruct (Email.subject e); simpl; [eauto | congruence]. }
  destruct (String.eqb_spec sortBy "body") as [->|_].
  { right; left. intros e. simpl. destruct (Email.body e); simpl; [eauto | congruence]. }
  destruct (String.eqb_spec sortBy "sent_date") as [->|_];
    [left; intros e; eexists; reflexivity|].
  destruct (String.eqb_spec sortBy "priority") as [->|_];
    [right; left; intros e _; eexists; reflexivity|].
  destruct (String.eqb_spec sortBy "sentiment") as [->|_];
    [right; left; intros e _; eexists; reflexivity|].
  destruct (String.eqb_spec sortBy "status") as [->|_];
    [right; left; intros e _; eexists; reflexivity|].
  destruct (String.eqb_spec sortBy "category") as [->|_];
    [right; left; intros e _; eexists; reflexivity|].
  right; right. intros e H. apply H. reflexivity.
Qed.

Lemma management_key_total (sortBy : string) (a b : Email.email) :
  Spec.has_key "sent_date" sortBy a -> Spec.has_key "sent_date" sortBy b ->
  Email.lt (Spec.management_key sortBy a) (Spec.management_key sortBy b) = false ->
  Email.lt (Spec.management_key sortBy b) (Spec.management_key sortBy a) = false ->
  Spec.management_key sortBy a = Spec.management_key sortBy b.
Proof.
  intros Ha Hb.
  destruct (management_key_kinds sortBy) as [Hn|[Hs|Hu]].
  - destruct (Hn a) as [x ->], (Hn b) as [y ->]. simpl.
    rewrite !Z.ltb_ge. intros. f_equal. lia.
  - destruct (Hs a Ha) as [x ->], (Hs b Hb) as [y ->]. simpl.
    intros H1 H2. f_equal. now apply string_ltb_total.
  - destruct (Hu a Ha).
Qed.

Lemma management_compare_by_key (sortBy sortOrder : string) (a b : Email.email) :
  EmailManagement.compare sortBy sortOrder a b
  = let less := if String.eqb sortOrder "asc" then -1 else 1 in
    if Email.lt (Spec.management_key sortBy a) (Spec.management_key sortBy b) then less
    else if Email.lt (Spec.management_key sortBy b) (Spec.management_key sortBy a)
         then - less else 0.
Proof.
  unfold EmailManagement.compare, Spec.management_key, Email.gt. cbv zeta.
  destruct (String.eqb sortOrder "asc"); reflexivity.
Qed.

(** On records that have the sort key, the comparator of
    [EmailManagement] is consistent. *)
Lemma management_compare_consistent (sortBy sortOrder : string) :
  Spec.consistent (EmailManagement.compare sortBy sortOrder)
    (Spec.has_key "sent_date" sortBy).
Proof.
  pose proof (key_comparator_consistent Email.lt (Spec.management_key sortBy)
                (Spec.has_key "sent_date" sortBy)
                (fun a _ => lt_irrefl _)
                (fun a b c _ _ _ => lt_trans _ _ _)
                (management_key_total sortBy)
                (if String.eqb sortOrder "asc" then -1 else 1)
                ltac:(destruct (String.eqb sortOrder "asc"); lia)) as H.
  destruct H as [H1 H2 H3 H4 H5].
  constructor; intros *; rewrite ?management_compare_by_key; cbv zeta; eauto.
Qed.

(** X1: the sort of [filterAndSortEmails] is stable when the records have
    the sort key: the records that pass the filters come out in the
    comparator's order, ties in their order of the snapshot. *)
Lemma filterAndSortEmails_stable (tza : JsDate.zone) (now : Z)
    (emails : list Email.email) (searchQuery : string)
    (f : EmailManagement.selectedFilters) (sortBy sortOrder : string) :
  Forall (Spec.has_key "sent_date" sortBy) emails ->
  Spec.stable_sort_of (EmailManagement.compare sortBy sortOrder)
    (List.filter (EmailManagement.matches tza now searchQuery f) emails)
    (EmailManagement.filterAndSortEmails tza now emails searchQuery f sortBy sortOrder).
Proof.
  intros Hkeys. unfold EmailManagement.filterAndSortEmails.
  apply (sort_stable _ _ (management_compare_consistent sortBy sortOrder)).
  rewrite List.Forall_forall in *. intros e He.
  apply List.filter_In in He. apply Hkeys, He.
Qed.

(** The hook's comparator is consistent on no record: a record does not
    tie with itself. *)
Lemma hook_compare_inconsistent (sortBy sortOrder : string) (S : Email.email -> Prop)
    (e : Email.email) :
  S e -> ~ Spec.consistent (UseEmails.compare sortBy sortOrder) S.
Proof.
  intros He [Hrefl _ _ _ _]. specialize (Hrefl e He). revert Hrefl.
  unfold UseEmails.compare.
  destruct (String.eqb sortOrder "asc");
    [destruct (Email.gt _ _) | destruct (Email.lt _ _)]; discriminate.
Qed.

End ValueOrder.

Section SortFacts.

(** The hook's comparator never answers 0: two records with equal keys
    are each reported to come before the other. *)
Lemma hook_compare_never_zero (sortBy sortOrder : string) (a b : Email.email) :
  UseEmails.compare sortBy sortOrder a b <> 0.
Proof.
  unfold UseEmails.compare.
  destruct (String.eqb sortOrder "asc");
    [destruct (Email.gt _ _) | destruct (Email.lt _ _)]; discriminate.
Qed.

Lemma hook_compare_tie (sortBy sortOrder : string) (a b : Email.email) :
  Email.lt (Spec.hook_key sortBy a) (Spec.hook_key sortBy b) = false ->
  Email.lt (Spec.hook_key sortBy b) (Spec.hook_key sortBy a) = false ->
  UseEmails.compare sortBy sortOrder a b = -1
  /\ UseEmails.compare sortBy sortOrder b a = -1.
Proof.
  unfold Spec.hook_key, UseEmails.compare, Email.gt. intros Hab Hba.
  destruct (String.eqb sortBy "received_at"), (String.eqb sortOrder "asc");
    rewrite ?Hab, ?Hba; split; reflexivity.
Qed.

(** The comparator of [EmailManagement] answers 0 on such a pair. *)
Lemma management_compare_tie (sortOrder : string) (a b : Email.email) :
  Email.received_at a = Email.received_at b ->
  EmailManagement.compare "sent_date" sortOrder a b = 0.
Proof.
  intros H. unfold EmailManagement.compare, Email.gt. simpl. rewrite H.
  rewrite Z.ltb_irrefl. reflexivity.
Qed.

(** A comparator that reports every value of the list to come before
    every other one makes the sort reverse the list. *)
Lemma sort_all_before {A : Type} (comparefn : A -> A -> Z) (l : list A) :
  (forall x y, In x l -> In y l -> comparefn x y < 0) ->
  JsArray.sort comparefn l = List.rev l.
Proof.
  intros Hall. unfold JsArray.sort.
  assert (Hgen : forall acc,
            (forall x y, In x l -> In y (l ++ acc)%list -> comparefn x y < 0) ->
            fold_left (fun sorted x => JsArray.insert comparefn x sorted) l acc
            = (List.rev l ++ acc)%list).
  { clear Hall. induction l as [|x l IH]; intros acc Hacc; simpl; [reflexivity|].
    assert (Hins : JsArray.insert comparefn x acc = x :: acc).
    { destruct acc as [|y acc]; simpl; [reflexivity|].
      destruct (Z.ltb_spec (comparefn x y) 0) as [_|Hge]; [reflexivity|].
      assert (Hxy : comparefn x y < 0).
      { apply Hacc; [left; reflexivity|]. right. apply List.in_or_app. right. now left. }
      lia. }
    rewrite Hins, IH.
    - rewrite <- List.app_assoc. reflexivity.
    - intros a b Ha Hb. apply Hacc; [right; exact Ha|].
      apply List.in_app_or in Hb. destruct Hb as [Hb|[<-|Hb]].
      + right. apply List.in_or_app. now left.
      + now left.
      + right. apply List.in_or_app. now right. }
  rewrite (Hgen []); [apply List.app_nil_r|].
  intros x y Hx Hy. rewrite List.app_nil_r in Hy. now apply Hall.
Qed.

(** So the hook's sort reverses every list of records with equal keys,
    whatever the sort order. *)
Lemma hook_sort_reverses_ties (sortBy sortOrder : string) (l : list Email.email) :
  (forall a b, In a l -> In b l ->
     Email.lt (Spec.hook_key sortBy a) (Spec.hook_key sortBy b) = false) ->
  JsArray.sort (UseEmails.compare sortBy sortOrder) l = List.rev l.
Proof.
  intros Hties. apply sort_all_before. intros x y Hx Hy.
  destruct (hook_compare_tie sortBy sortOrder x y (Hties x y Hx Hy) (Hties y x Hy Hx))
    as [-> _].
  lia.
Qed.

(** C1 (the code does not do this): two records received at the same
    instant, sorted by [received_at].  The hook's comparator reports
    each of them to come before the other (it has no case for a tie),
    so the order of the pair is not kept: the sort puts the second
    record first, for [desc] and for [asc].  The [EmailManagement]
    comparator answers 0 for the pair and its sort keeps the order. *)
Theorem hook_sort_does_not_keep_tie_order :
  let a := Demo.email1 in
  let b := Demo.email2 in
  let w := Demo.world_with (Demo.state_with [a; b] []) Demo.offline in
  Email.received_at a = Email.received_at b
  /\ UseEmails.compare "received_at" "desc" a b = -1
  /\ UseEmails.compare "received_at" "desc" b a = -1
  /\ JsArray.sort (UseEmails.compare "received_at" "desc") [a; b] = [b; a]
  /\ JsArray.sort (UseEmails.compare "received_at" "asc") [a; b] = [b; a]
  /\ UseEmails.filteredEmails (UseEmails.hook (snd (UseEmails.applyFiltersAndSorting w)))
     = [b; a]
  /\ JsArray.sort (EmailManagement.compare "sent_date" "desc") [a; b] = [a; b]
  /\ JsArray.sort (EmailManagement.compare "sent_date" "asc") [a; b] = [a; b].
Proof. vm_compute. repeat split; reflexivity. Qed.

End SortFacts.

(** ** Dates *)

Section DateFacts.
Import JsDate.

Lemma msPerDay_pos : 0 < msPerDay.
Proof. reflexivity. Qed.

(** Every day number is the day number of its civil date, and a civil
    date has a month 1..12 and a day 1..31. *)
Lemma days_from_civil_of_civil_from_days (z : Z) :
  let '(y, m, d) := civil_from_days z in
  days_from_civil y m d = z /\ 1 <= m <= 12 /\ 1 <= d <= 31.
Proof.
  unfold civil_from_days, days_from_civil. cbv zeta.
  set (z' := z + 719468).
  set (era := z' / 146097).
  set (doe := z' - era * 146097).
  assert (Hdoe : 0 <= doe < 146097).
  { subst doe era. pose proof (Z.div_mod z' 146097 ltac:(lia)).
    pose proof (Z.mod_pos_bound z' 146097 ltac:(lia)). lia. }
  set (yoe := (doe - doe / 1460 + doe / 36524 - doe / 146096) / 365).
  set (doy := doe - (365 * yoe + yoe / 4 - yoe / 100)).
  set (mp := (5 * doy + 2) / 153).
  assert (Hy : 0 <= yoe <= 399 /\ 0 <= doy <= 365).
  { subst doy yoe. clearbody doe. clear z z' era. Z.div_mod_to_equations. lia. }
  assert (Hmp : 0 <= mp <= 11).
  { subst mp. destruct Hy as [_ Hd]. clearbody doy. Z.div_mod_to_equations. lia. }
  assert (Hd : 1 <= doy - (153 * mp + 2) / 5 + 1 <= 31).
  { subst mp. destruct Hy as [_ Hd]. clearbody doy. Z.div_mod_to_equations. lia. }
  assert (Hera : forall y', y' = yoe + era * 400 ->
            y' / 400 = era /\ y' - y' / 400 * 400 = yoe).
  { intros y' ->. rewrite Z.div_add by lia. rewrite Z.div_small by lia. lia. }
  assert (Hm : ((if mp <? 10 then mp + 3 else mp - 9) <=? 2) = negb (mp <? 10)).
  { destruct (mp <? 10) eqn:E; simpl.
    - apply Z.ltb_lt in E. apply Z.leb_gt. lia.
    - apply Z.ltb_ge in E. apply Z.leb_le. lia. }
  rewrite Hm.
  assert (Hmp' : (if 2 <? (if mp <? 10 then mp + 3 else mp - 9)
                  then (if mp <? 10 then mp + 3 else mp - 9) - 3
                  else (if mp <? 10 then mp + 3 else mp - 9) + 9) = mp).
  { destruct (mp <? 10) eqn:E.
    - apply Z.ltb_lt in E. destruct (2 <? mp + 3) eqn:E2; [lia|].
      apply Z.ltb_ge in E2. lia.
    - apply Z.ltb_ge in E. destruct (2 <? mp - 9) eqn:E2; [|lia].
      apply Z.ltb_lt in E2. lia. }
  rewrite Hmp'.
  split; [|split; [destruct (mp <? 10) eqn:E; [apply Z.ltb_lt in E | apply Z.ltb_ge in E]; lia
                  | exact Hd]].
  assert (Hy' : (if negb (mp <? 10)
                 then (if negb (mp <? 10) then yoe + era * 400 + 1 else yoe + era * 400) - 1
                 else (if negb (mp <? 10) then yoe + era * 400 + 1 else yoe + era * 400))
                = yoe + era * 400).
  { destruct (mp <? 10); simpl; lia. }
  rewrite Hy'. destruct (Hera _ eq_refl) as [-> ->].
  subst doy doe z'. lia.
Qed.

(** Two day numbers with the same civil date are one day. *)
Lemma civil_from_days_inj (a b : Z) :
  civil_from_days a = civil_from_days b -> a = b.
Proof.
  intros H.
  pose proof (days_from_civil_of_civil_from_days a) as Ha.
  pose proof (days_from_civil_of_civil_from_days b) as Hb.
  rewrite H in Ha. destruct (civil_from_days b) as [[y m] d].
  destruct Ha as [Ha _], Hb as [Hb _]. congruence.
Qed.

Lemma Day_LocalTime (tz : zone) (t : Z) : Day (LocalTime tz t) = Spec.local_day tz t.
Proof. reflexivity. Qed.

(** The instant [UTC] gives to the local time 00:00 of a day. *)
Lemma UTC_of_midnight (tz : zone) (day : Z) :
  UTC tz (MakeDate day 0) = Spec.start_of_day tz day.
Proof. unfold UTC, MakeDate, Spec.start_of_day. now rewrite Z.add_0_r. Qed.

Lemma setHours0_spec (tz : zone) (now : Z) :
  setHours0 tz now = Spec.start_of_local_day tz now.
Proof. unfold setHours0. now rewrite UTC_of_midnight, Day_LocalTime. Qed.

(** Where the current local day starts at midnight, the local time of
    its start is 00:00 of that day. *)
Lemma LocalTime_of_start (tz : zone) (now : Z) :
  Spec.starts_at_midnight tz now ->
  Day (LocalTime tz (Spec.start_of_local_day tz now)) = Spec.local_day tz now
  /\ TimeWithinDay (LocalTime tz (Spec.start_of_local_day tz now)) = 0.
Proof.
  unfold Spec.starts_at_midnight, LocalTime, Day, TimeWithinDay. cbv zeta. intros ->.
  pose proof msPerDay_pos.
  rewrite Z.div_mul by lia. rewrite Z.mod_mul by lia. split; reflexivity.
Qed.

(** A zone with a fixed offset skips no midnight, its days last 24
    hours, and the current one has started. *)
Lemma starts_at_midnight_fixed (tza now : Z) : Spec.starts_at_midnight (fixed tza) now.
Proof.
  unfold Spec.starts_at_midnight, Spec.start_of_local_day, Spec.start_of_day. simpl. lia.
Qed.

Lemma start_of_day_fixed (tza day k : Z) :
  Spec.start_of_day (fixed tza) (day - k) = Spec.start_of_day (fixed tza) day - k * msPerDay.
Proof. unfold Spec.start_of_day. simpl. lia. Qed.

Lemma start_of_local_day_fixed (tza now : Z) :
  let start := Spec.start_of_local_day (fixed tza) now in
  start <= now < start + msPerDay.
Proof.
  cbv zeta. unfold Spec.start_of_local_day, Spec.start_of_day, Spec.local_day. simpl.
  pose proof msPerDay_pos as Hpos.
  pose proof (Z.mod_pos_bound (now + tza) msPerDay Hpos) as Hm.
  pose proof (Z.div_mod (now + tza) msPerDay ltac:(lia)) as Hd.
  lia.
Qed.

(** [setDate(getDate() - k)] on the start of the current local day goes
    to the start of the local day [k] days before it. *)
Lemma setDate_days_back (tz : zone) (now k : Z) :
  Spec.starts_at_midnight tz now ->
  let today := setHours0 tz now in
  setDate tz today (getDate tz today - k)
  = Spec.start_of_day tz (Spec.local_day tz now - k).
Proof.
  intros Hm. cbv zeta. rewrite setHours0_spec.
  destruct (LocalTime_of_start tz now Hm) as [Hday Htime].
  unfold setDate, getDate, YearFromTime, MonthFromTime, DateFromTime, MakeDay.
  rewrite Htime, Hday, UTC_of_midnight.
  pose proof (days_from_civil_of_civil_from_days (Spec.local_day tz now)) as Hc.
  destruct (civil_from_days (Spec.local_day tz now)) as [[y m] d]. simpl fst. simpl snd.
  destruct Hc as (Hback & Hmonth & Hd).
  assert (Hdiv : (m - 1) / 12 = 0) by (apply Z.div_small; lia).
  assert (Hmod : (m - 1) mod 12 = m - 1) by (apply Z.mod_small; lia).
  rewrite Hdiv, Hmod.
  replace (y + 0) with y by lia. replace (m - 1 + 1) with m by lia.
  f_equal. rewrite <- Hback. unfold days_from_civil. lia.
Qed.

(** The month bounds the date filter builds with [new Date(y, m, d)]. *)
Lemma month_starts (tz : zone) (now : Z) :
  Spec.starts_at_midnight tz now ->
  Spec.year_as_written tz now ->
  let today := setHours0 tz now in
  newDate tz (getFullYear tz today) (getMonth tz today) 1
    = Spec.first_of_month tz now
  /\ newDate tz (getFullYear tz today) (getMonth tz today - 1) 1
    = Spec.first_of_previous_month tz now
  /\ newDate tz (getFullYear tz today) (getMonth tz today) 0
    = Spec.last_day_of_previous_month tz now.
Proof.
  intros Hm. cbv zeta. rewrite setHours0_spec.
  destruct (LocalTime_of_start tz now Hm) as [Hday _].
  unfold Spec.year_as_written, Spec.first_of_month, Spec.first_of_previous_month,
    Spec.last_day_of_previous_month, Spec.local_date, Spec.local_midnight, newDate,
    getFullYear, getMonth, YearFromTime, MonthFromTime, MakeDay.
  rewrite Hday, !UTC_of_midnight.
  pose proof (days_from_civil_of_civil_from_days (Spec.local_day tz now)) as Hc.
  destruct (civil_from_days (Spec.local_day tz now)) as [[y m] d].
  simpl fst. simpl snd. destruct Hc as (_ & Hmonth & _). intros Hy.
  assert (Hyr : (0 <=? y) && (y <=? 99) = false).
  { apply andb_false_iff. destruct (Z.leb_spec 0 y); [right | left; reflexivity].
    apply Z.leb_gt. lia. }
  rewrite Hyr.
  assert (Hdiv : (m - 1) / 12 = 0) by (apply Z.div_small; lia).
  assert (Hmod : (m - 1) mod 12 = m - 1) by (apply Z.mod_small; lia).
  rewrite Hdiv, Hmod.
  replace (y + 0) with y by lia. replace (m - 1 + 1) with m by lia.
  split; [f_equal; lia|]. split; [|f_equal; lia].
  destruct (m =? 1) eqn:E1.
  - apply Z.eqb_eq in E1. subst m. change ((1 - 1 - 1) / 12) with (-1).
    change ((1 - 1 - 1) mod 12 + 1) with 12. replace (y + -1) with (y - 1) by lia.
    f_equal. lia.
  - apply Z.eqb_neq in E1.
    assert (Hdiv' : (m - 1 - 1) / 12 = 0) by (apply Z.div_small; lia).
    assert (Hmod' : (m - 1 - 1) mod 12 = m - 1 - 1) by (apply Z.mod_small; lia).
    rewrite Hdiv', Hmod'. replace (y + 0) with y by lia.
    replace (m - 1 - 1 + 1) with (m - 1) by lia. f_equal. lia.
Qed.

(** The first day of a month is the civil date its day number has. *)
Lemma civil_from_days_of_first (y m : Z) :
  1 <= m <= 12 -> civil_from_days (days_from_civil y m 1) = (y, m, 1).
Proof.
  intros Hm. unfold civil_from_days, days_from_civil. cbv zeta.
  set (y' := if m <=? 2 then y - 1 else y).
  set (era := y' / 400).
  set (yoe := y' - era * 400).
  set (mp := if 2 <? m then m - 3 else m + 9).
  set (doy := (153 * mp + 2) / 5 + 1 - 1).
  set (doe := yoe * 365 + yoe / 4 - yoe / 100 + doy).
  assert (Hyoe : 0 <= yoe <= 399).
  { subst yoe era. pose proof (Z.div_mod y' 400 ltac:(lia)).
    pose proof (Z.mod_pos_bound y' 400 ltac:(lia)). lia. }
  assert (Hmp : 0 <= mp <= 11).
  { subst mp. destruct (2 <? m) eqn:E; [apply Z.ltb_lt in E | apply Z.ltb_ge in E]; lia. }
  assert (Hdoy : 0 <= doy <= 337 /\ (5 * doy + 2) / 153 = mp
                 /\ doy - (153 * mp + 2) / 5 + 1 = 1).
  { subst doy. clearbody mp. Z.div_mod_to_equations. lia. }
  destruct Hdoy as (Hdoy & Hback & Hday).
  assert (Hdoe : 0 <= doe < 146097
                 /\ (doe - doe / 1460 + doe / 36524 - doe / 146096) / 365 = yoe).
  { subst doe. clearbody doy yoe. Z.div_mod_to_equations. lia. }
  destruct Hdoe as (Hdoe & Hyback).
  assert (Hera : (era * 146097 + doe - 719468 + 719468) / 146097 = era).
  { replace (era * 146097 + doe - 719468 + 719468) with (doe + era * 146097) by lia.
    rewrite Z.div_add by lia. rewrite (Z.div_small doe) by lia. lia. }
  rewrite Hera.
  replace (era * 146097 + doe - 719468 + 719468 - era * 146097) with doe by lia.
  rewrite Hyback.
  replace (doe - (365 * yoe + yoe / 4 - yoe / 100)) with doy by (subst doe; lia).
  rewrite Hback, Hday.
  assert (Hmonth : (if mp <? 10 then mp + 3 else mp - 9) = m).
  { subst mp. destruct (2 <? m) eqn:E; [apply Z.ltb_lt in E | apply Z.ltb_ge in E].
    - destruct (m - 3 <? 10) eqn:E2; [lia | apply Z.ltb_ge in E2; lia].
    - destruct (m + 9 <? 10) eqn:E2; [apply Z.ltb_lt in E2; lia | lia]. }
  rewrite Hmonth. f_equal. f_equal.
  subst yoe y'. destruct (m <=? 2); lia.
Qed.

(** In a zone with a fixed offset the start of the first day of the
    current month is a local midnight on day 1 of the month and year of
    [now], not after the start of the current day. *)
Lemma first_of_month_spec (tza now : Z) :
  let tz := fixed tza in
  let '(y, m, _) := Spec.local_date tz now in
  let first := Spec.first_of_month tz now in
  Spec.local_date tz first = (y, m, 1)
  /\ TimeWithinDay (LocalTime tz first) = 0
  /\ first <= Spec.start_of_local_day tz now.
Proof.
  cbv zeta.
  unfold Spec.first_of_month, Spec.local_date, Spec.local_midnight,
    Spec.start_of_local_day, Spec.start_of_day, Spec.local_day, LocalTime,
    TimeWithinDay, fixed. cbn [offset_at offset_of_local].
  set (D := (now + tza) / msPerDay).
  pose proof (days_from_civil_of_civil_from_days D) as Hc.
  destruct (civil_from_days D) as [[y m] d].
  destruct Hc as (Hday & Hm & Hd).
  pose proof msPerDay_pos as Hpos.
  replace (days_from_civil y m 1 * msPerDay - tza + tza)
    with (days_from_civil y m 1 * msPerDay) by lia.
  rewrite Z.div_mul by lia. rewrite Z.mod_mul by lia.
  split; [apply civil_from_days_of_first; exact Hm|]. split; [reflexivity|].
  assert (Hlin : days_from_civil y m 1 <= days_from_civil y m d)
    by (unfold days_from_civil; lia).
  rewrite Hday in Hlin. nia.
Qed.

(** The branch of [matchesDate] each bucket name selects. *)
Lemma matchesDate_today (tz : zone) (now t : Z) :
  EmailManagement.matchesDate tz now "today" t = (setHours0 tz now <=? t).
Proof. reflexivity. Qed.

Lemma matchesDate_yesterday (tz : zone) (now t : Z) :
  EmailManagement.matchesDate tz now "yesterday" t
  = (let today := setHours0 tz now in
     (setDate tz today (getDate tz today - 1) <=? t) && (t <? today)).
Proof. reflexivity. Qed.

Lemma matchesDate_last7days (tz : zone) (now t : Z) :
  EmailManagement.matchesDate tz now "last7days" t
  = (let today := setHours0 tz now in setDate tz today (getDate tz today - 7) <=? t).
Proof. reflexivity. Qed.

Lemma matchesDate_last30days (tz : zone) (now t : Z) :
  EmailManagement.matchesDate tz now "last30days" t
  = (let today := setHours0 tz now in setDate tz today (getDate tz today - 30) <=? t).
Proof. reflexivity. Qed.

Lemma matchesDate_thisMonth (tz : zone) (now t : Z) :
  EmailManagement.matchesDate tz now "thisMonth" t
  = (let today := setHours0 tz now in
     newDate tz (getFullYear tz today) (getMonth tz today) 1 <=? t).
Proof. reflexivity. Qed.

Lemma matchesDate_lastMonth (tz : zone) (now t : Z) :
  EmailManagement.matchesDate tz now "lastMonth" t
  = (let today := setHours0 tz now in
     (newDate tz (getFullYear tz today) (getMonth tz today - 1) 1 <=? t)
     && (t <=? newDate tz (getFullYear tz today) (getMonth tz today) 0)).
Proof. reflexivity. Qed.

(** [toDateString] gives two instants the same text when they have the
    same local civil date; in a zone with a fixed offset these are the
    instants of one span of 24 hours. *)
Lemma sameDateString_spec (tz : zone) (t now : Z) :
  sameDateString tz t now = true <-> Spec.local_date tz t = Spec.local_date tz now.
Proof.
  unfold sameDateString, Spec.local_date. rewrite !Day_LocalTime, Z.eqb_eq. split.
  - now intros ->.
  - apply civil_from_days_inj.
Qed.

Lemma sameDateString_fixed (tza t now : Z) :
  sameDateString (fixed tza) t now = true
  <-> Spec.start_of_local_day (fixed tza) now <= t
      < Spec.start_of_local_day (fixed tza) now + msPerDay.
Proof.
  unfold sameDateString, Spec.start_of_local_day, Spec.start_of_day, Spec.local_day,
    Day, LocalTime. simpl.
  pose proof msPerDay_pos as Hpos.
  pose proof (Z.div_mod (now + tza) msPerDay ltac:(lia)) as Hn.
  pose proof (Z.mod_pos_bound (now + tza) msPerDay Hpos) as Hnb.
  pose proof (Z.div_mod (t + tza) msPerDay ltac:(lia)) as Ht.
  pose proof (Z.mod_pos_bound (t + tza) msPerDay Hpos) as Htb.
  rewrite Z.eqb_eq. split; intros H; nia.
Qed.

(** The ranges of the hook's date filter, record by record. *)
Lemma date_filter_today (tz : zone) (now : Z) (l : list Email.email) (e : Email.email) :
  In e (UseEmails.date_filter tz now "today" l)
  <-> In e l /\ Spec.local_date tz (Email.received_at e) = Spec.local_date tz now.
Proof.
  change (UseEmails.date_filter tz now "today" l)
    with (List.filter (fun email => sameDateString tz (Email.received_at email) now) l).
  rewrite List.filter_In, sameDateString_spec. reflexivity.
Qed.

Lemma date_filter_week (tz : zone) (now : Z) (l : list Email.email) (e : Email.email) :
  In e (UseEmails.date_filter tz now "week" l)
  <-> In e l /\ now - 7 * msPerDay <= Email.received_at e.
Proof.
  change (UseEmails.date_filter tz now "week" l)
    with (List.filter (fun email => now - 7 * 24 * 60 * 60 * 1000 <=? Email.received_at email) l).
  rewrite List.filter_In, Z.leb_le. unfold msPerDay. split; intros [H1 H2]; split; auto; lia.
Qed.

Lemma date_filter_month (tz : zone) (now : Z) (l : list Email.email) (e : Email.email) :
  In e (UseEmails.date_filter tz now "month" l)
  <-> In e l /\ now - 30 * msPerDay <= Email.received_at e.
Proof.
  change (UseEmails.date_filter tz now "month" l)
    with (List.filter (fun email => now - 30 * 24 * 60 * 60 * 1000 <=? Email.received_at email) l).
  rewrite List.filter_In, Z.leb_le. unfold msPerDay. split; intros [H1 H2]; split; auto; lia.
Qed.

Lemma date_filter_other (tz : zone) (now : Z) (name : string) (l : list Email.email) :
  ~ In name ["today"; "week"; "month"] -> UseEmails.date_filter tz now name l = l.
Proof.
  intros Hn. unfold UseEmails.date_filter.
  destruct (String.eqb_spec name "today") as [->|_]; [exfalso; apply Hn; simpl; auto|].
  destruct (String.eqb_spec name "week") as [->|_]; [exfalso; apply Hn; simpl; auto|].
  destruct (String.eqb_spec name "month") as [->|_]; [exfalso; apply Hn; simpl; auto|].
  reflexivity.
Qed.

(** X2: the date ranges of the hook.  [today] keeps the records whose
    local civil date, in the time zone of the host, is that of [now];
    in a zone with a fixed offset these are the records of the 24 hours
    from the start of the current local day.  [week] and [month] keep
    the records not older than [now] minus 7 and 30 days to the
    millisecond, with no upper bound; and the bucket names of
    [EmailManagement] ([yesterday], [last7days], [last30days],
    [thisMonth], [lastMonth]) are no ranges of the hook and filter
    nothing. *)
Lemma hook_date_filter_spec (tz : zone) (now : Z) (l : list Email.email)
    (e : Email.email) :
  (In e (UseEmails.date_filter tz now "today" l)
   <-> In e l /\ Spec.local_date tz (Email.received_at e) = Spec.local_date tz now)
  /\ (forall tza,
        In e (UseEmails.date_filter (fixed tza) now "today" l)
        <-> In e l /\ Spec.start_of_local_day (fixed tza) now <= Email.received_at e
                       < Spec.start_of_local_day (fixed tza) now + msPerDay)
  /\ (In e (UseEmails.date_filter tz now "week" l)
      <-> In e l /\ now - 7 * msPerDay <= Email.received_at e)
  /\ (In e (UseEmails.date_filter tz now "month" l)
      <-> In e l /\ now - 30 * msPerDay <= Email.received_at e)
  /\ UseEmails.date_filter tz now "yesterday" l = l
  /\ UseEmails.date_filter tz now "last7days" l = l
  /\ UseEmails.date_filter tz now "last30days" l = l
  /\ UseEmails.date_filter tz now "thisMonth" l = l
  /\ UseEmails.date_filter tz now "lastMonth" l = l.
Proof.
  split; [apply date_filter_today|]. split.
  { intros tza.
    change (UseEmails.date_filter (fixed tza) now "today" l)
      with (List.filter
              (fun email => sameDateString (fixed tza) (Email.received_at email) now) l).
    rewrite List.filter_In, sameDateString_fixed. reflexivity. }
  split; [apply date_filter_week|]. split; [apply date_filter_month|].
  repeat split; reflexivity.
Qed.

(** The hook's [today] across a change of clocks.  In New York, on
    2024-03-10 at 12:00 local time (16:00Z, after the clocks went
    forward), a record received at 04:30Z has the local date 9 March
    and is left out; the local day is the 23 hours from 05:00Z. *)
Lemma hook_date_filter_spec_clock_change :
  let now := 1710086400000 in
  let late_on_9_march := Email.mkEmail 1 None None None 1710045000000 "" "" "" "" in
  let first_of_the_day := Email.mkEmail 2 None None None 1710046800000 "" "" "" "" in
  let last_of_the_day := Email.mkEmail 3 None None None 1710129599999 "" "" "" "" in
  let next_day := Email.mkEmail 4 None None None 1710129600000 "" "" "" "" in
  let l := [late_on_9_march; first_of_the_day; last_of_the_day; next_day] in
  Spec.local_date Demo.new_york now = (2024, 3, 10)
  /\ Spec.local_date Demo.new_york (Email.received_at late_on_9_march) = (2024, 3, 9)
  /\ ~ In late_on_9_march (UseEmails.date_filter Demo.new_york now "today" l)
  /\ In first_of_the_day (UseEmails.date_filter Demo.new_york now "today" l)
  /\ In last_of_the_day (UseEmails.date_filter Demo.new_york now "today" l)
  /\ ~ In next_day (UseEmails.date_filter Demo.new_york now "today" l)
  /\ In late_on_9_march (UseEmails.date_filter Demo.new_york now "week" l).
Proof.
  cbv zeta.
  set (now := 1710086400000).
  set (l := [_; _; _; _]).
  split; [reflexivity|]. split; [reflexivity|].
  split.
  { intros H.
    apply (proj1 (hook_date_filter_spec Demo.new_york now l _)) in H.
    destruct H as [_ H]. vm_compute in H. discriminate H. }
  split.
  { apply (proj1 (hook_date_filter_spec Demo.new_york now l _)).
    split; [simpl; auto | reflexivity]. }
  split.
  { apply (proj1 (hook_date_filter_spec Demo.new_york now l _)).
    split; [simpl; auto | reflexivity]. }
  split.
  { intros H.
    apply (proj1 (hook_date_filter_spec Demo.new_york now l _)) in H.
    destruct H as [_ H]. vm_compute in H. discriminate H. }
  apply (proj1 (proj2 (proj2 (hook_date_filter_spec Demo.new_york now l _)))).
  split; [simpl; auto | vm_compute; discriminate].
Defined.

(** C2 (amended): the date filter of [filterAndSortEmails] in
    [EmailManagement], bucket by bucket, against the instant [now] the
    query reads and the time zone of the host.  [today]: the record is
    not older than the start of the current local day.  Where that day
    starts at midnight: [yesterday] holds the records in [start of
    yesterday, start of today); [last7days] and [last30days] those not
    older than the start of the local day 7 (30) days before today, a
    local midnight and not [now] minus 7 (30) days; and, for a current
    year outside 0..99, [thisMonth] holds those not older than the
    start of the first day of the current month, and [lastMonth] holds
    every record from the start of the first day of the previous month
    to the start of its last day, none older than that first day and,
    that last day starting before the current month, none from the
    start of the current month on.  [all] matches every record.  The
    hook has other buckets: [today] holds the records with the local
    civil date of [now], [week] and [month] those not older than [now]
    minus 7 and 30 days, and every other name holds every record. *)
Theorem date_buckets (tz : zone) (now receivedAt : Z) :
  let today := Spec.local_day tz now in
  let start := Spec.start_of_local_day tz now in
  let matchesDate := EmailManagement.matchesDate tz now in
  (matchesDate "today" receivedAt = true <-> start <= receivedAt)
  /\ (Spec.starts_at_midnight tz now ->
      (matchesDate "yesterday" receivedAt = true
       <-> Spec.start_of_day tz (today - 1) <= receivedAt < start)
      /\ (matchesDate "last7days" receivedAt = true
          <-> Spec.start_of_day tz (today - 7) <= receivedAt)
      /\ (matchesDate "last30days" receivedAt = true
          <-> Spec.start_of_day tz (today - 30) <= receivedAt))
  /\ (Spec.starts_at_midnight tz now -> Spec.year_as_written tz now ->
      (matchesDate "thisMonth" receivedAt = true
       <-> Spec.first_of_month tz now <= receivedAt)
      /\ (Spec.first_of_previous_month tz now <= receivedAt
          <= Spec.last_day_of_previous_month tz now ->
          matchesDate "lastMonth" receivedAt = true)
      /\ (matchesDate "lastMonth" receivedAt = true ->
          Spec.first_of_previous_month tz now <= receivedAt)
      /\ (Spec.last_day_of_previous_month tz now < Spec.first_of_month tz now ->
          matchesDate "lastMonth" receivedAt = true ->
          receivedAt < Spec.first_of_month tz now))
  /\ matchesDate "all" receivedAt = true
  /\ (forall (l : list Email.email) (e : Email.email),
        (In e (UseEmails.date_filter tz now "today" l)
         <-> In e l /\ Spec.local_date tz (Email.received_at e) = Spec.local_date tz now)
        /\ (In e (UseEmails.date_filter tz now "week" l)
            <-> In e l /\ now - 7 * msPerDay <= Email.received_at e)
        /\ (In e (UseEmails.date_filter tz now "month" l)
            <-> In e l /\ now - 30 * msPerDay <= Email.received_at e))
  /\ (forall (name : string) (l : list Email.email),
        ~ In name ["today"; "week"; "month"] ->
        UseEmails.date_filter tz now name l = l).
Proof.
  cbv zeta.
  split.
  { rewrite matchesDate_today, setHours0_spec. apply Z.leb_le. }
  split.
  { intros Hm.
    pose proof (setDate_days_back tz now 1 Hm) as H1.
    pose proof (setDate_days_back tz now 7 Hm) as H7.
    pose proof (setDate_days_back tz now 30 Hm) as H30.
    cbv zeta in H1, H7, H30.
    rewrite matchesDate_yesterday, matchesDate_last7days, matchesDate_last30days.
    cbv zeta. rewrite H1, H7, H30, setHours0_spec.
    split; [rewrite andb_true_iff, Z.leb_le, Z.ltb_lt; reflexivity|].
    split; apply Z.leb_le. }
  split.
  { intros Hm Hy. destruct (month_starts tz now Hm Hy) as (Hthis & Hprev & Hend).
    cbv zeta in Hthis, Hprev, Hend.
    rewrite matchesDate_thisMonth, matchesDate_lastMonth. cbv zeta.
    rewrite Hthis, Hprev, Hend.
    split; [apply Z.leb_le|].
    rewrite andb_true_iff, !Z.leb_le.
    split; [tauto|]. split; [tauto|]. lia. }
  split; [reflexivity|].
  split.
  { intros l e. split; [apply date_filter_today|].
    split; [apply date_filter_week | apply date_filter_month]. }
  intros name l. apply date_filter_other.
Qed.

(** The buckets in New York on 2024-03-15 at 10:00 local time (14:00Z),
    five days after the clocks went forward.  The day starts at
    04:00Z; the start of the local day seven days before is
    2024-03-08T05:00Z, so a record received on that day at 04:30Z is
    not in [last7days]; March starts at 2024-03-01T05:00Z and February
    at 2024-02-01T05:00Z. *)
Lemma date_buckets_in_new_york :
  let tz := Demo.new_york in
  let now := 1710511200000 in
  let matchesDate := EmailManagement.matchesDate tz now in
  Spec.starts_at_midnight tz now
  /\ Spec.year_as_written tz now
  /\ Spec.local_date tz now = (2024, 3, 15)
  /\ matchesDate "today" 1710475201000 = true
  /\ matchesDate "yesterday" 1710475201000 = false
  /\ matchesDate "yesterday" 1710475199000 = true
  /\ matchesDate "today" 1710475199000 = false
  /\ matchesDate "last7days" 1709872200000 = false
  /\ matchesDate "last7days" 1709874000000 = true
  /\ matchesDate "last30days" 1707886800000 = true
  /\ matchesDate "thisMonth" 1709269200000 = true
  /\ matchesDate "thisMonth" 1709269199999 = false
  /\ matchesDate "lastMonth" 1706763600000 = true
  /\ matchesDate "lastMonth" 1709182800000 = true
  /\ matchesDate "lastMonth" 1706763599999 = false
  /\ matchesDate "lastMonth" 1709269200000 = false.
Proof.
  cbv zeta.
  set (now := 1710511200000).
  assert (Hm : Spec.starts_at_midnight Demo.new_york now) by reflexivity.
  assert (Hdate : Spec.local_date Demo.new_york now = (2024, 3, 15)) by reflexivity.
  assert (Hy : Spec.year_as_written Demo.new_york now)
    by (unfold Spec.year_as_written; rewrite Hdate; lia).
  assert (Hstart : Spec.start_of_local_day Demo.new_york now = 1710475200000)
    by reflexivity.
  assert (H1 : Spec.start_of_day Demo.new_york (Spec.local_day Demo.new_york now - 1)
               = 1710388800000) by reflexivity.
  assert (H7 : Spec.start_of_day Demo.new_york (Spec.local_day Demo.new_york now - 7)
               = 1709874000000) by reflexivity.
  assert (H30 : Spec.start_of_day Demo.new_york (Spec.local_day Demo.new_york now - 30)
                = 1707886800000) by reflexivity.
  assert (Hthis : Spec.first_of_month Demo.new_york now = 1709269200000) by reflexivity.
  assert (Hprev : Spec.first_of_previous_month Demo.new_york now = 1706763600000)
    by reflexivity.
  assert (Hend : Spec.last_day_of_previous_month Demo.new_york now = 1709182800000)
    by reflexivity.
  assert (B : forall t,
            (EmailManagement.matchesDate Demo.new_york now "today" t = true
             <-> 1710475200000 <= t)
            /\ (EmailManagement.matchesDate Demo.new_york now "yesterday" t = true
                <-> 1710388800000 <= t < 1710475200000)
            /\ (EmailManagement.matchesDate Demo.new_york now "last7days" t = true
                <-> 1709874000000 <= t)
            /\ (EmailManagement.matchesDate Demo.new_york now "last30days" t = true
                <-> 1707886800000 <= t)
            /\ (EmailManagement.matchesDate Demo.new_york now "thisMonth" t = true
                <-> 1709269200000 <= t)
            /\ (1706763600000 <= t <= 1709182800000 ->
                EmailManagement.matchesDate Demo.new_york now "lastMonth" t = true)
            /\ (EmailManagement.matchesDate Demo.new_york now "lastMonth" t = true ->
                1706763600000 <= t < 1709269200000)).
  { intros t.
    destruct (date_buckets Demo.new_york now t) as (Ht & Hdays & Hmonths & _).
    cbv zeta in Ht, Hdays, Hmonths.
    destruct (Hdays Hm) as (Hyes & Hl7 & Hl30).
    destruct (Hmonths Hm Hy) as (Hmo & Hin & Hlow & Hup).
    rewrite Hstart in Ht, Hyes. rewrite H1 in Hyes. rewrite H7 in Hl7.
    rewrite H30 in Hl30. rewrite Hthis in Hmo, Hup. rewrite Hprev in Hin, Hlow.
    rewrite Hend in Hin, Hup.
    split; [exact Ht|]. split; [exact Hyes|]. split; [exact Hl7|].
    split; [exact Hl30|]. split; [exact Hmo|]. split; [exact Hin|].
    intros Hl. split; [exact (Hlow Hl) | apply Hup; [lia | exact Hl]]. }
  split; [exact Hm|]. split; [exact Hy|]. split; [reflexivity|].
  assert (No : forall name t (P : Prop),
            (EmailManagement.matchesDate Demo.new_york now name t = true -> P) ->
            ~ P -> EmailManagement.matchesDate Demo.new_york now name t = false).
  { intros name t P HP HnP.
    destruct (EmailManagement.matchesDate Demo.new_york now name t);
      [exfalso; apply HnP, HP; reflexivity | reflexivity]. }
  split; [apply (proj1 (B _)); lia|].
  split; [apply (No _ _ _ (proj1 (proj1 (proj2 (B _))))); lia|].
  split; [apply (proj1 (proj2 (B _))); lia|].
  split; [apply (No _ _ _ (proj1 (proj1 (B _)))); lia|].
  split; [apply (No _ _ _ (proj1 (proj1 (proj2 (proj2 (B _)))))); lia|].
  split; [apply (proj1 (proj2 (proj2 (B _)))); lia|].
  split; [apply (proj1 (proj2 (proj2 (proj2 (B _))))); lia|].
  split; [apply (proj1 (proj2 (proj2 (proj2 (proj2 (B _)))))); lia|].
  split; [apply (No _ _ _ (proj1 (proj1 (proj2 (proj2 (proj2 (proj2 (B _)))))))); lia|].
  split; [apply (proj1 (proj2 (proj2 (proj2 (proj2 (proj2 (B _))))))); lia|].
  split; [apply (proj1 (proj2 (proj2 (proj2 (proj2 (proj2 (B _))))))); lia|].
  split; [apply (No _ _ _ (proj2 (proj2 (proj2 (proj2 (proj2 (proj2 (B _)))))))); lia|].
  apply (No _ _ _ (proj2 (proj2 (proj2 (proj2 (proj2 (proj2 (B _)))))))); lia.
Defined.

(** C2, as first stated, fails for [last7days] and [last30days]: with
    [now] = 2024-03-15T10:00:00 (local time UTC), a record received on
    2024-03-08 at 05:00:00 is older than [now] minus 7 days and is in
    [last7days]; one received on 2024-02-14 at 05:00:00 is older than
    [now] minus 30 days and is in [last30days]. *)
Lemma last7days_counts_from_midnight :
  let now := Demo.now in
  let march8_5am := now - 7 * msPerDay - 5 * 3600000 in
  let february14_5am := now - 30 * msPerDay - 5 * 3600000 in
  EmailManagement.matchesDate Demo.utc now "last7days" march8_5am = true
  /\ march8_5am < now - 7 * msPerDay
  /\ EmailManagement.matchesDate Demo.utc now "last30days" february14_5am = true
  /\ february14_5am < now - 30 * msPerDay.
Proof. vm_compute. repeat split; reflexivity. Qed.

(** The boundary of [today] and [yesterday] at
    [now] = 2024-03-15T10:00:00. *)
Example today_and_yesterday_boundary :
  EmailManagement.matchesDate Demo.utc Demo.now "today" Demo.just_after_midnight = true
  /\ EmailManagement.matchesDate Demo.utc Demo.now "yesterday" Demo.just_after_midnight
     = false
  /\ EmailManagement.matchesDate Demo.utc Demo.now "yesterday" Demo.just_before_midnight
     = true
  /\ EmailManagement.matchesDate Demo.utc Demo.now "today" Demo.just_before_midnight
     = false.
Proof. vm_compute. repeat split; reflexivity. Qed.

(** What the amended claim leaves open: [lastMonth] ends at the start
    of the last day of the previous month, so a record received at noon
    of 2024-02-29 is left out. *)
Example lastMonth_leaves_out_the_last_day :
  let noon_feb29 := 1709208000000 in
  Spec.local_date Demo.utc noon_feb29 = (2024, 2, 29)
  /\ EmailManagement.matchesDate Demo.utc Demo.now "lastMonth" noon_feb29 = false
  /\ EmailManagement.matchesDate Demo.utc Demo.now "lastMonth" (noon_feb29 - 12 * 3600000)
     = true.
Proof. vm_compute. repeat split; reflexivity. Qed.

End DateFacts.

(** ** Instances on concrete worlds *)

Section Instances.
Import UseEmails Api.

(** The failed load of C4 on a hook that holds two records while the
    remote boundary rejects every request. *)
Lemma loadEmails_failure_keeps_snapshot_offline :
  let w := Demo.world_with (Demo.state_with [Demo.email1; Demo.email2] [])
             Demo.offline in
  Spec.load_fetches true w
  /\ Spec.answer w Spec.getEmails_request = Rejected (RequestError "Network Error")
  /\ fst (loadEmails true w) = Returned tt
  /\ error (hook (snd (loadEmails true w))) = Some "Network Error"
  /\ emails (hook (snd (loadEmails true w))) = [Demo.email1; Demo.email2]
  /\ stats (hook (snd (loadEmails true w))) = stats (hook w).
Proof.
  cbv zeta.
  set (w := Demo.world_with _ _).
  assert (Hf : Spec.load_fetches true w) by (left; reflexivity).
  assert (Ha : Spec.answer w Spec.getEmails_request
               = Rejected (RequestError "Network Error")) by reflexivity.
  pose proof (loadEmails_failure_keeps_snapshot true w _ Hf Ha) as H.
  cbv zeta in H.
  destruct H as (H1 & H2 & _ & H4 & _ & _ & _ & _ & H9 & _).
  split; [exact Hf|]. split; [exact Ha|]. split; [exact H1|].
  split; [exact H2|]. split; [exact H4|]. exact H9.
Defined.

(** The urgent count of C10 on two records that [processEmails] labelled. *)
Lemma urgent_count_of_classified_snapshot_processed :
  let raw1 := Email.mkEmail 1 None (Some "URGENT: system access blocked") None 0
                "" "" "" "" in
  let raw2 := Email.mkEmail 2 None (Some "need help logging in") None 0 "" "" "" "" in
  let st := Demo.state_with (EmailManagement.processEmails [raw1; raw2]) [] in
  List.map Email.priority (emails st) = ["high"; "medium"]
  /\ urgent (stats st) = 0
  /\ Sidebar.urgentCount (Sidebar.load (emails st)) = 0.
Proof.
  cbv zeta. split; [reflexivity|].
  apply urgent_count_of_classified_snapshot.
  repeat constructor.
Defined.

(** The pagination of C6 on two records, twenty to a page, when page 5
    is asked for. *)
Lemma pagination_slice_reset_clamp_two_records :
  let w := Demo.world_with (Demo.state_with [Demo.email1; Demo.email2] [])
             Demo.offline in
  0 < pageSize (hook w)
  /\ 1 <= currentPage (hook w)
  /\ nth_error (paginatedEmails (hook w)) 1 = Some Demo.email2
  /\ currentPage (hook (snd (goToPage 5 w))) = 1.
Proof.
  cbv zeta.
  set (w := Demo.world_with _ _).
  assert (Hs : 0 < pageSize (hook w)) by reflexivity.
  assert (Hp : 1 <= currentPage (hook w)) by (simpl; lia).
  pose proof (pagination_slice_reset_clamp w 5 Hs Hp) as H.
  cbv zeta in H. destruct H as (Hslice & _ & _ & _ & Hclamp & _).
  split; [exact Hs|]. split; [exact Hp|]. split.
  - rewrite Hslice. reflexivity.
  - destruct Hclamp as (_ & _ & _ & Hmax). rewrite Hmax; reflexivity.
Defined.

End Instances.

(** ** Loading: the cache window and the fetched list *)

Section LoadMore.
Import UseEmails Api.

Lemma find_app {A : Type} (p : A -> bool) (l1 l2 : list A) :
  List.find p (l1 ++ l2)
  = match List.find p l1 with
    | Some x => Some x
    | None => List.find p l2
    end.
Proof.
  induction l1 as [|x l1 IH]; simpl; [reflexivity|].
  destruct (p x); [reflexivity | exact IH].
Qed.

(** The cache built from a list maps an identifier to the last record
    of the list that has it. *)
Lemma cache_of_from (l : list Email.email) (m : gmap Z Email.email) (i : Z) :
  fold_left (fun newCache email => <[Email.id email := email]> newCache) l m !! i
  = match Terms.last_with_id i l with
    | Some e => Some e
    | None => m !! i
    end.
Proof.
  unfold Terms.last_with_id. revert m.
  induction l as [|x l IH]; intros m; simpl; [reflexivity|].
  rewrite IH, find_app. destruct (List.find _ (List.rev l)); [reflexivity|].
  simpl. destruct (Z.eqb_spec (Email.id x) i) as [->|Hne].
  - apply lookup_insert_eq.
  - apply lookup_insert_ne. exact Hne.
Qed.

Lemma cache_of_lookup (l : list Email.email) (i : Z) :
  cache_of l !! i = Terms.last_with_id i l.
Proof.
  unfold cache_of. rewrite cache_of_from.
  destruct (Terms.last_with_id i l); [reflexivity | apply lookup_empty].
Qed.

Lemma last_with_id_None (l : list Email.email) (i : Z) :
  Terms.last_with_id i l = None <-> ~ In i (List.map Email.id l).
Proof.
  unfold Terms.last_with_id. split.
  - intros Hnone Hin. apply List.in_map_iff in Hin. destruct Hin as (e & He & Hin).
    assert (Hrev : In e (List.rev l)) by now apply List.in_rev in Hin.
    pose proof (List.find_none _ _ Hnone e Hrev) as Hf. simpl in Hf.
    apply Z.eqb_neq in Hf. contradiction.
  - intros Hnot. destruct (List.find _ _) as [e|] eqn:E; [|reflexivity].
    apply List.find_some in E. destruct E as [Hin He]. exfalso. apply Hnot.
    apply List.in_map_iff. exists e. split; [now apply Z.eqb_eq|].
    now apply List.in_rev.
Qed.

(** A load that is not forced does nothing but clear the error flag and
    [loading] while the last fetch is younger than the cache duration. *)
Lemma loadEmails_cached (w : world) (t : Z) :
  lastFetch (hook w) = Some t -> t <> 0 -> clock w - t < CACHE_DURATION ->
  loadEmails false w = (Returned tt, Spec.with_hook w (Terms.settled (hook w))).
Proof.
  intros Hl Ht Hage.
  unfold loadEmails, try_finally, try_catch, mbind, M_bind, mret, M_ret,
    setError, setLoading, modify, Date_now, get_state. simpl.
  rewrite Hl. simpl.
  destruct (Z.eqb_spec t 0) as [E|_]; [contradiction|].
  destruct (Z.ltb_spec (clock w - t) CACHE_DURATION) as [_|Hge]; [|lia].
  simpl. unfold Spec.with_hook, Terms.settled. rewrite Hl. reflexivity.
Qed.

(** What a load that reaches the fetch does when the fetch resolves. *)
Lemma loadEmails_resolved (forceRefresh : bool) (w : world) (data : response) :
  Spec.load_fetches forceRefresh w ->
  Spec.answer w Spec.getEmails_request = Resolved data ->
  loadEmails forceRefresh w =
    (Returned tt,
     mkWorld (Terms.loaded (hook w) (clock w) (default [] (data_emails data)))
       (clock w) (tza w) (remote w)
       (log w ++ [(Spec.getEmails_request,
                   mkState (emails (hook w)) (filteredEmails (hook w)) true None
                     (refreshing (hook w)) (filters (hook w)) (sortBy (hook w))
                     (sortOrder (hook w)) (viewMode (hook w)) (currentPage (hook w))
                     (pageSize (hook w)) (totalEmails (hook w)) (selectedEmails (hook w))
                     (selectAll (hook w)) (emailCache (hook w)) (lastFetch (hook w)))])%list).
Proof.
  intros Hf Hr. apply load_fetches_test in Hf.
  unfold Spec.answer, Spec.getEmails_request in Hr.
  unfold loadEmails, try_finally, try_catch, mbind, M_bind, mret, M_ret,
    setError, setLoading, setEmails, setEmails_with, setTotalEmails, setLastFetch,
    setEmailCache, setEmailCache_with, modify, Date_now, get_state, call_emailAPI. simpl.
  rewrite Hf. unfold send. simpl. rewrite Hr. reflexivity.
Qed.

(** X3: a load that is not forced, made while the last fetch is younger
    than the cache duration (five minutes), sends no request and returns
    normally; the snapshot, the filtered view, the cache, the selection
    and the time of the last fetch stay as they are, and only the error
    flag (cleared) and [loading] (off) may change. *)
Theorem loadEmails_within_cache_duration (w : world) (t : Z) :
  lastFetch (hook w) = Some t -> t <> 0 -> clock w - t < CACHE_DURATION ->
  let result := fst (loadEmails false w) in
  let after := snd (loadEmails false w) in
  result = Returned tt
  /\ log after = log w
  /\ hook after = Terms.settled (hook w)
  /\ emails (hook after) = emails (hook w)
  /\ filteredEmails (hook after) = filteredEmails (hook w)
  /\ emailCache (hook after) = emailCache (hook w)
  /\ lastFetch (hook after) = lastFetch (hook w)
  /\ error (hook after) = None
  /\ loading (hook after) = false.
Proof.
  intros Hl Ht Hage. cbv zeta. rewrite (loadEmails_cached w t Hl Ht Hage).
  simpl. repeat split; reflexivity.
Qed.

(** X4: when the fetch of a load resolves, the load installs the
    fetched list: the snapshot is the list, the count its length, the
    time of the last fetch the instant of the load, the error flag is
    cleared and [loading] is off, while the filtered view and the
    selection are left as they were.  The cache answers [getEmailById]
    with the last record of the list that has the identifier, and with
    nothing exactly for the identifiers the list does not hold.  A load
    that follows at the same instant without being forced sends nothing
    and changes nothing. *)
Theorem loadEmails_installs_the_fetched_list
    (forceRefresh : bool) (w : world) (data : response) :
  Spec.load_fetches forceRefresh w ->
  Spec.answer w Spec.getEmails_request = Resolved data ->
  let emailList := default [] (data_emails data) in
  let after := snd (loadEmails forceRefresh w) in
  fst (loadEmails forceRefresh w) = Returned tt
  /\ hook after = Terms.loaded (hook w) (clock w) emailList
  /\ emails (hook after) = emailList
  /\ totalEmails (hook after) = Z.of_nat (length emailList)
  /\ lastFetch (hook after) = Some (clock w)
  /\ filteredEmails (hook after) = filteredEmails (hook w)
  /\ selectedEmails (hook after) = selectedEmails (hook w)
  /\ List.map fst (log after) = (List.map fst (log w) ++ [Spec.getEmails_request])%list
  /\ (forall id, getEmailById (hook after) id = Terms.last_with_id id emailList)
  /\ (forall id, getEmailById (hook after) id = None
                 <-> ~ In id (List.map Email.id emailList))
  /\ (clock w <> 0 -> loadEmails false after = (Returned tt, after)).
Proof.
  intros Hf Hr. cbv zeta. rewrite (loadEmails_resolved _ _ _ Hf Hr). simpl.
  do 7 (split; [reflexivity|]).
  split; [now rewrite List.map_app|].
  split; [intros id; unfold getEmailById; simpl; apply cache_of_lookup|].
  split.
  - intros id. unfold getEmailById. simpl. rewrite cache_of_lookup.
    apply last_with_id_None.
  - intros Hclock. erewrite loadEmails_cached; [reflexivity|reflexivity|exact Hclock|].
    simpl. unfold CACHE_DURATION. lia.
Qed.

End LoadMore.

(** ** Selection *)

Section SelectionFacts.
Import UseEmails Api SelectionEffect.

Lemma selected_spec (emailId : Z) (l : list Z) :
  existsb (Z.eqb emailId) l = true <-> In emailId l.
Proof.
  rewrite existsb_exists. split.
  - intros (y & Hin & Heq). apply Z.eqb_eq in Heq. now subst.
  - intros Hin. exists emailId. split; [exact Hin | apply Z.eqb_refl].
Qed.

Lemma unselect_In (emailId other : Z) (l : list Z) :
  In other (List.filter (fun id => negb (id =? emailId)) l)
  <-> In other l /\ other <> emailId.
Proof.
  rewrite List.filter_In, negb_true_iff, Z.eqb_neq. reflexivity.
Qed.

Lemma unselect_absent (emailId : Z) (l : list Z) :
  ~ In emailId l -> List.filter (fun id => negb (id =? emailId)) l = l.
Proof.
  induction l as [|x l IH]; simpl; [reflexivity|]. intros Hnot.
  destruct (Z.eqb_spec x emailId) as [->|Hne]; simpl.
  - exfalso. apply Hnot. now left.
  - f_equal. apply IH. tauto.
Qed.

(** X5: [toggleEmailSelection] flips the membership of the identifier
    and of no other one; a selection without repeated identifiers stays
    without them; and toggling an identifier that was not selected twice
    gives the selection back as it was. *)
Theorem toggleEmailSelection_flips_membership (emailId : Z) (w : world) :
  let before := selectedEmails (hook w) in
  let once := snd (toggleEmailSelection emailId w) in
  let after := selectedEmails (hook once) in
  fst (toggleEmailSelection emailId w) = Returned tt
  /\ (In emailId after <-> ~ In emailId before)
  /\ (forall other, other <> emailId -> (In other after <-> In other before))
  /\ (List.NoDup before -> List.NoDup after)
  /\ (~ In emailId before ->
      selectedEmails (hook (snd (toggleEmailSelection emailId once))) = before).
Proof.
  cbv zeta. unfold toggleEmailSelection, setSelectedEmails_with, modify. simpl.
  destruct (existsb (Z.eqb emailId) (selectedEmails (hook w))) eqn:E.
  - apply selected_spec in E.
    split; [reflexivity|]. split; [|split; [|split]].
    + rewrite unselect_In. tauto.
    + intros other Hne. rewrite unselect_In. tauto.
    + intros Hnd. now apply List.NoDup_filter.
    + tauto.
  - assert (Hnot : ~ In emailId (selectedEmails (hook w))).
    { rewrite <- selected_spec, E. discriminate. }
    split; [reflexivity|]. split; [|split; [|split]].
    + rewrite List.in_app_iff. simpl. tauto.
    + intros other Hne. rewrite List.in_app_iff. simpl.
      split; [intros [H|[H|[]]]; [exact H | congruence] | tauto].
    + intros Hnd. apply List.NoDup_app; [exact Hnd | repeat constructor; intros [] |].
      intros x Hx [<-|[]]. contradiction.
    + intros _.
      assert (Hin : existsb (Z.eqb emailId) (selectedEmails (hook w) ++ [emailId]) = true).
      { apply selected_spec, List.in_or_app. right. now left. }
      rewrite Hin, List.filter_app, (unselect_absent _ _ Hnot). simpl.
      rewrite Z.eqb_refl. simpl. apply List.app_nil_r.
Qed.

Lemma unselect_length (emailId other : Z) (l : list Z) :
  In emailId l -> In other l -> other <> emailId ->
  (0 < length (List.filter (fun id => negb (id =? emailId)%Z) l) < length l)%nat.
Proof.
  intros Hin Hother Hne. split.
  - assert (H : In other (List.filter (fun id => negb (id =? emailId)) l))
      by (apply unselect_In; tauto).
    destruct (List.filter _ l); [destruct H | simpl; lia].
  - clear Hother Hne. induction l as [|x l IH]; [destruct Hin|]. simpl.
    destruct (Z.eqb_spec x emailId) as [->|Hx]; simpl.
    + pose proof (List.filter_length_le (fun id => negb (id =? emailId)) l). lia.
    + destruct Hin as [->|Hin]; [contradiction|]. specialize (IH Hin). lia.
Qed.

(** X6: the select-all flag goes stale.  When the filtered view holds
    the record [emailId] and a record with another identifier, ticking
    "select all" selects every record of the view and sets the flag;
    unticking [emailId] afterwards takes it out of the selection, but
    the effect that follows leaves the flag set: it clears the flag only
    for an empty selection. *)
Theorem selectAll_stays_set_after_unticking (w : world) (emailId other : Z) :
  let ids := List.map Email.id (filteredEmails (hook w)) in
  In emailId ids -> In other ids -> other <> emailId ->
  let all := snd (selection_rendered (selectAllEmails true) w) in
  let unticked := snd (selection_rendered (toggleEmailSelection emailId) all) in
  selectedEmails (hook all) = ids
  /\ selectAll (hook all) = true
  /\ selectedEmails (hook unticked) = List.filter (fun id => negb (id =? emailId)) ids
  /\ ~ In emailId (selectedEmails (hook unticked))
  /\ In other (selectedEmails (hook unticked))
  /\ selectAll (hook unticked) = true.
Proof.
  cbv zeta. intros Hin Hother Hne.
  pose proof (unselect_length emailId other _ Hin Hother Hne) as Hlen.
  assert (Hsel : existsb (Z.eqb emailId) (List.map Email.id (filteredEmails (hook w))) = true)
    by now apply selected_spec.
  assert (Hall : snd (selection_rendered (selectAllEmails true) w)
                 = Spec.with_hook w
                     (mkState (emails (hook w)) (filteredEmails (hook w)) (loading (hook w))
                        (error (hook w)) (refreshing (hook w)) (filters (hook w))
                        (sortBy (hook w)) (sortOrder (hook w)) (viewMode (hook w))
                        (currentPage (hook w)) (pageSize (hook w)) (totalEmails (hook w))
                        (List.map Email.id (filteredEmails (hook w))) true
                        (emailCache (hook w)) (lastFetch (hook w)))).
  { unfold selection_rendered, selectAllEmails, updateSelectAll, mbind, M_bind, mret, M_ret,
      get_state, setSelectedEmails, setSelectedEmails_with, setSelectAll, modify. simpl.
    rewrite List.length_map in *.
    destruct (Z.eqb_spec (Z.of_nat (length (filteredEmails (hook w)))) 0) as [E|_]; [lia|].
    rewrite Z.eqb_refl. reflexivity. }
  rewrite Hall.
  unfold selection_rendered, toggleEmailSelection, updateSelectAll, mbind, M_bind, mret,
    M_ret, get_state, setSelectedEmails_with, setSelectAll, modify. simpl.
  rewrite Hsel. rewrite List.length_map in Hlen.
  destruct (Z.eqb_spec (Z.of_nat (length (List.filter (fun id => negb (id =? emailId))
              (List.map Email.id (filteredEmails (hook w)))))) 0) as [E|_]; [lia|].
  destruct (Z.eqb_spec (Z.of_nat (length (List.filter (fun id => negb (id =? emailId))
              (List.map Email.id (filteredEmails (hook w))))))
              (Z.of_nat (length (filteredEmails (hook w))))) as [E|_]; [lia|].
  simpl. repeat split.
  - intros H. apply unselect_In in H. tauto.
  - apply unselect_In. tauto.
Qed.

End SelectionFacts.

(** ** Bulk operations, for every selection *)

Section BulkMore.
Import UseEmails Api.

(** X7: the two bulk operations are one operation.  With an empty
    selection each returns at once and leaves the world as it is.  With
    a selection each empties the selection, clears the select-all flag,
    and reloads: the fetch of the reload is the only request sent, no
    error is thrown whatever the fetch answers, and [loading] is off at
    the end; the status asked for plays no part, and [bulkDelete] leaves
    the very same world as [bulkUpdateStatus]. *)
Theorem bulk_operations_only_reload (status : string) (w : world) :
  bulkDelete w = bulkUpdateStatus status w
  /\ fst (bulkUpdateStatus status w) = Returned tt
  /\ (selectedEmails (hook w) = [] -> bulkUpdateStatus status w = (Returned tt, w))
  /\ (selectedEmails (hook w) <> [] ->
      let after := snd (bulkUpdateStatus status w) in
      List.map fst (log after) = (List.map fst (log w) ++ [Spec.getEmails_request])%list
      /\ selectedEmails (hook after) = []
      /\ selectAll (hook after) = false
      /\ loading (hook after) = false
      /\ match Spec.answer w Spec.getEmails_request with
         | Resolved data => emails (hook after) = default [] (data_emails data)
         | Rejected _ => emails (hook after) = emails (hook w)
         end).
Proof.
  destruct (selectedEmails (hook w)) as [|i sel] eqn:Es.
  - assert (Hu : bulkUpdateStatus status w = (Returned tt, w)).
    { unfold bulkUpdateStatus, mbind, M_bind, get_state. rewrite Es. reflexivity. }
    assert (Hd : bulkDelete w = (Returned tt, w)).
    { unfold bulkDelete, mbind, M_bind, get_state. rewrite Es. reflexivity. }
    rewrite Hu, Hd. repeat split; congruence.
  - assert (Hsel : selectedEmails (hook w) <> []) by (rewrite Es; discriminate).
    rewrite (bulkUpdateStatus_run status w Hsel), (bulkDelete_run w Hsel).
    split; [reflexivity|]. split; [reflexivity|]. split; [discriminate|]. intros _.
    cbv zeta. simpl. rewrite refreshEmails_run. simpl.
    change (Spec.answer (Spec.with_hook w (Spec.deselected (hook w))))
      with (Spec.answer w).
    split; [now rewrite List.map_app|].
    unfold Spec.answer. destruct (remote w _ _); repeat split; reflexivity.
Qed.

End BulkMore.

(** ** The cache and the snapshot *)

Section CacheFacts.
Import UseEmails Api.

Lemma find_map {A B : Type} (p : B -> bool) (f : A -> B) (l : list A) :
  List.find p (List.map f l) = option_map f (List.find (fun x => p (f x)) l).
Proof.
  induction l as [|x l IH]; simpl; [reflexivity|]. destruct (p (f x)); [reflexivity | exact IH].
Qed.

Lemma find_ext {A : Type} (p q : A -> bool) (l : list A) :
  (forall x, p x = q x) -> List.find p l = List.find q l.
Proof.
  intros H. induction l as [|x l IH]; simpl; [reflexivity|]. now rewrite H, IH.
Qed.

Lemma find_filter {A : Type} (p q : A -> bool) (l : list A) :
  (forall x, q x = true -> p x = true) ->
  List.find q (List.filter p l) = List.find q l.
Proof.
  intros Hqp. induction l as [|x l IH]; simpl; [reflexivity|].
  destruct (q x) eqn:Eq.
  - rewrite (Hqp x Eq). simpl. now rewrite Eq.
  - destruct (p x); simpl; [now rewrite Eq | exact IH].
Qed.

Lemma last_with_id_found (i : Z) (l : list Email.email) (e : Email.email) :
  Terms.last_with_id i l = Some e -> Email.id e = i.
Proof.
  unfold Terms.last_with_id. intros H. apply List.find_some in H.
  now apply Z.eqb_eq.
Qed.

(** Putting a patch that keeps the identifiers on the records of a list
    puts it on the cache entry. *)
Lemma cache_of_patch (emailId : Z) (updates : Email.updates) (l : list Email.email) :
  Email.upd_id updates = None ->
  cache_of (List.map (fun email =>
              if Email.id email =? emailId then Email.spread email updates else email) l)
  = match cache_of l !! emailId with
    | Some email => <[emailId := Email.spread email updates]> (cache_of l)
    | None => cache_of l
    end.
Proof.
  intros Hid. set (f := fun email : Email.email => _).
  assert (Hf : forall e, Email.id (f e) = Email.id e).
  { intros e. subst f. cbv beta. destruct (Email.id e =? emailId); [|reflexivity].
    unfold Email.spread. simpl. now rewrite Hid. }
  assert (Hlast : forall i, Terms.last_with_id i (List.map f l)
                            = option_map f (Terms.last_with_id i l)).
  { intros i. unfold Terms.last_with_id. rewrite <- List.map_rev, find_map.
    f_equal. apply find_ext. intros e. now rewrite Hf. }
  assert (Hother : forall i e, Terms.last_with_id i l = Some e -> i <> emailId -> f e = e).
  { intros i e He Hne. apply last_with_id_found in He. subst f. cbv beta.
    destruct (Z.eqb_spec (Email.id e) emailId); [congruence | reflexivity]. }
  apply map_eq. intros i. rewrite cache_of_lookup, Hlast.
  rewrite (cache_of_lookup l emailId).
  destruct (Terms.last_with_id emailId l) as [e|] eqn:Ee.
  - destruct (Z.eq_dec emailId i) as [<-|Hne].
    + rewrite lookup_insert_eq, Ee. simpl. f_equal.
      apply last_with_id_found in Ee. subst f. cbv beta.
      destruct (Z.eqb_spec (Email.id e) emailId); [reflexivity | contradiction].
    + rewrite lookup_insert_ne by exact Hne. rewrite cache_of_lookup.
      destruct (Terms.last_with_id i l) as [e'|] eqn:Ei; [|reflexivity].
      simpl. f_equal. apply (Hother i e' Ei). congruence.
  - rewrite cache_of_lookup.
    destruct (Terms.last_with_id i l) as [e'|] eqn:Ei; [|reflexivity].
    simpl. f_equal. apply (Hother i e' Ei). intros ->. congruence.
Qed.

(** Taking the records with an identifier out of a list takes its entry
    out of the cache. *)
Lemma cache_of_remove (emailId : Z) (l : list Email.email) :
  cache_of (List.filter (fun email => negb (Email.id email =? emailId)) l)
  = delete emailId (cache_of l).
Proof.
  apply map_eq. intros i. rewrite cache_of_lookup.
  destruct (Z.eq_dec emailId i) as [<-|Hne].
  - rewrite lookup_delete_eq. apply last_with_id_None. intros Hin.
    apply List.in_map_iff in Hin. destruct Hin as (e & He & Hin).
    apply List.filter_In in Hin. destruct Hin as [_ Hin].
    apply negb_true_iff, Z.eqb_neq in Hin. contradiction.
  - rewrite lookup_delete_ne by exact Hne. rewrite cache_of_lookup.
    unfold Terms.last_with_id. rewrite <- List.filter_rev. apply find_filter.
    intros e He. apply Z.eqb_eq in He. apply negb_true_iff, Z.eqb_neq. congruence.
Qed.

(** What an update and a delete do, by the answer to the update. *)
Lemma updateEmail_run (emailId : Z) (updates : Email.updates) (w : world) :
  let called :=
    Spec.logged (Spec.with_hook w (Spec.patch_store emailId updates (hook w)))
      (Spec.updateEmail_request emailId updates) in
  updateEmail emailId updates w
  = match Spec.answer w (Spec.updateEmail_request emailId updates) with
    | Resolved _ => (Returned tt, called)
    | Rejected err => (Thrown err, snd (refreshEmails called))
    end.
Proof.
  cbv zeta.
  unfold updateEmail, try_catch, mbind, M_bind, mret, M_ret, setEmails_with,
    setEmailCache_with, modify, call_emailAPI, send, throw, Spec.answer. simpl.
  destruct (remote w _ _) as [data|err]; [reflexivity|].
  rewrite !refreshEmails_run. reflexivity.
Qed.

Lemma deleteEmail_run (emailId : Z) (w : world) :
  deleteEmail emailId w
  = (Thrown (TypeError "emailAPI.deleteEmail is not a function"),
     snd (refreshEmails (Spec.with_hook w (Spec.remove_from_store emailId (hook w))))).
Proof.
  unfold deleteEmail, try_catch, mbind, M_bind, mret, M_ret, setEmails_with,
    setFilteredEmails_with, setEmailCache_with, modify, call_emailAPI, throw. simpl.
  rewrite !refreshEmails_run. reflexivity.
Qed.

Lemma refreshed_in_step (st : state) (now : Z) (answer : api_result) :
  Terms.cache_in_step st -> Terms.cache_in_step (Spec.refreshed st now answer).
Proof. intros H. destruct answer; [reflexivity | exact H]. Qed.

Lemma loadEmails_in_step (forceRefresh : bool) (w : world) :
  Terms.cache_in_step (hook w) ->
  Terms.cache_in_step (hook (snd (loadEmails forceRefresh w))).
Proof.
  intros H.
  unfold loadEmails, try_finally, try_catch, mbind, M_bind, mret, M_ret,
    setError, setLoading, setEmails, setEmails_with, setTotalEmails, setLastFetch,
    setEmailCache, setEmailCache_with, modify, Date_now, get_state, call_emailAPI, send.
  simpl.
  destruct (negb forceRefresh && truthy_num (lastFetch (hook w))
            && (clock w - default 0 (lastFetch (hook w)) <? CACHE_DURATION));
    [exact H|].
  simpl. destruct (remote w _ _); [reflexivity | exact H].
Qed.

(** X8: the cache stays in step with the snapshot.  When the cache is
    the one a load would build from the snapshot (as it is at the start
    and after every load), it is so again after each operation of the
    hook: a load, a refresh, an update whose patch leaves the identifier
    alone, a delete, either bulk operation, and the operations that
    touch neither (filtering and sorting, paging, selecting).  So
    [getEmailById] keeps answering with the last record of the snapshot
    that has the identifier. *)
Theorem cache_stays_in_step_with_the_snapshot (w : world) :
  Terms.cache_in_step (hook w) ->
  let kept (op : M unit) := Terms.cache_in_step (hook (snd (op w))) in
  Terms.cache_in_step initial
  /\ (forall forceRefresh, kept (loadEmails forceRefresh))
  /\ kept refreshEmails
  /\ (forall emailId updates, Email.upd_id updates = None ->
        kept (updateEmail emailId updates))
  /\ (forall emailId, kept (deleteEmail emailId))
  /\ (forall status, kept (bulkUpdateStatus status))
  /\ kept bulkDelete
  /\ kept applyFiltersAndSorting
  /\ (forall newFilters, kept (updateFilters newFilters))
  /\ (forall field, kept (updateSorting field))
  /\ (forall page, kept (goToPage page))
  /\ (forall emailId, kept (toggleEmailSelection emailId))
  /\ (forall checked, kept (selectAllEmails checked))
  /\ (forall id, getEmailById (hook w) id = Terms.last_with_id id (emails (hook w))).
Proof.
  intros H. cbv zeta.
  split; [reflexivity|]. split; [intros f; now apply loadEmails_in_step|].
  split; [rewrite refreshEmails_run; now apply refreshed_in_step|].
  split.
  { intros emailId updates Hid.
    assert (Hpatched : Terms.cache_in_step (Spec.patch_store emailId updates (hook w))).
    { unfold Terms.cache_in_step, Spec.patch_store, Spec.with_store. simpl.
      rewrite (cache_of_patch emailId updates _ Hid), <- H. reflexivity. }
    pose proof (updateEmail_run emailId updates w) as Hrun. cbv zeta in Hrun.
    rewrite Hrun.
    destruct (Spec.answer w (Spec.updateEmail_request emailId updates)) as [data|err];
      [exact Hpatched|].
    rewrite refreshEmails_run. now apply refreshed_in_step. }
  split.
  { intros emailId.
    assert (Hremoved : Terms.cache_in_step (Spec.remove_from_store emailId (hook w))).
    { unfold Terms.cache_in_step, Spec.remove_from_store, Spec.with_store. simpl.
      rewrite cache_of_remove, <- H. reflexivity. }
    rewrite (deleteEmail_run emailId w), refreshEmails_run. now apply refreshed_in_step. }
  assert (Hbulk : forall status, Terms.cache_in_step (hook (snd (bulkUpdateStatus status w)))).
  { intros status. destruct (selectedEmails (hook w)) as [|i sel] eqn:Es.
    - unfold bulkUpdateStatus, mbind, M_bind, get_state. rewrite Es. exact H.
    - rewrite bulkUpdateStatus_run by (rewrite Es; discriminate).
      rewrite refreshEmails_run. now apply refreshed_in_step. }
  split; [exact Hbulk|]. split.
  { destruct (selectedEmails (hook w)) as [|i sel] eqn:Es.
    - unfold bulkDelete, mbind, M_bind, get_state. rewrite Es. exact H.
    - rewrite bulkDelete_run by (rewrite Es; discriminate).
      rewrite refreshEmails_run. now apply refreshed_in_step. }
  split; [exact H|]. split; [intros; exact H|]. split.
  { intros field. unfold updateSorting, mbind, M_bind, get_state.
    destruct (String.eqb (sortBy (hook w)) field); exact H. }
  split; [intros; exact H|]. split; [intros; exact H|]. split.
  { intros checked. destruct checked; exact H. }
  intros id. unfold getEmailById. rewrite H. apply cache_of_lookup.
Qed.

End CacheFacts.

(** ** Counting: the statistics of the hook and the sidebar *)

Section CountFacts.
Import UseEmails.

Lemma count_range (p : Email.email -> bool) (l : list Email.email) :
  0 <= count p l <= Z.of_nat (length l).
Proof.
  unfold count. pose proof (List.filter_length_le p l). lia.
Qed.

Lemma count_or (p q : Email.email -> bool) (l : list Email.email) :
  (forall e, In e l -> p e = true -> q e = false) ->
  count (fun e => p e || q e) l = count p l + count q l.
Proof.
  unfold count. induction l as [|x l IH]; intros Hdis; [reflexivity|].
  assert (IH' : Z.of_nat (length (List.filter (fun e => p e || q e) l))
                = Z.of_nat (length (List.filter p l)) + Z.of_nat (length (List.filter q l))).
  { apply IH. intros e He. apply Hdis. now right. }
  simpl. destruct (p x) eqn:Ep; simpl.
  - rewrite (Hdis x (or_introl eq_refl) Ep). simpl length. lia.
  - destruct (q x); simpl length; lia.
Qed.

Lemma count_all (p : Email.email -> bool) (l : list Email.email) :
  count p l = Z.of_nat (length l) <-> Forall (fun e => p e = true) l.
Proof.
  unfold count. induction l as [|x l IH]; simpl.
  - split; [constructor | reflexivity].
  - pose proof (List.filter_length_le p l) as Hle.
    destruct (p x) eqn:Ep; simpl length; split.
    + intros H. constructor; [exact Ep | apply IH; lia].
    + intros H. inversion H; subst. apply IH in H3. lia.
    + intros H. lia.
    + intros H. inversion H; subst. congruence.
Qed.

Lemma label_differs (label a b : string) :
  a <> b -> String.eqb label a = true -> String.eqb label b = false.
Proof.
  intros Hne Ha. apply String.eqb_eq in Ha. subst. now apply String.eqb_neq.
Qed.

(** X9: the statistics of the hook.  [total] is the size of the
    snapshot and every count lies between 0 and it; a record is pending
    or resolved or neither, so the two counts together do not exceed
    [total]; the three sentiment counts add up to [total] exactly when
    every record bears one of the three sentiment labels, and stay below
    it otherwise; the resolution rate lies between 0 and 100, and is 0
    for an empty snapshot. *)
Theorem stats_counts_are_bounded (st : state) :
  let s := stats st in
  total s = Z.of_nat (length (emails st))
  /\ 0 <= urgent s <= total s
  /\ 0 <= pending s /\ 0 <= resolved s /\ pending s + resolved s <= total s
  /\ 0 <= positive s /\ 0 <= negative s /\ 0 <= neutral s
  /\ positive s + negative s + neutral s <= total s
  /\ (positive s + negative s + neutral s = total s
      <-> Forall (fun e => In (Email.sentiment e) ["positive"; "negative"; "neutral"])
                 (emails st))
  /\ 0 < snd (resolutionRate s)
  /\ 0 <= fst (resolutionRate s) <= 100 * snd (resolutionRate s)
  /\ (emails st = [] -> resolutionRate s = (0, 1)).
Proof.
  cbv zeta. unfold stats. cbn [total urgent pending resolved positive negative neutral
    resolutionRate].
  set (l := emails st).
  set (pen := fun email => String.eqb (Email.status email) "pending").
  set (res := fun email => String.eqb (Email.status email) "resolved").
  set (pos := fun email => String.eqb (Email.sentiment email) "positive").
  set (neg := fun email => String.eqb (Email.sentiment email) "negative").
  set (neu := fun email => String.eqb (Email.sentiment email) "neutral").
  pose proof (count_range (fun email => String.eqb (Email.priority email) "urgent") l) as Hu.
  pose proof (count_range pen l) as Hp.
  pose proof (count_range res l) as Hr.
  pose proof (count_range pos l) as Hpos.
  pose proof (count_range neg l) as Hneg.
  pose proof (count_range neu l) as Hneu.
  assert (Hpr : count (fun e => pen e || res e) l = count pen l + count res l).
  { apply count_or. intros e _. apply label_differs. discriminate. }
  assert (Hpn : count (fun e => pos e || neg e) l = count pos l + count neg l).
  { apply count_or. intros e _. apply label_differs. discriminate. }
  assert (Hpnn : count (fun e => (pos e || neg e) || neu e) l
                 = count pos l + count neg l + count neu l).
  { rewrite <- Hpn. apply (count_or (fun e => pos e || neg e) neu).
    intros e _ H. apply orb_true_iff in H. destruct H as [H|H].
    - revert H. apply label_differs. discriminate.
    - revert H. apply label_differs. discriminate. }
  pose proof (count_range (fun e => pen e || res e) l) as Hpr'.
  pose proof (count_range (fun e => (pos e || neg e) || neu e) l) as Hpnn'.
  split; [reflexivity|]. split; [exact Hu|].
  split; [lia|]. split; [lia|]. split; [lia|].
  split; [lia|]. split; [lia|]. split; [lia|]. split; [lia|].
  split.
  { rewrite <- Hpnn, count_all. split; intros H; (eapply List.Forall_impl; [|exact H]);
      intros e; subst pos neg neu; cbv beta; rewrite !orb_true_iff, !String.eqb_eq; simpl.
    - intros [[->| ->]| ->]; auto.
    - intros [<-|[<-|[<-|[]]]]; auto. }
  destruct (Z.ltb_spec 0 (Z.of_nat (length l))) as [Hpos0|Hzero]; cbn [fst snd].
  - split; [lia|]. split; [lia|]. intros Hnil. rewrite Hnil in Hpos0. simpl in Hpos0. lia.
  - split; [lia|]. split; [lia|]. reflexivity.
Qed.

(** X10: the sidebar against the hook, on the same records.  Both count
    the same total, the same resolved and the same urgent records; the
    sidebar counts a record without a status as pending, so its pending
    count is the hook's plus the number of such records; and its three
    status counts together never exceed the total. *)
Theorem sidebar_counts_against_the_hook (st : state) :
  let side := Sidebar.load (emails st) in
  let s := stats st in
  Sidebar.totalCount side = total s
  /\ Sidebar.resolved side = resolved s
  /\ Sidebar.urgentCount side = urgent s
  /\ Sidebar.pending side
     = pending s + count (fun e => String.eqb (Email.status e) "") (emails st)
  /\ (Forall (fun e => Email.status e <> "") (emails st) ->
      Sidebar.pending side = pending s)
  /\ 0 <= Sidebar.inProgress side
  /\ Sidebar.pending side + Sidebar.inProgress side + Sidebar.resolved side
     <= Sidebar.totalCount side.
Proof.
  cbv zeta. unfold Sidebar.load, stats.
  cbn [Sidebar.totalCount Sidebar.resolved Sidebar.urgentCount Sidebar.pending
       Sidebar.inProgress total resolved urgent pending].
  set (l := emails st).
  set (pen := fun e => String.eqb (Email.status e) "pending").
  set (non := fun e => String.eqb (Email.status e) "").
  set (inp := fun e => String.eqb (Email.status e) "in_progress").
  set (res := fun e => String.eqb (Email.status e) "resolved").
  assert (Hside : count (fun e => String.eqb (Sidebar.status_or_pending e) "pending") l
                  = count pen l + count non l).
  { rewrite <- (count_or pen non).
    - unfold count. f_equal. f_equal. apply List.filter_ext. intros e.
      unfold Sidebar.status_or_pending, pen, non.
      destruct (String.eqb_spec (Email.status e) "") as [->|Hne]; simpl.
      + reflexivity.
      + now rewrite orb_false_r.
    - intros e _. apply label_differs. discriminate. }
  assert (H3 : count (fun e => ((pen e || non e) || inp e) || res e) l
               = count pen l + count non l + count inp l + count res l).
  { rewrite <- (count_or pen non) by (intros e _; apply label_differs; discriminate).
    rewrite <- (count_or (fun e => pen e || non e) inp).
    - apply (count_or (fun e => (pen e || non e) || inp e) res).
      intros e _ H. apply orb_true_iff in H. destruct H as [H|H].
      + apply orb_true_iff in H. destruct H as [H|H]; revert H; apply label_differs;
          discriminate.
      + revert H. apply label_differs. discriminate.
    - intros e _ H. apply orb_true_iff in H.
      destruct H as [H|H]; revert H; apply label_differs; discriminate. }
  pose proof (count_range (fun e => ((pen e || non e) || inp e) || res e) l) as Hall.
  pose proof (count_range inp l) as Hinp.
  split; [reflexivity|]. split; [reflexivity|]. split; [reflexivity|].
  split; [exact Hside|]. split.
  - intros Hst. rewrite Hside, (count_none non l); [lia|].
    eapply List.Forall_impl; [|exact Hst]. intros e He. now apply String.eqb_neq.
  - split; [lia|]. rewrite Hside. lia.
Qed.

End CountFacts.

(** ** Pagination: the pages partition the filtered view *)

Section PageFacts.
Import UseEmails Api.

Lemma slice_take_drop {A : Type} (l : list A) (start size : Z) :
  0 <= start -> 0 <= size ->
  JsArray.slice l start (start + size)
  = firstn (Z.to_nat size) (skipn (Z.to_nat start) l).
Proof.
  intros Hs Hz. unfold JsArray.slice, JsArray.relative_index.
  destruct (start <? 0) eqn:E1; [lia|]. destruct (start + size <? 0) eqn:E2; [lia|].
  destruct (Z_le_gt_dec start (Z.of_nat (length l))) as [Hin|Hout].
  - rewrite (Z.min_l start) by lia.
    destruct (Z_le_gt_dec (start + size) (Z.of_nat (length l))) as [Hin2|Hout2].
    + rewrite Z.min_l by lia. f_equal. lia.
    + rewrite Z.min_r by lia.
      rewrite !List.firstn_all2; [reflexivity | |]; rewrite List.length_skipn; lia.
  - rewrite !Z.min_r by lia. rewrite Z.sub_diag. change (Z.to_nat 0) with O.
    rewrite (List.skipn_all2 (n := Z.to_nat start)) by lia.
    rewrite List.firstn_nil. reflexivity.
Qed.

Lemma concat_pages {A : Type} (l : list A) (n k : nat) :
  concat (List.map (fun i => firstn n (skipn (i * n) l)) (seq 0 k)) = firstn (k * n) l.
Proof.
  induction k as [|k IH]; [reflexivity|].
  rewrite List.seq_S, List.map_app, List.concat_app, IH. simpl.
  rewrite List.app_nil_r, take_take_drop. f_equal. lia.
Qed.

(** X11: once the filters and the sort have been applied, the pages
    partition the filtered view: for a positive page size, going to the
    pages 1, 2, ... up to the last one and reading each gives the view,
    piece by piece and in order; each of these pages holds at least one
    record and at most [pageSize]; and a page number outside the range
    shows the nearest page of the range. *)
Theorem pages_partition_the_filtered_view (w : world) :
  0 < pageSize (hook w) ->
  let shown := snd (applyFiltersAndSorting w) in
  let page p := paginatedEmails (hook (snd (goToPage p shown))) in
  let last := totalPages (hook shown) in
  concat (List.map page (Terms.pages last)) = filteredEmails (hook shown)
  /\ (forall p, 1 <= p <= last ->
        page p <> [] /\ Z.of_nat (length (page p)) <= pageSize (hook w))
  /\ (forall p, last < p -> page p = page last)
  /\ (forall p, p < 1 -> page p = page 1).
Proof.
  intros Hsize. cbv zeta. rewrite applyFiltersAndSorting_run.
  set (shown := Spec.with_hook w _).
  set (l := filtered_and_sorted (tza w) (clock w) (hook w)).
  set (ps := pageSize (hook w)) in *.
  set (T := Math_ceil_div (Z.of_nat (length l)) ps).
  change (snd (Returned tt, shown)) with shown.
  change (totalPages (hook shown)) with T.
  change (filteredEmails (hook shown)) with l.
  assert (Hgo : forall p,
            paginatedEmails (hook (snd (goToPage p shown)))
            = JsArray.slice l ((Z.max 1 (Z.min p T) - 1) * ps)
                ((Z.max 1 (Z.min p T) - 1) * ps + ps)) by reflexivity.
  pose proof (Math_ceil_div_spec (Z.of_nat (length l)) ps Hsize) as Hceil. fold T in Hceil.
  assert (HT : 0 <= T) by nia.
  assert (Hpage : forall p, 1 <= p <= T ->
            paginatedEmails (hook (snd (goToPage p shown)))
            = firstn (Z.to_nat ps) (skipn (Z.to_nat (p - 1) * Z.to_nat ps) l)).
  { intros p Hp. rewrite Hgo. replace (Z.max 1 (Z.min p T)) with p by lia.
    rewrite slice_take_drop; [|nia|lia]. f_equal. f_equal. nia. }
  split; [|split; [|split]].
  - unfold Terms.pages. rewrite <- List.seq_shift, !List.map_map.
    rewrite (List.map_ext_in _ (fun i => firstn (Z.to_nat ps) (skipn (i * Z.to_nat ps) l))).
    + rewrite concat_pages. apply List.firstn_all2.
      rewrite <- Z2Nat.inj_mul by lia. apply Nat2Z.inj_le. rewrite Z2Nat.id by nia. lia.
    + intros i Hi. apply List.in_seq in Hi. rewrite Hpage by lia.
      f_equal. f_equal. f_equal. lia.
  - intros p Hp. rewrite (Hpage p Hp). split.
    + intros Hnil. apply (f_equal (@length _)) in Hnil.
      rewrite List.length_firstn, List.length_skipn in Hnil. simpl in Hnil. nia.
    + rewrite List.length_firstn. lia.
  - intros p Hp. rewrite !Hgo. f_equal; f_equal; lia.
  - intros p Hp. rewrite !Hgo. f_equal; f_equal; lia.
Qed.

End PageFacts.

(** ** The filtered view of the hook *)

Section ViewFacts.
Import UseEmails Api.

Lemma filter_filter {A : Type} (p q : A -> bool) (l : list A) :
  List.filter q (List.filter p l) = List.filter (fun x => p x && q x) l.
Proof.
  induction l as [|x l IH]; simpl; [reflexivity|].
  destruct (p x); simpl; [destruct (q x)|]; now rewrite IH.
Qed.

Lemma filter_all {A : Type} (l : list A) : List.filter (fun _ => true) l = l.
Proof. induction l as [|x l IH]; simpl; [reflexivity | now rewrite IH]. Qed.

(** A filter step of the hook is the filter by the facet. *)
Lemma facet_step (wanted : string) (label : Email.email -> string) (l : list Email.email) :
  (if negb (String.eqb wanted "all")
   then List.filter (fun email => String.eqb (label email) wanted) l
   else l)
  = List.filter (fun email => Terms.passes_facet wanted (label email)) l.
Proof.
  unfold Terms.passes_facet. destruct (String.eqb wanted "all"); simpl.
  - symmetry. apply filter_all.
  - reflexivity.
Qed.

(** The sort holds the values it was given, whatever the comparator. *)
Lemma sort_Permutation {A : Type} (comparefn : A -> A -> Z) (l : list A) :
  Permutation l (JsArray.sort comparefn l).
Proof.
  unfold JsArray.sort.
  assert (H : forall acc,
            Permutation (acc ++ l)
              (fold_left (fun sorted x => JsArray.insert comparefn x sorted) l acc)).
  { induction l as [|x l IH]; intros acc; simpl.
    - rewrite List.app_nil_r. apply Permutation_refl.
    - eapply perm_trans; [|apply IH].
      eapply perm_trans; [apply Permutation_sym, Permutation_middle|].
      apply (Permutation_app_tail l (insert_Permutation comparefn x acc)). }
  apply (H []).
Qed.

Lemma filtered_and_sorted_passes (tz : JsDate.zone) (now : Z) (st : state) :
  filtered_and_sorted tz now st
  = JsArray.sort (compare (sortBy st) (sortOrder st))
      (List.filter (Terms.passes tz now (filters st)) (emails st)).
Proof.
  unfold filtered_and_sorted. cbv zeta. f_equal.
  rewrite !facet_step.
  assert (Hsearch :
    (if negb (String.eqb (search (filters st)) "")
     then List.filter (fun email =>
            field_includes (Email.subject email) (JsString.toLowerCase (search (filters st)))
            || field_includes (Email.sender email) (JsString.toLowerCase (search (filters st)))
            || field_includes (Email.body email) (JsString.toLowerCase (search (filters st))))
            (emails st)
     else emails st)
    = List.filter (Terms.passes_search (filters st)) (emails st)).
  { unfold Terms.passes_search. destruct (String.eqb (search (filters st)) ""); simpl.
    - symmetry. apply filter_all.
    - reflexivity. }
  rewrite Hsearch.
  assert (Hdate : forall l,
    (if negb (String.eqb (dateRange (filters st)) "all")
     then date_filter tz now (dateRange (filters st)) l else l)
    = List.filter (Terms.passes_dateRange tz now (filters st)) l).
  { intros l. unfold date_filter, Terms.passes_dateRange.
    destruct (String.eqb_spec (dateRange (filters st)) "all") as [->|Hne]; simpl.
    - symmetry. apply filter_all.
    - destruct (String.eqb (dateRange (filters st)) "today"); [reflexivity|].
      destruct (String.eqb (dateRange (filters st)) "week"); [reflexivity|].
      destruct (String.eqb (dateRange (filters st)) "month"); [reflexivity|].
      symmetry. apply filter_all. }
  rewrite Hdate, !filter_filter. apply List.filter_ext. intros e.
  unfold Terms.passes. now rewrite !andb_assoc.
Qed.

(** X12: the filtered view of the hook holds exactly the records of the
    snapshot that pass every filter at once (the search text, the four
    facets and the date range), each as often as the snapshot holds it:
    the view is the sort of those records, hence a rearrangement of
    them, and never longer than the snapshot.  With the filters the hook
    starts with, the view is a rearrangement of the whole snapshot. *)
Theorem hook_view_holds_the_records_passing_every_filter
    (tz : JsDate.zone) (now : Z) (st : state) :
  let view := filtered_and_sorted tz now st in
  let passing := List.filter (Terms.passes tz now (filters st)) (emails st) in
  view = JsArray.sort (compare (sortBy st) (sortOrder st)) passing
  /\ Permutation passing view
  /\ (forall e, In e view <-> In e (emails st) /\ Terms.passes tz now (filters st) e = true)
  /\ (length view <= length (emails st))%nat
  /\ (filters st = filters initial -> Permutation (emails st) view).
Proof.
  cbv zeta. rewrite filtered_and_sorted_passes.
  set (passing := List.filter _ (emails st)).
  pose proof (sort_Permutation (compare (sortBy st) (sortOrder st)) passing) as Hperm.
  split; [reflexivity|]. split; [exact Hperm|]. split; [|split].
  - intros e. rewrite <- (List.filter_In (Terms.passes tz now (filters st))).
    split; intros H.
    + eapply Permutation_in; [apply Permutation_sym; exact Hperm | exact H].
    + eapply Permutation_in; [exact Hperm | exact H].
  - rewrite <- (Permutation_length Hperm). apply List.filter_length_le.
  - intros Hf. subst passing. revert Hperm. rewrite Hf.
    replace (List.filter (Terms.passes tz now (filters initial)) (emails st))
      with (emails st); [auto|].
    symmetry. erewrite List.filter_ext; [apply filter_all|]. reflexivity.
Qed.

(** X13: the list view of [EmailList] filters and sorts as the hook
    does: for a hook whose date range is [all], the component's own
    [filterAndSortEmails], given the snapshot, the search text, the four
    facets and the sort of the hook, computes the hook's filtered
    view. *)
Theorem EmailList_view_is_the_hook_view (tz : JsDate.zone) (now : Z) (st : state) :
  dateRange (filters st) = "all" ->
  EmailList.filterAndSortEmails (emails st) (search (filters st))
    (EmailList.mkSelected (priority (filters st)) (sentiment (filters st))
       (status (filters st)) (category (filters st)))
    (sortBy st) (sortOrder st)
  = filtered_and_sorted tz now st.
Proof.
  intros Hall. unfold EmailList.filterAndSortEmails, filtered_and_sorted. cbv zeta.
  rewrite Hall. reflexivity.
Qed.

End ViewFacts.

(** ** The priority and category classifiers *)

Section ClassifierFacts.
Import JsString Classifier.
#[local] Arguments String.append !_ _ / : simpl nomatch.

(** The test for a lexicon of keywords in small letters, keyword by
    keyword. *)
Lemma lexicon_test (text : string) (lexicon : list string) :
  forallb Spec.small_word lexicon = true ->
  existsb (fun keyword => includes (toLowerCase text) keyword) lexicon = true
  <-> Spec.contains_any text lexicon.
Proof.
  intros Hsmall. rewrite forallb_forall in Hsmall.
  rewrite existsb_exists. unfold Spec.contains_any.
  split; intros (keyword & Hin & H); exists keyword; split; auto;
    now apply (includes_toLowerCase _ _ (Hsmall _ Hin)).
Qed.

Lemma getPriority_cases (subject : option string) :
  getPriority subject =
    if truthy subject then
      let lowerSubject := toLowerCase (Spec.text_of subject) in
      if existsb (fun keyword => includes lowerSubject keyword) Terms.high_lexicon
      then "high"
      else if existsb (fun keyword => includes lowerSubject keyword) Terms.medium_lexicon
      then "medium"
      else "low"
    else "medium".
Proof.
  unfold getPriority. destruct (truthy subject); simpl; [|reflexivity].
  rewrite !orb_false_r, !orb_assoc. reflexivity.
Qed.

(** X14: the priority classifier checks the lexicon of [high] first.  A
    subject that holds one of [urgent], [critical], [immediate] (up to
    letter case) is [high], whatever else it holds; otherwise a subject
    that holds [help] or [support] is [medium]; any other subject that
    is not empty is [low]; an empty or absent subject is [medium].  The
    result is always one of the three labels. *)
Theorem getPriority_high_lexicon_first (subject : option string) :
  let text := Spec.text_of subject in
  (Spec.contains_any text Terms.high_lexicon -> getPriority subject = "high")
  /\ (~ Spec.contains_any text Terms.high_lexicon ->
      Spec.contains_any text Terms.medium_lexicon -> getPriority subject = "medium")
  /\ (~ Spec.contains_any text Terms.high_lexicon ->
      ~ Spec.contains_any text Terms.medium_lexicon ->
      text <> "" -> getPriority subject = "low")
  /\ (subject = None \/ subject = Some "" -> getPriority subject = "medium")
  /\ In (getPriority subject) ["high"; "medium"; "low"].
Proof.
  cbv zeta. rewrite getPriority_cases.
  pose proof (lexicon_test (Spec.text_of subject) Terms.high_lexicon eq_refl) as Th.
  pose proof (lexicon_test (Spec.text_of subject) Terms.medium_lexicon eq_refl) as Tm.
  destruct (truthy subject) eqn:Ht.
  - cbv zeta.
    destruct (existsb _ Terms.high_lexicon) eqn:Eh.
    + split; [reflexivity|]. split; [intros Hn; exfalso; apply Hn, Th; reflexivity|].
      split; [intros Hn; exfalso; apply Hn, Th; reflexivity|].
      split; [intros [->| ->]; discriminate|]. simpl; auto.
    + destruct (existsb _ Terms.medium_lexicon) eqn:Em.
      * split; [intros Hn; apply Th in Hn; discriminate|]. split; [reflexivity|].
        split; [intros _ Hn; exfalso; apply Hn, Tm; reflexivity|].
        split; [intros [->| ->]; discriminate|]. simpl; auto.
      * split; [intros Hn; apply Th in Hn; discriminate|].
        split; [intros _ Hn; apply Tm in Hn; discriminate|].
        split; [reflexivity|].
        split; [intros [->| ->]; discriminate|]. simpl; auto.
  - rewrite (getSentiment_absent subject Ht).
    split; [intros Hn; exfalso; revert Hn; apply no_keyword_in_empty;
            simpl; intuition discriminate|].
    split; [reflexivity|]. split; [congruence|]. split; [reflexivity|]. simpl; auto.
Qed.

(** The classifier on subjects in mixed letter case. *)
Lemma getPriority_high_lexicon_first_mixed_case :
  Spec.contains_ci "URGENT: need Help with the login" "urgent"
  /\ Spec.contains_ci "URGENT: need Help with the login" "help"
  /\ getPriority (Some "URGENT: need Help with the login") = "high"
  /\ getPriority (Some "Need HELP logging in") = "medium"
  /\ getPriority (Some "Monthly Newsletter") = "low".
Proof.
  assert (Hu : Spec.contains_ci "URGENT: need Help with the login" "urgent").
  { exists "", "URGENT", ": need Help with the login". split; reflexivity. }
  split; [exact Hu|]. split.
  { exists "URGENT: need ", "Help", " with the login". split; reflexivity. }
  split.
  { apply (proj1 (getPriority_high_lexicon_first
                    (Some "URGENT: need Help with the login"))).
    exists "urgent". split; [simpl; auto | exact Hu]. }
  split.
  { apply (proj1 (proj2 (getPriority_high_lexicon_first (Some "Need HELP logging in")))).
    - intros H. apply (proj2 (lexicon_test _ Terms.high_lexicon eq_refl)) in H.
      discriminate H.
    - exists "help". split; [simpl; auto|].
      exists "Need ", "HELP", " logging in". split; reflexivity. }
  apply (proj1 (proj2 (proj2 (getPriority_high_lexicon_first
                                (Some "Monthly Newsletter"))))).
  - intros H. apply (proj2 (lexicon_test _ Terms.high_lexicon eq_refl)) in H.
    discriminate H.
  - intros H. apply (proj2 (lexicon_test _ Terms.medium_lexicon eq_refl)) in H.
    discriminate H.
  - discriminate.
Defined.

(** A keyword without a blank starts [x] when it starts [x], a blank
    and more. *)
Lemma prefix_before_blank (keyword x y : string) :
  JsText.all_chars (fun c => negb (Ascii.eqb c " ")) keyword = true ->
  String.prefix keyword (x ++ String " " y) = String.prefix keyword x.
Proof.
  revert x. induction keyword as [|c keyword IH]; intros x Hk;
    [destruct x; reflexivity|].
  simpl in Hk. apply andb_true_iff in Hk. destruct Hk as [Hc Hk].
  destruct x as [|d x]; simpl.
  - destruct (ascii_dec c " ") as [->|_]; [discriminate | reflexivity].
  - destruct (ascii_dec c d); [now apply IH | reflexivity].
Qed.

(** So a text joined from two parts by a blank holds such a keyword
    exactly when one of the parts does. *)
Lemma includes_joined (keyword x y : string) :
  JsText.all_chars (fun c => negb (Ascii.eqb c " ")) keyword = true ->
  includes (x ++ String " " y) keyword = includes x keyword || includes y keyword.
Proof.
  intros Hk. induction x as [|d x IH].
  - cbn [String.append includes]. rewrite orb_false_r.
    now rewrite <- (prefix_before_blank keyword "" y Hk).
  - simpl String.append. cbn [includes].
    rewrite IH, orb_assoc.
    now rewrite <- (prefix_before_blank keyword (String d x) y Hk).
Qed.

(** The text the category classifier reads holds a keyword exactly when
    the subject or the body does: the blank that joins them, and the
    text [undefined] that stands for an absent one, add no keyword. *)
Lemma category_text_test (subject body : option string) (keyword : string) :
  In keyword Terms.category_keywords ->
  includes (toLowerCase (to_text subject ++ " " ++ to_text body)) keyword
  = includes (toLowerCase (Spec.text_of subject)) keyword
    || includes (toLowerCase (Spec.text_of body)) keyword.
Proof.
  intros Hin.
  assert (Hk : JsText.all_chars (fun c => negb (Ascii.eqb c " ")) keyword = true
               /\ includes (toLowerCase "undefined") keyword = false
               /\ includes "" keyword = false).
  { unfold Terms.category_keywords in Hin. simpl in Hin.
    repeat (destruct Hin as [<-|Hin]; [repeat split; reflexivity|]). destruct Hin. }
  destruct Hk as (Hk & Hu & He).
  rewrite toLowerCase_app. simpl String.append at 2.
  change (toLowerCase (String " " (to_text body)))
    with (String " " (toLowerCase (to_text body))).
  rewrite (includes_joined keyword _ _ Hk).
  destruct subject as [s|], body as [b|]; unfold to_text, Spec.text_of; simpl default;
    rewrite ?Hu; simpl toLowerCase; rewrite ?He; reflexivity.
Qed.

Lemma mentions_test (subject body : option string) (lexicon : list string) :
  (forall keyword, In keyword lexicon -> In keyword Terms.category_keywords) ->
  existsb (fun keyword =>
    includes (toLowerCase (to_text subject ++ " " ++ to_text body)) keyword) lexicon = true
  <-> Terms.mentions subject body lexicon.
Proof.
  intros Hsub.
  assert (Hsmall : forallb Spec.small_word lexicon = true).
  { apply forallb_forall. intros keyword Hin.
    assert (Hall : forallb Spec.small_word Terms.category_keywords = true) by reflexivity.
    rewrite forallb_forall in Hall. exact (Hall _ (Hsub _ Hin)). }
  unfold Terms.mentions. rewrite <- !(lexicon_test _ _ Hsmall), !existsb_exists. split.
  - intros (keyword & Hin & H). rewrite (category_text_test _ _ _ (Hsub _ Hin)) in H.
    apply orb_true_iff in H. destruct H as [H|H]; [left|right]; eauto.
  - intros [(keyword & Hin & H)|(keyword & Hin & H)]; exists keyword; split; auto;
      rewrite (category_text_test _ _ _ (Hsub _ Hin)), H; auto using orb_true_r.
Qed.

(** The lexicons of the category classifier hold category keywords. *)
Lemma category_lexicons (lexicon : list string) (keyword : string) :
  In lexicon [Terms.account_lexicon; Terms.billing_lexicon;
              Terms.technical_lexicon; Terms.feature_lexicon] ->
  In keyword lexicon -> In keyword Terms.category_keywords.
Proof.
  intros Hl H. unfold Terms.category_keywords. rewrite !List.in_app_iff.
  simpl in Hl. destruct Hl as [<-|[<-|[<-|[<-|[]]]]]; tauto.
Qed.

(** A lexicon whose test fails on the joined text is not mentioned. *)
Lemma not_mentioned (subject body : option string) (lexicon : list string) :
  In lexicon [Terms.account_lexicon; Terms.billing_lexicon;
              Terms.technical_lexicon; Terms.feature_lexicon] ->
  existsb (fun keyword =>
    includes (toLowerCase (to_text subject ++ " " ++ to_text body)) keyword) lexicon = false ->
  ~ Terms.mentions subject body lexicon.
Proof.
  intros Hl Hf H.
  apply (mentions_test subject body lexicon (fun k => category_lexicons lexicon k Hl)) in H.
  congruence.
Qed.

Lemma getCategory_cases (subject body : option string) :
  getCategory subject body =
    if negb (truthy subject) && negb (truthy body) then "general"
    else
      let lowerText := toLowerCase (to_text subject ++ " " ++ to_text body) in
      if existsb (fun keyword => includes lowerText keyword) Terms.account_lexicon
      then "account"
      else if existsb (fun keyword => includes lowerText keyword) Terms.billing_lexicon
      then "billing"
      else if existsb (fun keyword => includes lowerText keyword) Terms.technical_lexicon
      then "technical"
      else if existsb (fun keyword => includes lowerText keyword) Terms.feature_lexicon
      then "feature"
      else "general".
Proof.
  unfold getCategory. destruct (negb (truthy subject) && negb (truthy body)); [reflexivity|].
  cbn [existsb Terms.account_lexicon Terms.billing_lexicon Terms.technical_lexicon
       Terms.feature_lexicon]. cbv zeta.
  rewrite !orb_false_r, !orb_assoc. reflexivity.
Qed.

Lemma nothing_mentioned (subject body : option string) (lexicon : list string) :
  negb (truthy subject) && negb (truthy body) = true ->
  ~ In "" lexicon -> ~ Terms.mentions subject body lexicon.
Proof.
  intros Ht Hne. apply andb_true_iff in Ht. destruct Ht as [Hs Hb].
  apply negb_true_iff in Hs, Hb. unfold Terms.mentions.
  rewrite (getSentiment_absent _ Hs), (getSentiment_absent _ Hb).
  intros [H|H]; revert H; now apply no_keyword_in_empty.
Qed.

(** X15: the category classifier reads the subject and the body, and
    checks its lexicons in a fixed order.  A record whose subject or
    body holds [login], [password] or [account] (up to letter case) is
    [account]; otherwise one that holds [billing], [payment], [charged],
    [refund] or [pricing] is [billing]; otherwise one that holds
    [technical], [error], [bug] or [issue] is [technical]; otherwise one
    that holds [feature], [enhancement] or [suggestion] is [feature];
    every other record is [general].  Joining the subject and the body
    into one text adds no keyword, and neither does an absent field. *)
Theorem getCategory_lexicons_in_order (subject body : option string) :
  let mentions := Terms.mentions subject body in
  (mentions Terms.account_lexicon -> getCategory subject body = "account")
  /\ (~ mentions Terms.account_lexicon -> mentions Terms.billing_lexicon ->
      getCategory subject body = "billing")
  /\ (~ mentions Terms.account_lexicon -> ~ mentions Terms.billing_lexicon ->
      mentions Terms.technical_lexicon -> getCategory subject body = "technical")
  /\ (~ mentions Terms.account_lexicon -> ~ mentions Terms.billing_lexicon ->
      ~ mentions Terms.technical_lexicon -> mentions Terms.feature_lexicon ->
      getCategory subject body = "feature")
  /\ (~ mentions Terms.account_lexicon -> ~ mentions Terms.billing_lexicon ->
      ~ mentions Terms.technical_lexicon -> ~ mentions Terms.feature_lexicon ->
      getCategory subject body = "general")
  /\ In (getCategory subject body) ["account"; "billing"; "technical"; "feature"; "general"].
Proof.
  cbv zeta. rewrite getCategory_cases.
  assert (Ta := mentions_test subject body Terms.account_lexicon).
  assert (Tb := mentions_test subject body Terms.billing_lexicon).
  assert (Tt := mentions_test subject body Terms.technical_lexicon).
  assert (Tf := mentions_test subject body Terms.feature_lexicon).
  assert (Hin := category_lexicons).
  assert (Ha := fun k => Hin Terms.account_lexicon k ltac:(simpl; auto)).
  assert (Hb := fun k => Hin Terms.billing_lexicon k ltac:(simpl; auto)).
  assert (Ht := fun k => Hin Terms.technical_lexicon k ltac:(simpl; auto)).
  assert (Hf := fun k => Hin Terms.feature_lexicon k ltac:(simpl; auto)).
  specialize (Ta Ha). specialize (Tb Hb). specialize (Tt Ht). specialize (Tf Hf).
  clear Hin Ha Hb Ht Hf.
  destruct (negb (truthy subject) && negb (truthy body)) eqn:Eabsent.
  - assert (Na : ~ Terms.mentions subject body Terms.account_lexicon)
      by (apply nothing_mentioned; [exact Eabsent | simpl; intuition discriminate]).
    assert (Nb : ~ Terms.mentions subject body Terms.billing_lexicon)
      by (apply nothing_mentioned; [exact Eabsent | simpl; intuition discriminate]).
    assert (Nt : ~ Terms.mentions subject body Terms.technical_lexicon)
      by (apply nothing_mentioned; [exact Eabsent | simpl; intuition discriminate]).
    assert (Nf : ~ Terms.mentions subject body Terms.feature_lexicon)
      by (apply nothing_mentioned; [exact Eabsent | simpl; intuition discriminate]).
    repeat (split; [tauto|]). simpl; auto 10.
  - cbv zeta.
    destruct (existsb _ Terms.account_lexicon).
    { repeat (split; [tauto|]). simpl; auto 10. }
    destruct (existsb _ Terms.billing_lexicon).
    { split; [intros H; apply Ta in H; discriminate|].
      repeat (split; [tauto|]). simpl; auto 10. }
    destruct (existsb _ Terms.technical_lexicon).
    { split; [intros H; apply Ta in H; discriminate|].
      split; [intros _ H; apply Tb in H; discriminate|].
      repeat (split; [tauto|]). simpl; auto 10. }
    destruct (existsb _ Terms.feature_lexicon).
    { split; [intros H; apply Ta in H; discriminate|].
      split; [intros _ H; apply Tb in H; discriminate|].
      split; [intros _ _ H; apply Tt in H; discriminate|].
      repeat (split; [tauto|]). simpl; auto 10. }
    split; [intros H; apply Ta in H; discriminate|].
    split; [intros _ H; apply Tb in H; discriminate|].
    split; [intros _ _ H; apply Tt in H; discriminate|].
    split; [intros _ _ _ H; apply Tf in H; discriminate|].
    split; [reflexivity|]. simpl; auto 10.
Qed.

(** The classifier on records in mixed letter case: the subject and the
    body are both read, the first lexicon with a keyword decides, and
    an absent subject adds nothing. *)
Lemma getCategory_lexicons_in_order_mixed_case :
  Terms.mentions (Some "PASSWORD reset") (Some "the Payment page shows an Error")
    Terms.account_lexicon
  /\ Terms.mentions (Some "PASSWORD reset") (Some "the Payment page shows an Error")
       Terms.billing_lexicon
  /\ getCategory (Some "PASSWORD reset") (Some "the Payment page shows an Error")
     = "account"
  /\ getCategory None (Some "Please REFUND the Bug bounty") = "billing"
  /\ getCategory (Some "Found a BUG") None = "technical"
  /\ getCategory (Some "New Feature") (Some "only a Suggestion") = "feature"
  /\ getCategory (Some "Hello") (Some "World") = "general".
Proof.
  assert (Ha : Terms.mentions (Some "PASSWORD reset")
                 (Some "the Payment page shows an Error") Terms.account_lexicon).
  { left. exists "password". split; [simpl; auto|].
    exists "", "PASSWORD", " reset". split; reflexivity. }
  split; [exact Ha|]. split.
  { right. exists "payment". split; [simpl; auto|].
    exists "the ", "Payment", " page shows an Error". split; reflexivity. }
  split.
  { exact (proj1 (getCategory_lexicons_in_order _ _) Ha). }
  split.
  { apply (proj1 (proj2 (getCategory_lexicons_in_order
                           None (Some "Please REFUND the Bug bounty")))).
    - apply not_mentioned; [simpl; auto | reflexivity].
    - right. exists "refund". split; [simpl; auto|].
      exists "Please ", "REFUND", " the Bug bounty". split; reflexivity. }
  split.
  { apply (proj1 (proj2 (proj2 (getCategory_lexicons_in_order
                                  (Some "Found a BUG") None)))).
    - apply not_mentioned; [simpl; auto | reflexivity].
    - apply not_mentioned; [simpl; auto | reflexivity].
    - left. exists "bug". split; [simpl; auto|].
      exists "Found a ", "BUG", "". split; reflexivity. }
  split.
  { apply (proj1 (proj2 (proj2 (proj2 (getCategory_lexicons_in_order
                                         (Some "New Feature")
                                         (Some "only a Suggestion")))))).
    - apply not_mentioned; [simpl; auto | reflexivity].
    - apply not_mentioned; [simpl; auto | reflexivity].
    - apply not_mentioned; [simpl; auto 6 | reflexivity].
    - left. exists "feature". split; [simpl; auto|].
      exists "New ", "Feature", "". split; reflexivity. }
  apply (proj1 (proj2 (proj2 (proj2 (proj2 (getCategory_lexicons_in_order
                                              (Some "Hello") (Some "World"))))))).
  - apply not_mentioned; [simpl; auto | reflexivity].
  - apply not_mentioned; [simpl; auto | reflexivity].
  - apply not_mentioned; [simpl; auto 6 | reflexivity].
  - apply not_mentioned; [simpl; auto 6 | reflexivity].
Defined.

Lemma getSentiment_range (body : option string) :
  In (getSentiment body) ["negative"; "positive"; "neutral"].
Proof.
  unfold getSentiment. simpl.
  destruct (negb (truthy body)); auto.
  destruct (_ || includes _ "failed"); auto.
  destruct (_ || includes _ "good"); auto.
Qed.

Lemma getCategory_range (subject body : option string) :
  In (getCategory subject body) ["account"; "billing"; "technical"; "feature"; "general"].
Proof.
  unfold getCategory. simpl.
  destruct (negb (truthy subject) && negb (truthy body)); auto 10.
  destruct (_ || includes _ "account"); auto 10.
  destruct (_ || includes _ "pricing"); auto 10.
  destruct (_ || includes _ "issue"); auto 10.
  destruct (_ || includes _ "suggestion"); auto 10.
Qed.

Lemma or_else_given (given computed : string) :
  given <> "" -> EmailManagement.or_else given computed = given.
Proof.
  intros H. unfold EmailManagement.or_else.
  destruct (String.eqb_spec given ""); [contradiction | reflexivity].
Qed.

Lemma or_else_filled (given computed : string) :
  computed <> "" -> EmailManagement.or_else given computed <> "".
Proof.
  intros H. unfold EmailManagement.or_else.
  destruct (String.eqb_spec given ""); assumption.
Qed.

Lemma processEmails_from_nth (index : Z) (emails : list Email.email) (i : nat)
    (e : Email.email) :
  nth_error emails i = Some e ->
  nth_error (EmailManagement.processEmails_from index emails) i
  = Some (EmailManagement.processEmail e (index + Z.of_nat i)).
Proof.
  revert index i. induction emails as [|x l IH]; intros index i H.
  - destruct i; discriminate.
  - destruct i as [|i]; simpl in *.
    + injection H as ->. now rewrite Z.add_0_r.
    + rewrite (IH _ _ H). do 2 f_equal. lia.
Qed.

Lemma processEmail_labelled (e : Email.email) (index : Z) :
  Terms.labelled (EmailManagement.processEmail e index).
Proof.
  unfold Terms.labelled, EmailManagement.processEmail. simpl.
  repeat split; apply or_else_filled.
  - destruct (getPriority_range (Email.subject e)) as [<-|[<-|[<-|[]]]]; discriminate.
  - destruct (getSentiment_range (Email.body e)) as [<-|[<-|[<-|[]]]]; discriminate.
  - discriminate.
  - destruct (getCategory_range (Email.subject e) (Email.body e))
      as [<-|[<-|[<-|[<-|[<-|[]]]]]]; discriminate.
Qed.

(** X16: [processEmails] fills what the server left out and keeps what
    it sent.  The processed list has one record for each record
    received, in order; every processed record bears all four labels;
    a label the server sent is kept, a missing priority, sentiment or
    category is the classifier's label, and a missing status is
    [pending]; the text fields and the instant are untouched; and a
    record with the identifier 0, which counts as none, gets its
    position in the list as identifier. *)
Theorem processEmails_fills_the_missing_labels (emails : list Email.email) :
  let processed := EmailManagement.processEmails emails in
  length processed = length emails
  /\ Forall Terms.labelled processed
  /\ (forall (i : nat) (e : Email.email), nth_error emails i = Some e ->
        exists e', nth_error processed i = Some e'
          /\ Email.sender e' = Email.sender e
          /\ Email.subject e' = Email.subject e
          /\ Email.body e' = Email.body e
          /\ Email.received_at e' = Email.received_at e
          /\ Email.id e' = (if Email.id e =? 0 then Z.of_nat i else Email.id e)
          /\ (Email.priority e <> "" -> Email.priority e' = Email.priority e)
          /\ (Email.priority e = "" -> Email.priority e' = getPriority (Email.subject e))
          /\ (Email.sentiment e <> "" -> Email.sentiment e' = Email.sentiment e)
          /\ (Email.sentiment e = "" -> Email.sentiment e' = getSentiment (Email.body e))
          /\ (Email.status e <> "" -> Email.status e' = Email.status e)
          /\ (Email.status e = "" -> Email.status e' = "pending")
          /\ (Email.category e <> "" -> Email.category e' = Email.category e)
          /\ (Email.category e = "" ->
              Email.category e' = getCategory (Email.subject e) (Email.body e))).
Proof.
  cbv zeta. unfold EmailManagement.processEmails. split; [|split].
  - generalize 0. induction emails as [|x l IH]; intros index; simpl; [reflexivity|].
    now rewrite IH.
  - generalize 0. induction emails as [|x l IH]; intros index; simpl; constructor.
    + apply processEmail_labelled.
    + apply IH.
  - intros i e H. exists (EmailManagement.processEmail e (Z.of_nat i)).
    rewrite (processEmails_from_nth 0 emails i e H). simpl.
    split; [reflexivity|]. do 5 (split; [reflexivity|]).
    repeat split; intros Hl;
      first [ apply or_else_given; exact Hl
            | unfold EmailManagement.or_else; rewrite Hl; reflexivity ].
Qed.

End ClassifierFacts.

(** ** Searching in [EmailManagement] *)

Section SearchFacts.
Import JsString.

Lemma toLowerCase_empty (s : string) : toLowerCase s = "" <-> s = "".
Proof. destruct s; simpl; split; congruence. Qed.

(** X17: the search of [filterAndSortEmails] ignores the letter case of
    the query: two queries that differ only in the case of their
    letters give the same list, for every snapshot, filter and sort. *)
Theorem search_ignores_the_case_of_the_query
    (tza : JsDate.zone) (now : Z) (emails : list Email.email) (query query' : string)
    (f : EmailManagement.selectedFilters) (sortBy sortOrder : string) :
  toLowerCase query = toLowerCase query' ->
  EmailManagement.filterAndSortEmails tza now emails query f sortBy sortOrder
  = EmailManagement.filterAndSortEmails tza now emails query' f sortBy sortOrder.
Proof.
  intros Hq. unfold EmailManagement.filterAndSortEmails. f_equal.
  apply List.filter_ext. intros e. unfold EmailManagement.matches. cbv zeta.
  rewrite Hq.
  assert (He : String.eqb query "" = String.eqb query' "").
  { destruct (String.eqb_spec query "") as [->|Hn], (String.eqb_spec query' "") as [->|Hn'];
      try reflexivity.
    - simpl in Hq. symmetry in Hq. apply (proj1 (toLowerCase_empty _)) in Hq.
      contradiction.
    - simpl in Hq. apply (proj1 (toLowerCase_empty _)) in Hq. contradiction. }
  now rewrite He.
Qed.

End SearchFacts.

(** ** The dashboard: which source its data comes from *)

Section DashboardFacts.
Import Api Dashboard.

(** X18: [loadDashboardData] always takes its fallback.  [analyticsAPI]
    has no member [getDashboardDataFromJSON], so the first attempt
    throws before anything is sent, and the one request of a load is
    that of [getDashboardStats].  The load returns normally whatever the
    answer and ends with [loading] off; a resolved answer replaces the
    statistics and the recent emails (an answer without recent emails
    gives the empty list), a rejected one leaves both as they were. *)
Theorem loadDashboardData_always_takes_the_fallback (w : world) :
  let request := mkRequest GET "/analytics/dashboard" [] in
  let after := snd (loadDashboardData w) in
  lookup_member "getDashboardDataFromJSON" analyticsAPI = None
  /\ fst (loadDashboardData w) = UseEmails.Returned tt
  /\ log after = (log w ++ [request])%list
  /\ loading (view after) = false
  /\ match remote w (log w) request with
     | Resolved data =>
         stats (view after) = email_stats data
         /\ recentEmails (view after) = default [] (recent_emails data)
     | Rejected _ =>
         stats (view after) = stats (view w)
         /\ recentEmails (view after) = recentEmails (view w)
     end.
Proof.
  cbv zeta. split; [reflexivity|].
  unfold loadDashboardData, try_finally, try_catch, mbind, M_bind, mret, M_ret,
    setLoading, setStats, setRecentEmails, modify, call_analyticsAPI, throw, send.
  simpl. destruct (remote w (log w) _) as [data|err]; simpl; repeat split; reflexivity.
Qed.

(** X19: [regenerateDashboardData] regenerates nothing and reloads
    nothing.  [emailAPI] has no member [systemAPI], so the call through
    it throws before anything is sent; the error is caught, the reload
    that should follow is skipped, and the operation returns normally:
    no request is made, the statistics and the recent emails are what
    they were, and [loading] is off. *)
Theorem regenerateDashboardData_sends_nothing (w : world) :
  let after := snd (regenerateDashboardData w) in
  lookup_member "systemAPI" emailAPI = None
  /\ fst (regenerateDashboardData w) = UseEmails.Returned tt
  /\ log after = log w
  /\ stats (view after) = stats (view w)
  /\ recentEmails (view after) = recentEmails (view w)
  /\ loading (view after) = false.
Proof. cbv zeta. repeat split; reflexivity. Qed.

End DashboardFacts.

(** ** Text utilities *)

Section TextFacts.
Import JsString JsText.
#[local] Arguments String.append !_ _ / : simpl nomatch.

Lemma length_append (a b : string) :
  String.length (a ++ b) = (String.length a + String.length b)%nat.
Proof. induction a as [|c a IH]; simpl; [reflexivity | now rewrite IH]. Qed.

Lemma length_substring_0 (n : nat) (s : string) :
  String.length (String.substring 0 n s) = Nat.min n (String.length s).
Proof.
  revert s. induction n as [|n IH]; intros s; destruct s as [|c s]; simpl; try reflexivity.
  now rewrite IH.
Qed.

Lemma substring_0_append (a b : string) :
  String.substring 0 (String.length a) (a ++ b) = a.
Proof.
  induction a as [|c a IH]; simpl.
  - now destruct b.
  - now rewrite IH.
Qed.

Lemma append_empty (a b : string) : a ++ b = "" -> a = "" /\ b = "".
Proof. destruct a; simpl; [auto | discriminate]. Qed.

(** The helper [truncateText], applied to its own result, changes
    nothing. *)
Lemma truncateText_again (text : option string) (maxLength : Z) (suffix : string) :
  Helpers.truncateText (Helpers.truncateText text maxLength suffix) maxLength suffix
  = Helpers.truncateText text maxLength suffix.
Proof.
  destruct text as [s|]; [|reflexivity].
  destruct (String.eqb s "" || (Z.of_nat (String.length s) <=? maxLength)) eqn:E.
  - assert (Hr : Helpers.truncateText (Some s) maxLength suffix = Some s)
      by (unfold Helpers.truncateText; now rewrite E).
    now rewrite !Hr.
  - set (p := substring0 s maxLength).
    assert (Hr : Helpers.truncateText (Some s) maxLength suffix = Some (p ++ suffix))
      by (unfold Helpers.truncateText; now rewrite E).
    rewrite Hr. apply orb_false_iff in E. destruct E as [_ E]. apply Z.leb_gt in E.
    assert (Hp : String.length p = Z.to_nat maxLength).
    { subst p. unfold substring0. rewrite length_substring_0. lia. }
    unfold Helpers.truncateText.
    destruct (String.eqb (p ++ suffix) ""
              || (Z.of_nat (String.length (p ++ suffix)) <=? maxLength));
      [reflexivity|].
    unfold substring0. rewrite <- Hp, substring_0_append. reflexivity.
Qed.

(** X20: [truncateText] of [services/api.js] is the helper of the same
    name with the suffix of three dots.  Truncating twice is truncating
    once.  A text no longer than [maxLength] (and an empty or absent
    one) comes back as it is; a longer text comes back as its first
    [maxLength] characters and the three dots, so as a text of
    [maxLength + 3] characters: a text one or two characters over the
    limit gets longer. *)
Theorem truncateText_is_idempotent (text : option string) (maxLength : Z) :
  let result := ApiUtils.truncateText text maxLength in
  result = Helpers.truncateText text maxLength "..."
  /\ ApiUtils.truncateText result maxLength = result
  /\ (text = None -> result = None)
  /\ (forall s, text = Some s -> s = "" \/ Z.of_nat (String.length s) <= maxLength ->
        result = Some s)
  /\ (forall s, text = Some s -> s <> "" -> maxLength < Z.of_nat (String.length s) ->
        exists r, result = Some r
          /\ r = substring0 s maxLength ++ "..."
          /\ Z.of_nat (String.length r) = Z.max 0 maxLength + 3
          /\ (maxLength < 0 -> r = "...")).
Proof.
  cbv zeta.
  assert (Hsame : forall t, ApiUtils.truncateText t maxLength
                            = Helpers.truncateText t maxLength "...") by reflexivity.
  split; [apply Hsame|]. split; [rewrite !Hsame; apply truncateText_again|].
  split; [intros ->; reflexivity|]. split.
  - intros s -> [->|Hlen]; [reflexivity|]. unfold ApiUtils.truncateText.
    destruct (Z.leb_spec (Z.of_nat (String.length s)) maxLength) as [_|Hgt]; [|lia].
    now rewrite orb_true_r.
  - intros s -> Hs Hlen. unfold ApiUtils.truncateText.
    destruct (String.eqb_spec s "") as [E|_]; [contradiction|].
    destruct (Z.leb_spec (Z.of_nat (String.length s)) maxLength) as [Hle|_]; [lia|].
    simpl. eexists. split; [reflexivity|]. split; [reflexivity|]. split.
    + rewrite length_append. unfold substring0. rewrite length_substring_0. simpl. lia.
    + intros Hneg. unfold substring0. replace (Z.to_nat maxLength) with O by lia.
      now destruct s.
Qed.

(** X21: [formatRelativeTime] of [services/api.js] counts started days
    and looks at the distance only.  An instant up to a day away from
    the one it is read at, before or after it, reads [Yesterday], be it
    a second ago; the instant itself reads [0 days ago]; a distance of
    more than [d - 1] and at most [d] days reads [d days ago] for [d]
    from 2 to 6, and a distance of more than 6 and at most 7 days reads
    [1 weeks ago]; and a date in the future reads like the date as far
    in the past. *)
Theorem formatRelativeTime_counts_started_days (now date : Z) :
  let distance := Z.abs (now - date) in
  (0 < distance <= JsDate.msPerDay -> ApiUtils.formatRelativeTime now date = "Yesterday")
  /\ ApiUtils.formatRelativeTime now now = "0 days ago"
  /\ (forall d, 2 <= d <= 6 ->
        (d - 1) * JsDate.msPerDay < distance <= d * JsDate.msPerDay ->
        ApiUtils.formatRelativeTime now date = Number_toString d ++ " days ago")
  /\ (6 * JsDate.msPerDay < distance <= 7 * JsDate.msPerDay ->
      ApiUtils.formatRelativeTime now date = "1 weeks ago")
  /\ ApiUtils.formatRelativeTime now date = ApiUtils.formatRelativeTime date now
  /\ ApiUtils.formatRelativeTime now (now + (now - date))
     = ApiUtils.formatRelativeTime now date.
Proof.
  cbv zeta. unfold ApiUtils.formatRelativeTime, JsDate.msPerDay.
  change (1000 * 60 * 60 * 24) with 86400000.
  pose proof (Math_ceil_div_spec (Z.abs (now - date)) 86400000 ltac:(lia)) as Hc.
  split; [|split; [|split; [|split; [|split]]]].
  - intros Hd.
    assert (H1 : UseEmails.Math_ceil_div (Z.abs (now - date)) 86400000 = 1) by lia.
    rewrite H1. reflexivity.
  - rewrite Z.sub_diag. reflexivity.
  - intros d Hd Hdist.
    assert (H1 : UseEmails.Math_ceil_div (Z.abs (now - date)) 86400000 = d) by nia.
    rewrite H1.
    destruct (Z.eqb_spec d 1) as [E|_]; [lia|].
    destruct (Z.ltb_spec d 7) as [_|E]; [reflexivity | lia].
  - intros Hdist.
    assert (H1 : UseEmails.Math_ceil_div (Z.abs (now - date)) 86400000 = 7) by lia.
    rewrite H1. reflexivity.
  - replace (Z.abs (date - now)) with (Z.abs (now - date)) by lia. reflexivity.
  - replace (Z.abs (now - (now + (now - date)))) with (Z.abs (now - date)) by lia.
    reflexivity.
Qed.

Example formatRelativeTime_of_some_distances :
  ApiUtils.formatRelativeTime Demo.now (Demo.now - 1000) = "Yesterday"
  /\ ApiUtils.formatRelativeTime Demo.now (Demo.now - 3 * JsDate.msPerDay) = "3 days ago"
  /\ ApiUtils.formatRelativeTime Demo.now (Demo.now - 10 * JsDate.msPerDay) = "2 weeks ago"
  /\ ApiUtils.formatRelativeTime Demo.now (Demo.now + 45 * JsDate.msPerDay) = "2 months ago"
  /\ ApiUtils.truncateText (Some "abcdef") 3 = Some "abc...".
Proof. repeat split; reflexivity. Qed.

End TextFacts.

(** ** The response editor: what is sent *)

Section ResponseFacts.
Import Api ResponseEditor.

(** X22: sending a response does not send its text.  The request of
    [handleSend] is the same whatever the text in the editor: it carries
    no data, and it is the request [generateContextAwareResponse] makes
    for the email.  The request of [handleSave] does carry the text,
    with the status [responded].  Either handler makes exactly one
    request, closes the editor exactly when the request resolves, leaves
    the text as it is, and ends with [saving] off. *)
Theorem handleSend_does_not_send_the_text
    (emailId : Z) (resolves : call -> bool) (text text' : string) (busy shut : bool) :
  let sent t := handleSend emailId resolves (mkState t busy shut) in
  let saved t := handleSave emailId resolves (mkState t busy shut) in
  fst (sent text) = fst (sent text')
  /\ fst (sent text) = [generateContextAwareResponse emailId]
  /\ data (sendResponse emailId text) = None
  /\ fst (saved text) = [updateResponse emailId text]
  /\ data (updateResponse emailId text) = Some (text, "responded")
  /\ (text <> text' -> fst (saved text) <> fst (saved text'))
  /\ snd (sent text)
     = mkState text false (if resolves (sendResponse emailId text) then true else shut)
  /\ snd (saved text)
     = mkState text false (if resolves (updateResponse emailId text) then true else shut).
Proof.
  cbv zeta. unfold handleSend, handleSave, setSaving, onClose. simpl.
  split; [reflexivity|]. split; [reflexivity|]. split; [reflexivity|].
  split; [reflexivity|]. split; [reflexivity|]. split.
  - intros Hne H. injection H as H. contradiction.
  - split.
    + destruct (resolves (sendResponse emailId text)); reflexivity.
    + destruct (resolves (updateResponse emailId text)); reflexivity.
Qed.

End ResponseFacts.

(** ** Initials *)

Section InitialsFacts.
Import JsString JsText.
#[local] Arguments String.append !_ _ / : simpl nomatch.

Lemma split_not_nil (sep : ascii) (s : string) : split sep s <> [].
Proof.
  destruct s as [|c s]; simpl; [discriminate|].
  destruct (Ascii.eqb c sep); [discriminate|]. destruct (split sep s); discriminate.
Qed.

(** No piece of a split holds the separator. *)
Lemma split_pieces (sep : ascii) (s piece : string) (c : ascii) :
  In piece (split sep s) -> In c (Terms.chars piece) -> c <> sep.
Proof.
  revert piece. induction s as [|d s IH]; intros piece Hp Hc; simpl in Hp.
  - destruct Hp as [<-|[]]. destruct Hc.
  - destruct (Ascii.eqb_spec d sep) as [->|Hd].
    + destruct Hp as [<-|Hp]; [destruct Hc | eauto].
    + destruct (split sep s) as [|w ws] eqn:E.
      * destruct Hp as [<-|[]]. destruct Hc as [<-|[]]. exact Hd.
      * destruct Hp as [<-|Hp].
        -- destruct Hc as [<-|Hc]; [exact Hd|]. apply (IH w); [now left | exact Hc].
        -- apply (IH piece); [now right | exact Hc].
Qed.

(** A text without a blank is one piece, and it is the first piece of
    the text that continues it after a blank. *)
Lemma split_word (w : string) : Terms.no_blank w -> split " " w = [w].
Proof.
  unfold Terms.no_blank. induction w as [|c w IH]; intros H; simpl in *; [reflexivity|].
  apply andb_true_iff in H. destruct H as [Hc Hw].
  destruct (Ascii.eqb c " "); [discriminate|]. now rewrite (IH Hw).
Qed.

Lemma split_word_more (w rest : string) :
  Terms.no_blank w -> split " " (w ++ String " " rest) = w :: split " " rest.
Proof.
  unfold Terms.no_blank. induction w as [|c w IH]; intros H; simpl in *; [reflexivity|].
  apply andb_true_iff in H. destruct H as [Hc Hw].
  destruct (Ascii.eqb c " "); [discriminate|]. now rewrite (IH Hw).
Qed.

(** Splitting at the blanks undoes joining with blanks. *)
Lemma split_join (words : list string) :
  Forall Terms.no_blank words -> words <> [] -> split " " (join " " words) = words.
Proof.
  unfold join. induction 1 as [|w words Hw Hws IH]; intros Hne; [contradiction|].
  destruct words as [|w2 words].
  - simpl. now apply split_word.
  - change (String.concat " " (w :: w2 :: words))
      with (w ++ String " " (String.concat " " (w2 :: words))).
    rewrite (split_word_more _ _ Hw), IH; [reflexivity | discriminate].
Qed.

Lemma chars_substring_0 (n : nat) (s : string) (c : ascii) :
  In c (Terms.chars (String.substring 0 n s)) -> In c (Terms.chars s).
Proof.
  revert s. induction n as [|n IH]; intros s; destruct s as [|d s]; simpl; try tauto.
  intros [<-|H]; [now left | right; now apply IH].
Qed.

Lemma chars_toUpperCase (s : string) (c : ascii) :
  In c (Terms.chars (toUpperCase s)) ->
  exists d, In d (Terms.chars s) /\ c = Regex.upper_char d.
Proof.
  induction s as [|d s IH]; simpl; [tauto|].
  intros [<-|H]; [exists d; auto|]. destruct (IH H) as (d' & Hd & ->). eauto.
Qed.

Lemma chars_append (a b : string) (c : ascii) :
  In c (Terms.chars (a ++ b)) <-> In c (Terms.chars a) \/ In c (Terms.chars b).
Proof.
  induction a as [|d a IH]; simpl; [tauto|]. rewrite IH. tauto.
Qed.

Lemma chars_join_empty (l : list string) (c : ascii) :
  In c (Terms.chars (join "" l)) -> exists w, In w l /\ In c (Terms.chars w).
Proof.
  unfold join. induction l as [|w l IH]; [intros []|].
  destruct l as [|w2 l].
  - simpl. intros H. exists w. auto.
  - change (String.concat "" (w :: w2 :: l)) with (w ++ String.concat "" (w2 :: l)).
    rewrite chars_append. intros [H|H].
    + exists w. split; [now left | exact H].
    + destruct (IH H) as (w' & Hin & Hc). exists w'. split; [now right | exact Hc].
Qed.

Lemma chars_charAt0 (w : string) (c : ascii) :
  In c (Terms.chars (charAt0 w)) -> In c (Terms.chars w).
Proof. destruct w as [|d w]; simpl; [tauto|]. intros [<-|[]]. now left. Qed.

Lemma upper_char_shape (d : ascii) :
  Regex.is_lower (Regex.upper_char d) = false
  /\ (d <> " "%char -> Regex.upper_char d <> " "%char).
Proof.
  destruct d as [[] [] [] [] [] [] [] []];
    (split; [reflexivity | first [ intros _; discriminate | intros H; exact H ]]).
Qed.

(** X23: the initials [EmailCard] shows for a sender.  They are at
    most two characters, none of them a blank or a lower-case letter;
    an empty or absent name gives the placeholder [?]; and for a name
    made of words joined by blanks they are the capitals of the first
    characters of the words, cut after the second: splitting at the
    blanks undoes the joining. *)
Theorem getInitials_are_two_capitals (name : option string) :
  (String.length (EmailCard.getInitials name) <= 2)%nat
  /\ (name = None \/ name = Some "" -> EmailCard.getInitials name = "?")
  /\ (truthy name = true ->
      forall c, In c (Terms.chars (EmailCard.getInitials name)) ->
        c <> " "%char /\ Regex.is_lower c = false)
  /\ (forall words, Forall Terms.no_blank words -> name = Some (join " " words) ->
        join " " words <> "" ->
        EmailCard.getInitials name
        = substring0 (toUpperCase (join "" (List.map charAt0 words))) 2).
Proof.
  unfold EmailCard.getInitials. split; [|split; [|split]].
  - destruct (negb (truthy name)); [simpl; lia|].
    unfold substring0. rewrite length_substring_0. lia.
  - intros [->| ->]; reflexivity.
  - intros Ht c. rewrite Ht. simpl negb. cbv iota. unfold substring0. intros Hc.
    apply chars_substring_0, chars_toUpperCase in Hc. destruct Hc as (d & Hd & ->).
    apply chars_join_empty in Hd. destruct Hd as (w & Hw & Hd).
    apply List.in_map_iff in Hw. destruct Hw as (piece & <- & Hpiece).
    apply chars_charAt0 in Hd.
    pose proof (split_pieces _ _ _ _ Hpiece Hd) as Hblank.
    destruct (upper_char_shape d) as [Hlow Hkeep]. auto.
  - intros words Hwords -> Hne.
    assert (Ht : truthy (Some (join " " words)) = true).
    { simpl. now destruct (String.eqb_spec (join " " words) ""). }
    rewrite Ht. simpl negb. cbv iota. simpl default.
    rewrite split_join; [reflexivity | exact Hwords |].
    intros ->. apply Hne. reflexivity.
Qed.

Example getInitials_of_a_full_name :
  EmailCard.getInitials (Some "john ronald doe") = "JR"
  /\ EmailCard.getInitials (Some "alice@example.com") = "A"
  /\ EmailCard.getInitials (Some " ") = "".
Proof. repeat split; reflexivity. Qed.

End InitialsFacts.

(** ** The helper library: arrays *)

Section ChunkFacts.
Context {A : Type}.
Import Helpers.

Lemma Math_ceil_div_unique (a b q : Z) :
  0 < b -> b * (q - 1) < a <= b * q -> UseEmails.Math_ceil_div a b = q.
Proof.
  intros Hb Hq. pose proof (Math_ceil_div_spec a b Hb) as Hc. nia.
Qed.

Lemma chunk_from_spec (array : list A) (size : Z) (fuel : nat) (i : nat) :
  0 < size -> (length array - i <= fuel)%nat ->
  exists chunks,
    chunk_from fuel array size (Z.of_nat i) = Some chunks
    /\ concat chunks = skipn i array
    /\ Forall (fun c => c <> [] /\ Z.of_nat (length c) <= size) chunks
    /\ Z.of_nat (length chunks)
       = UseEmails.Math_ceil_div (Z.of_nat (length array - i)) size.
Proof.
  intros Hsize. revert i. induction fuel as [|fuel IH]; intros i Hfuel.
  - exists []. simpl.
    destruct (Z.ltb_spec (Z.of_nat i) (Z.of_nat (length array))) as [Hlt|_]; [lia|].
    rewrite List.skipn_all2 by lia. replace (length array - i)%nat with O by lia.
    repeat split; constructor.
  - simpl. destruct (Z.ltb_spec (Z.of_nat i) (Z.of_nat (length array))) as [Hlt|Hge].
    + destruct (IH (i + Z.to_nat size)%nat ltac:(lia)) as (chunks & Hrun & Hcat & Hall & Hlen).
      replace (Z.of_nat (i + Z.to_nat size)) with (Z.of_nat i + size) in Hrun by lia.
      rewrite Hrun. eexists. split; [reflexivity|].
      rewrite slice_take_drop by lia. rewrite Nat2Z.id. split; [|split].
      * simpl. rewrite Hcat.
        replace (i + Z.to_nat size)%nat with (Z.to_nat size + i)%nat by lia.
        rewrite <- List.skipn_skipn. apply List.firstn_skipn.
      * constructor; [|exact Hall]. split.
        -- intros Hnil. apply (f_equal (@length _)) in Hnil.
           rewrite List.length_firstn, List.length_skipn in Hnil. simpl in Hnil. lia.
        -- rewrite List.length_firstn. lia.
      * simpl length. rewrite Nat2Z.inj_succ, Hlen. symmetry.
        apply Math_ceil_div_unique; [exact Hsize|].
        pose proof (Math_ceil_div_spec (Z.of_nat (length array - (i + Z.to_nat size))) size
                      Hsize) as Hc.
        remember (Z.of_nat (length array - i)) as x eqn:Ex.
        remember (Z.of_nat (length array - (i + Z.to_nat size))) as x' eqn:Ex'.
        assert (Hrest : x' = Z.max 0 (x - size)) by lia.
        assert (Hhere : 0 < x) by lia.
        remember (UseEmails.Math_ceil_div x' size) as q eqn:Eq.
        clear - Hsize Hc Hrest Hhere.
        destruct (Z.max_spec 0 (x - size)) as [[H1 H2]|[H1 H2]]; rewrite H2 in Hrest;
          subst x'.
        -- replace (size * (Z.succ q - 1)) with (size * q) by lia.
           replace (size * Z.succ q) with (size * q + size) by lia.
           replace (size * (q - 1)) with (size * q - size) in Hc by lia. lia.
        -- assert (Hq : q = 0) by nia. subst q. lia.
    + exists []. rewrite List.skipn_all2 by lia.
      replace (length array - i)%nat with O by lia. repeat split; constructor.
Qed.

Lemma chunk_from_loops (array : list A) (size i : Z) (fuel : nat) :
  size <= 0 -> i < Z.of_nat (length array) -> chunk_from fuel array size i = None.
Proof.
  intros Hsize. revert i. induction fuel as [|fuel IH]; intros i Hi; simpl;
    destruct (Z.ltb_spec i (Z.of_nat (length array))) as [_|Hge]; try lia; [reflexivity|].
  now rewrite IH by lia.
Qed.

(** X24: [chunk] cuts an array into consecutive pieces.  For a positive
    size the loop ends (as many rounds as the array has elements always
    suffice): the pieces, put end to end, are the array; each piece
    holds at least one element and at most [size]; and there are
    [ceil (length / size)] of them.  For a size of 0 or less and an
    array that is not empty the loop never ends, however many rounds it
    is given. *)
Theorem chunk_cuts_the_array_into_pieces (array : list A) (size : Z) :
  (0 < size ->
   exists chunks,
     (forall fuel, (length array <= fuel)%nat -> chunk fuel array size = Some chunks)
     /\ concat chunks = array
     /\ Forall (fun c => c <> [] /\ Z.of_nat (length c) <= size) chunks
     /\ Z.of_nat (length chunks) = UseEmails.Math_ceil_div (Z.of_nat (length array)) size)
  /\ (size <= 0 -> array <> [] -> forall fuel, chunk fuel array size = None).
Proof.
  split.
  - intros Hsize.
    destruct (chunk_from_spec array size (length array) 0 Hsize ltac:(lia))
      as (chunks & Hrun & Hcat & Hall & Hlen).
    exists chunks. rewrite Nat.sub_0_r in Hlen. simpl in Hcat.
    split; [|auto]. intros fuel Hfuel.
    destruct (chunk_from_spec array size fuel 0 Hsize ltac:(lia))
      as (chunks' & Hrun' & Hcat' & _).
    unfold chunk. change 0 with (Z.of_nat 0). rewrite Hrun'. f_equal.
    revert Hrun Hrun'. clear - Hsize. revert chunks chunks'.
    assert (Hmono : forall f1 f2 i c1 c2,
              chunk_from f1 array size i = Some c1 ->
              chunk_from f2 array size i = Some c2 -> c2 = c1).
    { induction f1 as [|f1 IH]; intros f2 i c1 c2; destruct f2 as [|f2]; simpl;
        destruct (i <? Z.of_nat (length array)); try discriminate; try congruence.
      destruct (chunk_from f1 array size (i + size)) as [r1|] eqn:E1; [|discriminate].
      destruct (chunk_from f2 array size (i + size)) as [r2|] eqn:E2; [|discriminate].
      intros H1 H2. injection H1 as <-. injection H2 as <-. f_equal.
      exact (IH _ _ _ _ E1 E2). }
    intros c1 c2 H1 H2. exact (Hmono _ _ _ _ _ H1 H2).
  - intros Hsize Hne fuel. apply chunk_from_loops; [exact Hsize|].
    destruct array; [contradiction | simpl; lia].
Qed.

End ChunkFacts.

Example chunk_of_five_by_two :
  Helpers.chunk 5 [1; 2; 3; 4; 5] 2 = Some [[1; 2]; [3; 4]; [5]]
  /\ Helpers.chunk 5 [1; 2; 3; 4; 5] 0 = None.
Proof. split; reflexivity. Qed.

Section UniqueFacts.
Context {A : Type} (read : A -> string -> Email.js_value) (key : string).
Import Helpers.

Lemma same_value_spec (a b : Email.js_value) : same_value a b = true <-> a = b.
Proof.
  destruct a, b; simpl; split; try discriminate; try reflexivity; intros H.
  - apply Z.eqb_eq in H. now subst.
  - injection H as ->. apply Z.eqb_refl.
  - apply String.eqb_eq in H. now subst.
  - injection H as ->. apply String.eqb_refl.
Qed.

Lemma has_spec (v : Email.js_value) (seen : list Email.js_value) :
  existsb (same_value v) seen = true <-> In v seen.
Proof.
  rewrite existsb_exists. split.
  - intros (y & Hin & Heq). apply same_value_spec in Heq. now subst.
  - intros Hin. exists v. split; [exact Hin | now apply same_value_spec].
Qed.

Lemma has_not (v : Email.js_value) (seen : list Email.js_value) :
  existsb (same_value v) seen = false <-> ~ In v seen.
Proof. rewrite <- has_spec. destruct (existsb _ seen); split; congruence. Qed.

Lemma unique_from_In (seen : list Email.js_value) (array : list A) (item : A) :
  In item (unique_from read key seen array) ->
  In item array /\ ~ In (read item key) seen.
Proof.
  revert seen. induction array as [|x l IH]; intros seen; simpl; [tauto|].
  destruct (existsb _ seen) eqn:E.
  - intros H. apply IH in H. tauto.
  - apply has_not in E. intros [<-|H]; [auto|].
    apply IH in H. simpl in H. tauto.
Qed.

Lemma unique_from_values (seen : list Email.js_value) (array : list A) (v : Email.js_value) :
  In v (List.map (fun item => read item key) (unique_from read key seen array))
  <-> In v (List.map (fun item => read item key) array) /\ ~ In v seen.
Proof.
  revert seen. induction array as [|x l IH]; intros seen; simpl; [tauto|].
  destruct (existsb _ seen) eqn:E.
  - apply has_spec in E. rewrite IH. split; [tauto|].
    intros [[<-|H] Hn]; [contradiction | tauto].
  - apply has_not in E. simpl. rewrite IH. simpl. split.
    + intros [<-|[H1 H2]]; tauto.
    + intros [[<-|H1] H2]; [tauto|].
      destruct (same_value (read x key) v) eqn:Ev.
      * apply same_value_spec in Ev. tauto.
      * assert (Hne : read x key <> v).
        { intros Heq. apply same_value_spec in Heq. congruence. }
        tauto.
Qed.

Lemma unique_from_NoDup (seen : list Email.js_value) (array : list A) :
  List.NoDup (List.map (fun item => read item key) (unique_from read key seen array)).
Proof.
  revert seen. induction array as [|x l IH]; intros seen; simpl; [constructor|].
  destruct (existsb _ seen) eqn:E; [apply IH|].
  simpl. constructor; [|apply IH]. rewrite unique_from_values. simpl. tauto.
Qed.

Lemma unique_from_fixed (seen : list Email.js_value) (l : list A) :
  List.NoDup (List.map (fun item => read item key) l) ->
  (forall item, In item l -> ~ In (read item key) seen) ->
  unique_from read key seen l = l.
Proof.
  revert seen. induction l as [|x l IH]; intros seen Hnd Hdis; simpl; [reflexivity|].
  inversion Hnd as [|? ? Hx Hnd']; subst.
  destruct (existsb _ seen) eqn:E.
  - apply has_spec in E. exfalso. apply (Hdis x); simpl; auto.
  - f_equal. apply IH; [exact Hnd'|]. intros item Hitem [Heq|Hs].
    + apply Hx. rewrite Heq. apply List.in_map_iff. eauto.
    + apply (Hdis item); simpl; auto.
Qed.

Lemma unique_from_first (seen : list Email.js_value) (before after : list A) (item : A) :
  ~ In (read item key) seen ->
  ~ In (read item key) (List.map (fun earlier => read earlier key) before) ->
  In item (unique_from read key seen (before ++ item :: after)).
Proof.
  revert seen. induction before as [|x l IH]; intros seen Hs Hb; simpl.
  - apply has_not in Hs. rewrite Hs. now left.
  - simpl in Hb. destruct (existsb _ seen) eqn:E.
    + apply IH; tauto.
    + right. apply IH; [|tauto]. simpl. intros [Heq|H]; [|contradiction].
      apply Hb. now left.
Qed.

(** X25: [unique] with a key (a key that is not the empty text, which
    counts as no key) keeps, of the records that have the same value
    under the key, the first one.  The values of the records it returns
    are pairwise distinct; it returns records of the array only, and
    every value of the array is the value of a record it returns; a
    record none of whose predecessors has its value is kept; an array
    whose values are distinct already comes back as it is; and applying
    it twice is applying it once. *)
Theorem unique_keeps_the_first_of_each_value (array : list A) :
  key <> "" ->
  let value := fun item => read item key in
  let result := unique read array key in
  List.NoDup (List.map value result)
  /\ (forall item, In item result -> In item array)
  /\ (forall v, In v (List.map value result) <-> In v (List.map value array))
  /\ (forall before item after, array = (before ++ item :: after)%list ->
        ~ In (value item) (List.map value before) -> In item result)
  /\ (List.NoDup (List.map value array) -> result = array)
  /\ unique read result key = result.
Proof.
  intros _. cbv zeta. unfold unique.
  split; [apply unique_from_NoDup|]. split; [|split; [|split; [|split]]].
  - intros item H. now apply unique_from_In in H.
  - intros v. rewrite unique_from_values. simpl. tauto.
  - intros before item after -> Hb. apply unique_from_first; [intros [] | exact Hb].
  - intros Hnd. apply unique_from_fixed; [exact Hnd | intros item _ []].
  - apply unique_from_fixed; [apply unique_from_NoDup | intros item _ []].
Qed.

End UniqueFacts.

Section RetryFacts.
Context {A : Type}.
Import Helpers UseEmails.

Lemma retry_spec (r : nat) (fn : nat -> outcome A) (n : nat) (retries delay : Z) :
  0 <= retries -> Z.to_nat retries = r ->
  exists calls,
    (forall fuel, (r <= fuel)%nat ->
       retry fuel fn n retries delay
       = Some (fn (n + calls)%nat, S (n + calls), Terms.backoff calls delay))
    /\ (calls <= r)%nat
    /\ (forall k, (k < calls)%nat -> exists error, fn (n + k)%nat = Thrown error)
    /\ ((exists error, fn (n + calls)%nat = Thrown error) -> calls = r).
Proof.
  revert n retries delay. induction r as [|r IH]; intros n retries delay Hpos Hr.
  - exists O. assert (retries = 0) by lia. subst retries. rewrite Nat.add_0_r.
    split; [|split; [lia|split; [lia|auto]]].
    intros fuel _. destruct fuel; simpl; destruct (fn n); reflexivity.
  - destruct (fn n) as [a|error] eqn:En.
    + exists O. rewrite Nat.add_0_r. split; [|split; [lia|split; [lia|]]].
      * intros fuel _. destruct fuel; simpl; rewrite En; reflexivity.
      * intros [e He]. congruence.
    + destruct (IH (S n) (retries - 1) (delay * 2) ltac:(lia) ltac:(lia))
        as (calls & Hrun & Hle & Hfail & Hlast).
      exists (S calls).
      replace (n + S calls)%nat with (S n + calls)%nat by lia.
      split; [|split; [lia|split]].
      * intros fuel Hfuel. destruct fuel as [|fuel]; [lia|]. simpl. rewrite En.
        destruct (Z.eqb_spec retries 0) as [E|_]; [lia|].
        rewrite (Hrun fuel ltac:(lia)). reflexivity.
      * intros k Hk. destruct k as [|k].
        -- rewrite Nat.add_0_r. eauto.
        -- replace (n + S k)%nat with (S n + k)%nat by lia. apply Hfail. lia.
      * intros H. f_equal. auto.
Qed.

Lemma retry_forever (fn : nat -> outcome A) (fuel : nat) (n : nat) (retries delay : Z) :
  retries < 0 -> (forall k, exists error, fn k = Thrown error) ->
  retry fuel fn n retries delay = None.
Proof.
  intros Hneg Hfail. revert n retries delay Hneg.
  induction fuel as [|fuel IH]; intros n retries delay Hneg; simpl;
    destruct (Hfail n) as [error ->];
    destruct (Z.eqb_spec retries 0) as [E|_]; try lia; [reflexivity|].
  now rewrite IH by lia.
Qed.

(** X26: [retry] calls [fn] until a call returns or the retries are
    used up.  For [retries >= 0] it ends: it makes at most [retries + 1]
    calls, every call but the last one threw, and its outcome is the
    outcome of the last call; it throws only after [retries + 1] calls
    have thrown; and between the calls it sleeps [delay], then twice
    that, then four times, and so on.  For a negative [retries] and an
    [fn] that always throws it never ends. *)
Theorem retry_backs_off_and_gives_up (fn : nat -> outcome A) (retries delay : Z) :
  (0 <= retries ->
   exists calls : nat,
     (forall fuel, (Z.to_nat retries <= fuel)%nat ->
        retry fuel fn 0 retries delay
        = Some (fn calls, S calls, Terms.backoff calls delay))
     /\ (calls <= Z.to_nat retries)%nat
     /\ (forall k, (k < calls)%nat -> exists error, fn k = Thrown error)
     /\ ((exists error, fn calls = Thrown error) -> calls = Z.to_nat retries))
  /\ (retries < 0 -> (forall k, exists error, fn k = Thrown error) ->
      forall fuel, retry fuel fn 0 retries delay = None).
Proof.
  split.
  - intros Hpos. destruct (retry_spec (Z.to_nat retries) fn 0 retries delay Hpos eq_refl)
      as (calls & H). exists calls. exact H.
  - intros Hneg Hfail fuel. now apply retry_forever.
Qed.

End RetryFacts.

(** Two failures, then a success: three calls, and sleeps of one and of
    two seconds. *)
Example retry_third_call_succeeds :
  Helpers.retry 3
    (fun n => if (n <? 2)%nat then UseEmails.Thrown (Api.RequestError "timeout")
              else UseEmails.Returned n)
    0 3 1000
  = Some (UseEmails.Returned 2%nat, 3%nat, [1000; 2000]).
Proof. reflexivity. Qed.

(** ** The helper library: telephone numbers *)

Section PhoneFacts.
Import JsString JsText Helpers.
#[local] Arguments String.append !_ _ / : simpl nomatch.
#[local] Arguments Regex.is_digit : simpl never.
#[local] Arguments Regex.is_space : simpl never.

Lemma all_chars_keep (p : ascii -> bool) (s : string) : all_chars p (keep p s) = true.
Proof.
  induction s as [|c s IH]; simpl; [reflexivity|].
  destruct (p c) eqn:E; simpl; [now rewrite E | exact IH].
Qed.

Lemma keep_all (p : ascii -> bool) (s : string) : all_chars p s = true -> keep p s = s.
Proof.
  induction s as [|c s IH]; simpl; [reflexivity|]. intros H.
  apply andb_true_iff in H. destruct H as [-> H]. now rewrite IH.
Qed.

Lemma digit_not_space (c : ascii) : Regex.is_digit c = true -> Regex.is_space c = false.
Proof.
  destruct c as [[] [] [] [] [] [] [] []]; vm_compute; intros H;
    first [reflexivity | discriminate H].
Qed.

Lemma keep_digits_no_space (s : string) :
  all_chars Regex.is_digit s = true -> remove_spaces s = s.
Proof.
  intros H. apply keep_all. induction s as [|c s IH]; simpl in *; [reflexivity|].
  apply andb_true_iff in H. destruct H as [Hc H].
  now rewrite (digit_not_space c Hc), IH.
Qed.

(** What [formatPhone] does with a number that is given. *)
Lemma formatPhone_given (p : string) :
  p <> "" ->
  formatPhone (Some p) =
    let cleanPhone := remove_non_digits p in
    if Z.of_nat (String.length cleanPhone) =? 10 then
      "(" ++ slice cleanPhone 0 3 ++ ") " ++ slice cleanPhone 3 6 ++ "-"
      ++ slice_from cleanPhone 6
    else if (Z.of_nat (String.length cleanPhone) =? 11)
            && String.eqb (charAt0 cleanPhone) "1" then
      "+1 (" ++ slice cleanPhone 1 4 ++ ") " ++ slice cleanPhone 4 7 ++ "-"
      ++ slice_from cleanPhone 7
    else p.
Proof.
  intros Hp. unfold formatPhone. simpl truthy.
  destruct (String.eqb_spec p ""); [contradiction | reflexivity].
Qed.

Ltac digits_of d Hlen Hall :=
  repeat (destruct d as [|?c d]; [discriminate Hlen|]);
  destruct d; [|discriminate Hlen];
  simpl in Hall; repeat rewrite andb_true_iff in Hall;
  repeat match goal with H : _ /\ _ |- _ => destruct H end.

(** The shape of a formatted number, and the digits in it. *)
Lemma format_ten (d : string) :
  all_chars Regex.is_digit d = true -> String.length d = 10%nat ->
  let shown := "(" ++ slice d 0 3 ++ ") " ++ slice d 3 6 ++ "-" ++ slice_from d 6 in
  remove_non_digits shown = d /\ shown <> ""
  /\ all_chars Regex.is_digit (remove_spaces shown) = false.
Proof.
  intros Hall Hlen. cbv zeta. digits_of d Hlen Hall.
  unfold remove_non_digits, remove_spaces, slice, slice_from. simpl.
  change (Regex.is_digit "(") with false. change (Regex.is_digit ")") with false.
  change (Regex.is_digit " ") with false. change (Regex.is_digit "-") with false.
  change (Regex.is_space "(") with false. cbn [negb].
  repeat match goal with H : Regex.is_digit _ = true |- _ => rewrite H; clear H end.
  cbn [all_chars andb]. change (Regex.is_digit "(") with false.
  repeat split; [discriminate].
Qed.

Lemma format_eleven (d : string) :
  all_chars Regex.is_digit d = true -> String.length d = 11%nat ->
  let shown := "+1 (" ++ slice d 1 4 ++ ") " ++ slice d 4 7 ++ "-" ++ slice_from d 7 in
  (String.eqb (charAt0 d) "1" = true -> remove_non_digits shown = d)
  /\ shown <> ""
  /\ all_chars Regex.is_digit (remove_spaces shown) = false.
Proof.
  intros Hall Hlen. cbv zeta. digits_of d Hlen Hall.
  unfold remove_non_digits, remove_spaces, slice, slice_from. simpl.
  change (Regex.is_digit "(") with false. change (Regex.is_digit ")") with false.
  change (Regex.is_digit " ") with false. change (Regex.is_digit "-") with false.
  change (Regex.is_digit "+") with false. change (Regex.is_digit "1") with true.
  change (Regex.is_space "+") with false. cbn [negb].
  split; [|split; [discriminate|]].
  - intros Hone. destruct (Ascii.eqb_spec c "1") as [->|]; [|discriminate Hone].
    repeat match goal with H : Regex.is_digit _ = true |- _ => rewrite H; clear H end.
    reflexivity.
  - cbn [all_chars andb]. change (Regex.is_digit "+") with false. reflexivity.
Qed.

(** X27: [formatPhone] rearranges a number and never changes its
    digits: the digits of the result are the digits of the input.  A
    number of ten digits reads [(ddd) ddd-dddd]; formatting a formatted
    number changes nothing; and while the ten digits alone pass
    [validatePhone], the formatted number does not. *)
Theorem formatPhone_keeps_the_digits (phone : option string) :
  let digits := remove_non_digits (default "" phone) in
  remove_non_digits (formatPhone phone) = digits
  /\ formatPhone (Some (formatPhone phone)) = formatPhone phone
  /\ (String.length digits = 10%nat ->
      formatPhone phone
      = "(" ++ slice digits 0 3 ++ ") " ++ slice digits 3 6 ++ "-" ++ slice_from digits 6
      /\ validatePhone (Some digits) = true
      /\ validatePhone (Some (formatPhone phone)) = false).
Proof.
  cbv zeta.
  assert (Hempty : formatPhone (Some "") = "") by reflexivity.
  destruct phone as [p|]; [|repeat split; try reflexivity; discriminate].
  destruct (String.eqb_spec p "") as [->|Hp];
    [repeat split; try reflexivity; discriminate|].
  simpl default. set (d := remove_non_digits p).
  assert (Hall : all_chars Regex.is_digit d = true) by apply all_chars_keep.
  pose proof (formatPhone_given p Hp) as Hrun. cbv zeta in Hrun. fold d in Hrun.
  destruct (Z.eqb_spec (Z.of_nat (String.length d)) 10) as [H10|N10].
  - assert (Hlen : String.length d = 10%nat) by lia.
    destruct (format_ten d Hall Hlen) as (Hdigits & Hshown & Hinvalid).
    rewrite Hrun.
    set (shown := "(" ++ slice d 0 3 ++ ") " ++ slice d 3 6 ++ "-" ++ slice_from d 6)
      in *.
    split; [exact Hdigits|]. split; [|intros _; split; [reflexivity|split]].
    + rewrite (formatPhone_given _ Hshown). cbv zeta. rewrite Hdigits.
      destruct (Z.eqb_spec (Z.of_nat (String.length d)) 10); [reflexivity | contradiction].
    + unfold validatePhone. simpl truthy.
      assert (Hd : d <> "") by (intros E; rewrite E in Hlen; discriminate).
      destruct (String.eqb_spec d ""); [contradiction|]. simpl negb. cbv iota. simpl default.
      rewrite (keep_digits_no_space d Hall), Hlen. unfold only_digits.
      destruct (String.eqb_spec d ""); [contradiction|]. rewrite Hall. reflexivity.
    + unfold validatePhone. simpl truthy.
      destruct (String.eqb_spec shown ""); [contradiction|]. simpl negb. cbv iota. simpl default.
      unfold only_digits. rewrite Hinvalid. now rewrite !andb_false_r.
  - destruct ((Z.of_nat (String.length d) =? 11) && String.eqb (charAt0 d) "1") eqn:E11.
    + apply andb_true_iff in E11. destruct E11 as [H11 H1]. apply Z.eqb_eq in H11.
      assert (Hlen : String.length d = 11%nat) by lia.
      destruct (format_eleven d Hall Hlen) as (Hdigits & Hshown & _).
      specialize (Hdigits H1). rewrite Hrun.
      split; [exact Hdigits|]. split; [|intros H; lia].
      rewrite (formatPhone_given _ Hshown). cbv zeta. rewrite Hdigits.
      destruct (Z.eqb_spec (Z.of_nat (String.length d)) 10); [contradiction|].
      rewrite H1. destruct (Z.eqb_spec (Z.of_nat (String.length d)) 11); [reflexivity | lia].
    + rewrite Hrun. split; [reflexivity|]. split; [exact Hrun | intros H; lia].
Qed.

Example formatPhone_of_ten_and_eleven_digits :
  formatPhone (Some "555-123-4567") = "(555) 123-4567"
  /\ formatPhone (Some "+1 555 123 4567") = "+1 (555) 123-4567"
  /\ formatPhone (Some "12345") = "12345"
  /\ validatePhone (Some "555 123 4567") = true
  /\ validatePhone (Some "(555) 123-4567") = false.
Proof. repeat split; reflexivity. Qed.

End PhoneFacts.

(** ** The comparator of the hook, for every pair of records *)

Section ComparatorFacts.

(** X28: the comparator of the hook has no answer for a tie.  It never
    answers 0; it reports every record to come before itself; and it
    reports two records with equal sort keys each to come before the
    other, for every sort field and both sort orders.  So it is a
    consistent comparator on no set of records that is not empty, and
    the order [Array.prototype.sort] gives tied records with it is the
    engine's choice. *)
Theorem hook_compare_has_no_answer_for_a_tie (sortBy sortOrder : string)
    (a b : Email.email) :
  UseEmails.compare sortBy sortOrder a b <> 0
  /\ UseEmails.compare sortBy sortOrder a a = -1
  /\ (Spec.hook_key sortBy a = Spec.hook_key sortBy b ->
      UseEmails.compare sortBy sortOrder a b = -1
      /\ UseEmails.compare sortBy sortOrder b a = -1)
  /\ (forall S : Email.email -> Prop,
        S a -> ~ Spec.consistent (UseEmails.compare sortBy sortOrder) S).
Proof.
  split; [apply hook_compare_never_zero|]. split; [|split].
  - apply (hook_compare_tie sortBy sortOrder a a); apply lt_irrefl.
  - intros Hkey. apply hook_compare_tie; rewrite Hkey; apply lt_irrefl.
  - intros S Ha. now apply (hook_compare_inconsistent sortBy sortOrder S a).
Qed.

End ComparatorFacts.

(** ** Instances of the further properties *)

Section MoreInstances.
Import UseEmails Api.

(** A load right after a fetch, on a hook that holds two records. *)
Lemma loadEmails_within_cache_duration_just_fetched :
  let w := Demo.world_with (Demo.state_with [Demo.email1; Demo.email2] [])
             Demo.offline in
  lastFetch (hook w) = Some Demo.now
  /\ Demo.now <> 0
  /\ clock w - Demo.now < CACHE_DURATION
  /\ fst (loadEmails false w) = Returned tt
  /\ log (snd (loadEmails false w)) = []
  /\ emails (hook (snd (loadEmails false w))) = [Demo.email1; Demo.email2].
Proof.
  cbv zeta.
  set (w := Demo.world_with _ _).
  assert (H1 : lastFetch (hook w) = Some Demo.now) by reflexivity.
  assert (H2 : Demo.now <> 0) by discriminate.
  assert (H3 : clock w - Demo.now < CACHE_DURATION) by reflexivity.
  pose proof (loadEmails_within_cache_duration w Demo.now H1 H2 H3) as H.
  cbv zeta in H. destruct H as (Ha & Hb & _ & Hd & _).
  split; [exact H1|]. split; [exact H2|]. split; [exact H3|].
  split; [exact Ha|]. split; [exact Hb | exact Hd].
Defined.

(** The first load of an empty hook from a remote boundary that stores
    two records. *)
Lemma loadEmails_installs_the_fetched_list_first_load :
  let w := Demo.world_with (Demo.state_with [] [])
             (Demo.server [Demo.email1; Demo.email2]) in
  Spec.load_fetches true w
  /\ Spec.answer w Spec.getEmails_request
     = Resolved (mkResponse (Some [Demo.email1; Demo.email2]))
  /\ emails (hook (snd (loadEmails true w))) = [Demo.email1; Demo.email2]
  /\ getEmailById (hook (snd (loadEmails true w))) 2 = Some Demo.email2.
Proof.
  cbv zeta.
  set (w := Demo.world_with _ _).
  assert (Hf : Spec.load_fetches true w) by (left; reflexivity).
  assert (Ha : Spec.answer w Spec.getEmails_request
               = Resolved (mkResponse (Some [Demo.email1; Demo.email2]))) by reflexivity.
  pose proof (loadEmails_installs_the_fetched_list true w _ Hf Ha) as H.
  cbv zeta in H. destruct H as (_ & _ & He & _ & _ & _ & _ & _ & Hget & _).
  split; [exact Hf|]. split; [exact Ha|]. split; [exact He|].
  rewrite Hget. reflexivity.
Defined.

(** Two records in the view: all are selected, then the first is
    unticked. *)
Lemma selectAll_stays_set_after_unticking_two_records :
  let w := Demo.world_with (Demo.state_with [Demo.email1; Demo.email2] [])
             Demo.offline in
  let all := snd (SelectionEffect.selection_rendered (selectAllEmails true) w) in
  let unticked :=
    snd (SelectionEffect.selection_rendered (toggleEmailSelection 1) all) in
  In 1 (List.map Email.id (filteredEmails (hook w)))
  /\ In 2 (List.map Email.id (filteredEmails (hook w)))
  /\ 2 <> 1
  /\ selectedEmails (hook unticked) = [2]
  /\ selectAll (hook unticked) = true.
Proof.
  cbv zeta.
  set (w := Demo.world_with _ _).
  assert (H1 : In 1 (List.map Email.id (filteredEmails (hook w)))) by (simpl; auto).
  assert (H2 : In 2 (List.map Email.id (filteredEmails (hook w)))) by (simpl; auto).
  assert (H3 : 2 <> 1) by discriminate.
  pose proof (selectAll_stays_set_after_unticking w 1 2 H1 H2 H3) as H.
  cbv zeta in H. destruct H as (_ & _ & Hsel & _ & _ & Hall).
  split; [exact H1|]. split; [exact H2|]. split; [exact H3|].
  split; [rewrite Hsel; reflexivity | exact Hall].
Defined.

(** Two records, twenty to a page: one page, which holds both. *)
Lemma pages_partition_the_filtered_view_two_records :
  let w := Demo.world_with (Demo.state_with [Demo.email1; Demo.email2] [])
             Demo.offline in
  let shown := snd (applyFiltersAndSorting w) in
  0 < pageSize (hook w)
  /\ totalPages (hook shown) = 1
  /\ concat (List.map (fun p => paginatedEmails (hook (snd (goToPage p shown))))
               (Terms.pages (totalPages (hook shown))))
     = filteredEmails (hook shown).
Proof.
  cbv zeta.
  set (w := Demo.world_with _ _).
  assert (Hs : 0 < pageSize (hook w)) by reflexivity.
  pose proof (pages_partition_the_filtered_view w Hs) as H.
  cbv zeta in H. destruct H as (Hcat & _).
  split; [exact Hs|]. split; [reflexivity | exact Hcat].
Defined.

(** The list view on the two records of the examples. *)
Lemma EmailList_view_is_the_hook_view_two_records :
  let st := Demo.state_with [Demo.email1; Demo.email2] [] in
  dateRange (filters st) = "all"
  /\ EmailList.filterAndSortEmails (emails st) "" (EmailList.mkSelected "all" "all" "all" "all")
       "received_at" "desc"
     = filtered_and_sorted Demo.utc Demo.now st.
Proof.
  cbv zeta.
  set (st := Demo.state_with _ _).
  assert (Hd : dateRange (filters st) = "all") by reflexivity.
  split; [exact Hd|]. exact (EmailList_view_is_the_hook_view Demo.utc Demo.now st Hd).
Defined.

(** The queries [URGENT] and [urgent] find the same records. *)
Lemma search_ignores_the_case_of_the_query_urgent :
  let all := EmailManagement.mkSelected "all" "all" "all" "all" "all" in
  let found query :=
    EmailManagement.filterAndSortEmails Demo.utc Demo.now [Demo.email1; Demo.email2] query all
      "sent_date" "desc" in
  JsString.toLowerCase "URGENT" = JsString.toLowerCase "urgent"
  /\ found "URGENT" = found "urgent"
  /\ found "urgent" = [Demo.email2].
Proof.
  cbv zeta.
  assert (Hq : JsString.toLowerCase "URGENT" = JsString.toLowerCase "urgent") by reflexivity.
  split; [exact Hq|]. split; [|reflexivity].
  exact (search_ignores_the_case_of_the_query Demo.utc Demo.now [Demo.email1; Demo.email2]
           "URGENT" "urgent" _ "sent_date" "desc" Hq).
Defined.

(** The stable sort of [filterAndSortEmails] on the two records of the
    examples, which were sent at the same instant. *)
Lemma filterAndSortEmails_stable_two_records :
  let all := EmailManagement.mkSelected "all" "all" "all" "all" "all" in
  let emails := [Demo.email1; Demo.email2] in
  Forall (Spec.has_key "sent_date" "sent_date") emails
  /\ Spec.stable_sort_of (EmailManagement.compare "sent_date" "desc")
       (List.filter (EmailManagement.matches Demo.utc Demo.now "" all) emails)
       (EmailManagement.filterAndSortEmails Demo.utc Demo.now emails "" all "sent_date" "desc")
  /\ EmailManagement.filterAndSortEmails Demo.utc Demo.now emails "" all "sent_date" "desc"
     = [Demo.email1; Demo.email2].
Proof.
  cbv zeta.
  assert (Hk : Forall (Spec.has_key "sent_date" "sent_date") [Demo.email1; Demo.email2]).
  { repeat constructor; discriminate. }
  split; [exact Hk|]. split; [|reflexivity].
  exact (filterAndSortEmails_stable Demo.utc Demo.now [Demo.email1; Demo.email2] "" _
           "sent_date" "desc" Hk).
Defined.

(** [unique] by sender on three records, two of them from one sender. *)
Lemma unique_keeps_the_first_of_each_value_by_sender :
  let array := [Demo.email1; Demo.email2; Demo.email1] in
  "sender" <> ""
  /\ Helpers.unique (Email.get "received_at") array "sender" = [Demo.email1; Demo.email2]
  /\ List.NoDup (List.map (fun item => Email.get "received_at" item "sender")
                   (Helpers.unique (Email.get "received_at") array "sender")).
Proof.
  cbv zeta.
  assert (Hk : "sender" <> "") by discriminate.
  pose proof (unique_keeps_the_first_of_each_value (Email.get "received_at") "sender"
                [Demo.email1; Demo.email2; Demo.email1] Hk) as H.
  cbv zeta in H. destruct H as (Hnd & _).
  split; [exact Hk|]. split; [reflexivity | exact Hnd].
Defined.

(** The cache of a hook that holds two records, after an update of the
    first one that the remote boundary rejects. *)
Lemma cache_stays_in_step_with_the_snapshot_two_records :
  let w := Demo.world_with (Demo.state_with [Demo.email1; Demo.email2] [])
             Demo.offline in
  Terms.cache_in_step (hook w)
  /\ Terms.cache_in_step (hook (snd (updateEmail 1 (Demo.set_status "resolved") w)))
  /\ Terms.cache_in_step (hook (snd (deleteEmail 2 w)))
  /\ getEmailById (hook w) 2 = Some Demo.email2.
Proof.
  cbv zeta.
  set (w := Demo.world_with _ _).
  assert (Hc : Terms.cache_in_step (hook w)) by reflexivity.
  pose proof (cache_stays_in_step_with_the_snapshot w Hc) as H.
  cbv zeta in H. destruct H as (_ & _ & _ & Hupdate & Hdelete & _).
  split; [exact Hc|]. split; [apply Hupdate; reflexivity|]. split; [apply Hdelete|].
  reflexivity.
Defined.

End MoreInstances.
